(** * EcoTrek hiking guide: staged acquisition, cache lookup and saved plans

    A shallow embedding of the orchestration code of the hiking guide
    (the [App] component with [findLocalTrail], [handleSearch],
    [handleSaveTrail], and [services/geminiService.ts]) together with the part
    of the JavaScript platform that this code runs on: strings of UTF-16 code
    units, JSON values, object spread, [JSON.parse], [JSON.stringify] and
    [localStorage].

    Layout:
    - [JS]: the platform (strings, values, property lists, JSON);
    - [GeminiService]: the schemas and the three staged generators;
    - [App]: the store, the fuzzy cache lookup, the search request as a
      machine driven by provider replies, and the saved-plans ledger;
    - [HeroSearch] and [TrailGuideView]: the search forms and the segment
      editor, which call into [App];
    - the vocabulary of the statements and the concrete inputs of the
      examples;
    - the properties of the design (C1 to C10), with the lemmas they rest
      on;
    - further properties of the code (X1 onwards): parsing of replies, the
      request under any replies, seeding, the ledger, the forms and the
      editor, and the round trip through the store;
    - the staged request for every basic result that is not [null] (C2, C4
      and C6), down to the text that is stored.

    The content provider and the store are outside the code: a provider
    reply is an input of the machine, and the store is the list of its
    entries. *)

From Stdlib Require Import List NArith ZArith Bool Lia String Ascii.
From Stdlib Require DecimalFacts DecimalPos DecimalN.
Import ListNotations.
Local Open Scope list_scope.

(* ===================================================================== *)
(** * The JavaScript platform *)
(* ===================================================================== *)

Module JS.

(** ** Strings

    A JavaScript string is a sequence of 16-bit code units. *)

Definition JsString : Type := list N.

Local Open Scope N_scope.

(** Literals are written as Rocq strings (UTF-8 bytes) and decoded to code
    units; code points above the BMP become surrogate pairs. *)

Fixpoint bytes_of (s : string) : list N :=
  match s with
  | EmptyString => []
  | String c r => N_of_ascii c :: bytes_of r
  end.

Definition cont (b : N) : N := N.land b 63.

Fixpoint utf16_of_utf8 (bs : list N) : JsString :=
  match bs with
  | [] => []
  | b0 :: r0 =>
    if b0 <? 128 then b0 :: utf16_of_utf8 r0
    else if b0 <? 224 then
      match r0 with
      | b1 :: r1 => (N.shiftl (N.land b0 31) 6 + cont b1) :: utf16_of_utf8 r1
      | [] => [65533]
      end
    else if b0 <? 240 then
      match r0 with
      | b1 :: b2 :: r2 =>
        (N.shiftl (N.land b0 15) 12 + N.shiftl (cont b1) 6 + cont b2)
          :: utf16_of_utf8 r2
      | _ => [65533]
      end
    else
      match r0 with
      | b1 :: b2 :: b3 :: r3 =>
        let cp := N.shiftl (N.land b0 7) 18 + N.shiftl (cont b1) 12
                  + N.shiftl (cont b2) 6 + cont b3 in
        let v := cp - 65536 in
        (55296 + N.shiftr v 10) :: (56320 + N.land v 1023) :: utf16_of_utf8 r3
      | _ => [65533]
      end
  end.

Definition js (s : string) : JsString := utf16_of_utf8 (bytes_of s).
Arguments js s%_string.

(** JSON texts are written with an apostrophe where the text has a double
    quote. *)
Definition json (s : string) : JsString :=
  map (fun c => if c =? 39 then 34 else c) (js s).
Arguments json s%_string.

Fixpoint str_eqb (a b : JsString) : bool :=
  match a, b with
  | [], [] => true
  | x :: a', y :: b' => (x =? y) && str_eqb a' b'
  | _, _ => false
  end.

(** [String.prototype.startsWith]. *)
Fixpoint startsWith (s p : JsString) : bool :=
  match p, s with
  | [], _ => true
  | y :: p', x :: s' => (x =? y) && startsWith s' p'
  | _ :: _, [] => false
  end.

(** [String.prototype.includes]: [t] occurs in [s] as a run of code units. *)
Fixpoint includes (s t : JsString) : bool :=
  startsWith s t ||
  match s with
  | [] => false
  | _ :: s' => includes s' t
  end.

(** ** Case conversion

    [String.prototype.toLowerCase] follows the Unicode Default Case
    Conversion algorithm on the code points of the string, with the data of
    Unicode 14.0: the lowercase mappings of UnicodeData.txt, the one
    unconditional mapping of SpecialCasing.txt that gives more than one code
    point (U+0130), and the Final_Sigma condition with the Cased and
    Case_Ignorable properties of DerivedCoreProperties.txt. It does not depend
    on a locale. In the Final_Sigma condition a code point that is both cased
    and case-ignorable is passed over as case-ignorable, as the engines'
    libraries do. A lone surrogate is a code point without case. Code points
    assigned after Unicode 14.0 have no mapping here. *)

Definition is_high (c : N) : bool := (55296 <=? c) && (c <=? 56319).
Definition is_low (c : N) : bool := (56320 <=? c) && (c <=? 57343).

(** The code point of a surrogate pair, and the code units of a code
    point. *)
Definition code_point (hi lo : N) : N :=
  65536 + (hi - 55296) * 1024 + (lo - 56320).

Definition units_of_code_point (cp : N) : JsString :=
  if cp <? 65536 then [cp]
  else [55296 + (cp - 65536) / 1024; 56320 + (cp - 65536) mod 1024].

(** The lowercase mappings, as runs [(first, last, step, image of first)]:
    every [step]-th code point from [first] to [last] maps to the code point
    at the same distance from the image of [first]. *)
Definition lower_ranges : list (N * N * N * N) :=
  [
    (0x41, 0x5A, 1, 0x61); (0xC0, 0xD6, 1, 0xE0); (0xD8, 0xDE, 1, 0xF8);
    (0x100, 0x12E, 2, 0x101); (0x132, 0x136, 2, 0x133);
    (0x139, 0x147, 2, 0x13A); (0x14A, 0x176, 2, 0x14B);
    (0x178, 0x178, 1, 0xFF); (0x179, 0x17D, 2, 0x17A);
    (0x181, 0x181, 1, 0x253); (0x182, 0x184, 2, 0x183);
    (0x186, 0x186, 1, 0x254); (0x187, 0x187, 1, 0x188);
    (0x189, 0x18A, 1, 0x256); (0x18B, 0x18B, 1, 0x18C);
    (0x18E, 0x18E, 1, 0x1DD); (0x18F, 0x18F, 1, 0x259);
    (0x190, 0x190, 1, 0x25B); (0x191, 0x191, 1, 0x192);
    (0x193, 0x193, 1, 0x260); (0x194, 0x194, 1, 0x263);
    (0x196, 0x196, 1, 0x269); (0x197, 0x197, 1, 0x268);
    (0x198, 0x198, 1, 0x199); (0x19C, 0x19C, 1, 0x26F);
    (0x19D, 0x19D, 1, 0x272); (0x19F, 0x19F, 1, 0x275);
    (0x1A0, 0x1A4, 2, 0x1A1); (0x1A6, 0x1A6, 1, 0x280);
    (0x1A7, 0x1A7, 1, 0x1A8); (0x1A9, 0x1A9, 1, 0x283);
    (0x1AC, 0x1AC, 1, 0x1AD); (0x1AE, 0x1AE, 1, 0x288);
    (0x1AF, 0x1AF, 1, 0x1B0); (0x1B1, 0x1B2, 1, 0x28A);
    (0x1B3, 0x1B5, 2, 0x1B4); (0x1B7, 0x1B7, 1, 0x292);
    (0x1B8, 0x1B8, 1, 0x1B9); (0x1BC, 0x1BC, 1, 0x1BD);
    (0x1C4, 0x1C4, 1, 0x1C6); (0x1C5, 0x1C5, 1, 0x1C6);
    (0x1C7, 0x1C7, 1, 0x1C9); (0x1C8, 0x1C8, 1, 0x1C9);
    (0x1CA, 0x1CA, 1, 0x1CC); (0x1CB, 0x1DB, 2, 0x1CC);
    (0x1DE, 0x1EE, 2, 0x1DF); (0x1F1, 0x1F1, 1, 0x1F3);
    (0x1F2, 0x1F4, 2, 0x1F3); (0x1F6, 0x1F6, 1, 0x195);
    (0x1F7, 0x1F7, 1, 0x1BF); (0x1F8, 0x21E, 2, 0x1F9);
    (0x220, 0x220, 1, 0x19E); (0x222, 0x232, 2, 0x223);
    (0x23A, 0x23A, 1, 0x2C65); (0x23B, 0x23B, 1, 0x23C);
    (0x23D, 0x23D, 1, 0x19A); (0x23E, 0x23E, 1, 0x2C66);
    (0x241, 0x241, 1, 0x242); (0x243, 0x243, 1, 0x180);
    (0x244, 0x244, 1, 0x289); (0x245, 0x245, 1, 0x28C);
    (0x246, 0x24E, 2, 0x247); (0x370, 0x372, 2, 0x371);
    (0x376, 0x376, 1, 0x377); (0x37F, 0x37F, 1, 0x3F3);
    (0x386, 0x386, 1, 0x3AC); (0x388, 0x38A, 1, 0x3AD);
    (0x38C, 0x38C, 1, 0x3CC); (0x38E, 0x38F, 1, 0x3CD);
    (0x391, 0x3A1, 1, 0x3B1); (0x3A3, 0x3AB, 1, 0x3C3);
    (0x3CF, 0x3CF, 1, 0x3D7); (0x3D8, 0x3EE, 2, 0x3D9);
    (0x3F4, 0x3F4, 1, 0x3B8); (0x3F7, 0x3F7, 1, 0x3F8);
    (0x3F9, 0x3F9, 1, 0x3F2); (0x3FA, 0x3FA, 1, 0x3FB);
    (0x3FD, 0x3FF, 1, 0x37B); (0x400, 0x40F, 1, 0x450);
    (0x410, 0x42F, 1, 0x430); (0x460, 0x480, 2, 0x461);
    (0x48A, 0x4BE, 2, 0x48B); (0x4C0, 0x4C0, 1, 0x4CF);
    (0x4C1, 0x4CD, 2, 0x4C2); (0x4D0, 0x52E, 2, 0x4D1);
    (0x531, 0x556, 1, 0x561); (0x10A0, 0x10C5, 1, 0x2D00);
    (0x10C7, 0x10C7, 1, 0x2D27); (0x10CD, 0x10CD, 1, 0x2D2D);
    (0x13A0, 0x13EF, 1, 0xAB70); (0x13F0, 0x13F5, 1, 0x13F8);
    (0x1C90, 0x1CBA, 1, 0x10D0); (0x1CBD, 0x1CBF, 1, 0x10FD);
    (0x1E00, 0x1E94, 2, 0x1E01); (0x1E9E, 0x1E9E, 1, 0xDF);
    (0x1EA0, 0x1EFE, 2, 0x1EA1); (0x1F08, 0x1F0F, 1, 0x1F00);
    (0x1F18, 0x1F1D, 1, 0x1F10); (0x1F28, 0x1F2F, 1, 0x1F20);
    (0x1F38, 0x1F3F, 1, 0x1F30); (0x1F48, 0x1F4D, 1, 0x1F40);
    (0x1F59, 0x1F5F, 2, 0x1F51); (0x1F68, 0x1F6F, 1, 0x1F60);
    (0x1F88, 0x1F8F, 1, 0x1F80); (0x1F98, 0x1F9F, 1, 0x1F90);
    (0x1FA8, 0x1FAF, 1, 0x1FA0); (0x1FB8, 0x1FB9, 1, 0x1FB0);
    (0x1FBA, 0x1FBB, 1, 0x1F70); (0x1FBC, 0x1FBC, 1, 0x1FB3);
    (0x1FC8, 0x1FCB, 1, 0x1F72); (0x1FCC, 0x1FCC, 1, 0x1FC3);
    (0x1FD8, 0x1FD9, 1, 0x1FD0); (0x1FDA, 0x1FDB, 1, 0x1F76);
    (0x1FE8, 0x1FE9, 1, 0x1FE0); (0x1FEA, 0x1FEB, 1, 0x1F7A);
    (0x1FEC, 0x1FEC, 1, 0x1FE5); (0x1FF8, 0x1FF9, 1, 0x1F78);
    (0x1FFA, 0x1FFB, 1, 0x1F7C); (0x1FFC, 0x1FFC, 1, 0x1FF3);
    (0x2126, 0x2126, 1, 0x3C9); (0x212A, 0x212A, 1, 0x6B);
    (0x212B, 0x212B, 1, 0xE5); (0x2132, 0x2132, 1, 0x214E);
    (0x2160, 0x216F, 1, 0x2170); (0x2183, 0x2183, 1, 0x2184);
    (0x24B6, 0x24CF, 1, 0x24D0); (0x2C00, 0x2C2F, 1, 0x2C30);
    (0x2C60, 0x2C60, 1, 0x2C61); (0x2C62, 0x2C62, 1, 0x26B);
    (0x2C63, 0x2C63, 1, 0x1D7D); (0x2C64, 0x2C64, 1, 0x27D);
    (0x2C67, 0x2C6B, 2, 0x2C68); (0x2C6D, 0x2C6D, 1, 0x251);
    (0x2C6E, 0x2C6E, 1, 0x271); (0x2C6F, 0x2C6F, 1, 0x250);
    (0x2C70, 0x2C70, 1, 0x252); (0x2C72, 0x2C72, 1, 0x2C73);
    (0x2C75, 0x2C75, 1, 0x2C76); (0x2C7E, 0x2C7F, 1, 0x23F);
    (0x2C80, 0x2CE2, 2, 0x2C81); (0x2CEB, 0x2CED, 2, 0x2CEC);
    (0x2CF2, 0x2CF2, 1, 0x2CF3); (0xA640, 0xA66C, 2, 0xA641);
    (0xA680, 0xA69A, 2, 0xA681); (0xA722, 0xA72E, 2, 0xA723);
    (0xA732, 0xA76E, 2, 0xA733); (0xA779, 0xA77B, 2, 0xA77A);
    (0xA77D, 0xA77D, 1, 0x1D79); (0xA77E, 0xA786, 2, 0xA77F);
    (0xA78B, 0xA78B, 1, 0xA78C); (0xA78D, 0xA78D, 1, 0x265);
    (0xA790, 0xA792, 2, 0xA791); (0xA796, 0xA7A8, 2, 0xA797);
    (0xA7AA, 0xA7AA, 1, 0x266); (0xA7AB, 0xA7AB, 1, 0x25C);
    (0xA7AC, 0xA7AC, 1, 0x261); (0xA7AD, 0xA7AD, 1, 0x26C);
    (0xA7AE, 0xA7AE, 1, 0x26A); (0xA7B0, 0xA7B0, 1, 0x29E);
    (0xA7B1, 0xA7B1, 1, 0x287); (0xA7B2, 0xA7B2, 1, 0x29D);
    (0xA7B3, 0xA7B3, 1, 0xAB53); (0xA7B4, 0xA7C2, 2, 0xA7B5);
    (0xA7C4, 0xA7C4, 1, 0xA794); (0xA7C5, 0xA7C5, 1, 0x282);
    (0xA7C6, 0xA7C6, 1, 0x1D8E); (0xA7C7, 0xA7C9, 2, 0xA7C8);
    (0xA7D0, 0xA7D0, 1, 0xA7D1); (0xA7D6, 0xA7D8, 2, 0xA7D7);
    (0xA7F5, 0xA7F5, 1, 0xA7F6); (0xFF21, 0xFF3A, 1, 0xFF41);
    (0x10400, 0x10427, 1, 0x10428); (0x104B0, 0x104D3, 1, 0x104D8);
    (0x10570, 0x1057A, 1, 0x10597); (0x1057C, 0x1058A, 1, 0x105A3);
    (0x1058C, 0x10592, 1, 0x105B3); (0x10594, 0x10595, 1, 0x105BB);
    (0x10C80, 0x10CB2, 1, 0x10CC0); (0x118A0, 0x118BF, 1, 0x118C0);
    (0x16E40, 0x16E5F, 1, 0x16E60); (0x1E900, 0x1E921, 1, 0x1E922)
  ].

Definition in_run (cp : N) (r : N * N * N * N) : bool :=
  let '(first, last, step, image) := r in
  (first <=? cp) && (cp <=? last) && ((cp - first) mod step =? 0).

Definition lower_code_point (cp : N) : N :=
  match find (in_run cp) lower_ranges with
  | Some (first, _, _, image) => image + (cp - first)
  | None => cp
  end.

(** The code points with the property Cased, as ranges. *)
Definition cased_ranges : list (N * N) :=
  [
    (0x41, 0x5A); (0x61, 0x7A); (0xAA, 0xAA); (0xB5, 0xB5); (0xBA, 0xBA);
    (0xC0, 0xD6); (0xD8, 0xF6); (0xF8, 0x1BA); (0x1BC, 0x1BF); (0x1C4, 0x293);
    (0x295, 0x2B8); (0x2C0, 0x2C1); (0x2E0, 0x2E4); (0x345, 0x345);
    (0x370, 0x373); (0x376, 0x377); (0x37A, 0x37D); (0x37F, 0x37F);
    (0x386, 0x386); (0x388, 0x38A); (0x38C, 0x38C); (0x38E, 0x3A1);
    (0x3A3, 0x3F5); (0x3F7, 0x481); (0x48A, 0x52F); (0x531, 0x556);
    (0x560, 0x588); (0x10A0, 0x10C5); (0x10C7, 0x10C7); (0x10CD, 0x10CD);
    (0x10D0, 0x10FA); (0x10FD, 0x10FF); (0x13A0, 0x13F5); (0x13F8, 0x13FD);
    (0x1C80, 0x1C88); (0x1C90, 0x1CBA); (0x1CBD, 0x1CBF); (0x1D00, 0x1DBF);
    (0x1E00, 0x1F15); (0x1F18, 0x1F1D); (0x1F20, 0x1F45); (0x1F48, 0x1F4D);
    (0x1F50, 0x1F57); (0x1F59, 0x1F59); (0x1F5B, 0x1F5B); (0x1F5D, 0x1F5D);
    (0x1F5F, 0x1F7D); (0x1F80, 0x1FB4); (0x1FB6, 0x1FBC); (0x1FBE, 0x1FBE);
    (0x1FC2, 0x1FC4); (0x1FC6, 0x1FCC); (0x1FD0, 0x1FD3); (0x1FD6, 0x1FDB);
    (0x1FE0, 0x1FEC); (0x1FF2, 0x1FF4); (0x1FF6, 0x1FFC); (0x2071, 0x2071);
    (0x207F, 0x207F); (0x2090, 0x209C); (0x2102, 0x2102); (0x2107, 0x2107);
    (0x210A, 0x2113); (0x2115, 0x2115); (0x2119, 0x211D); (0x2124, 0x2124);
    (0x2126, 0x2126); (0x2128, 0x2128); (0x212A, 0x212D); (0x212F, 0x2134);
    (0x2139, 0x2139); (0x213C, 0x213F); (0x2145, 0x2149); (0x214E, 0x214E);
    (0x2160, 0x217F); (0x2183, 0x2184); (0x24B6, 0x24E9); (0x2C00, 0x2CE4);
    (0x2CEB, 0x2CEE); (0x2CF2, 0x2CF3); (0x2D00, 0x2D25); (0x2D27, 0x2D27);
    (0x2D2D, 0x2D2D); (0xA640, 0xA66D); (0xA680, 0xA69D); (0xA722, 0xA787);
    (0xA78B, 0xA78E); (0xA790, 0xA7CA); (0xA7D0, 0xA7D1); (0xA7D3, 0xA7D3);
    (0xA7D5, 0xA7D9); (0xA7F5, 0xA7F6); (0xA7F8, 0xA7FA); (0xAB30, 0xAB5A);
    (0xAB5C, 0xAB68); (0xAB70, 0xABBF); (0xFB00, 0xFB06); (0xFB13, 0xFB17);
    (0xFF21, 0xFF3A); (0xFF41, 0xFF5A); (0x10400, 0x1044F);
    (0x104B0, 0x104D3); (0x104D8, 0x104FB); (0x10570, 0x1057A);
    (0x1057C, 0x1058A); (0x1058C, 0x10592); (0x10594, 0x10595);
    (0x10597, 0x105A1); (0x105A3, 0x105B1); (0x105B3, 0x105B9);
    (0x105BB, 0x105BC); (0x10780, 0x10780); (0x10783, 0x10785);
    (0x10787, 0x107B0); (0x107B2, 0x107BA); (0x10C80, 0x10CB2);
    (0x10CC0, 0x10CF2); (0x118A0, 0x118DF); (0x16E40, 0x16E7F);
    (0x1D400, 0x1D454); (0x1D456, 0x1D49C); (0x1D49E, 0x1D49F);
    (0x1D4A2, 0x1D4A2); (0x1D4A5, 0x1D4A6); (0x1D4A9, 0x1D4AC);
    (0x1D4AE, 0x1D4B9); (0x1D4BB, 0x1D4BB); (0x1D4BD, 0x1D4C3);
    (0x1D4C5, 0x1D505); (0x1D507, 0x1D50A); (0x1D50D, 0x1D514);
    (0x1D516, 0x1D51C); (0x1D51E, 0x1D539); (0x1D53B, 0x1D53E);
    (0x1D540, 0x1D544); (0x1D546, 0x1D546); (0x1D54A, 0x1D550);
    (0x1D552, 0x1D6A5); (0x1D6A8, 0x1D6C0); (0x1D6C2, 0x1D6DA);
    (0x1D6DC, 0x1D6FA); (0x1D6FC, 0x1D714); (0x1D716, 0x1D734);
    (0x1D736, 0x1D74E); (0x1D750, 0x1D76E); (0x1D770, 0x1D788);
    (0x1D78A, 0x1D7A8); (0x1D7AA, 0x1D7C2); (0x1D7C4, 0x1D7CB);
    (0x1DF00, 0x1DF09); (0x1DF0B, 0x1DF1E); (0x1E900, 0x1E943);
    (0x1F130, 0x1F149); (0x1F150, 0x1F169); (0x1F170, 0x1F189)
  ].

(** The code points with the property Case_Ignorable, as ranges. *)
Definition case_ignorable_ranges : list (N * N) :=
  [
    (0x27, 0x27); (0x2E, 0x2E); (0x3A, 0x3A); (0x5E, 0x5E); (0x60, 0x60);
    (0xA8, 0xA8); (0xAD, 0xAD); (0xAF, 0xAF); (0xB4, 0xB4); (0xB7, 0xB8);
    (0x2B0, 0x36F); (0x374, 0x375); (0x37A, 0x37A); (0x384, 0x385);
    (0x387, 0x387); (0x483, 0x489); (0x559, 0x559); (0x55F, 0x55F);
    (0x591, 0x5BD); (0x5BF, 0x5BF); (0x5C1, 0x5C2); (0x5C4, 0x5C5);
    (0x5C7, 0x5C7); (0x5F4, 0x5F4); (0x600, 0x605); (0x610, 0x61A);
    (0x61C, 0x61C); (0x640, 0x640); (0x64B, 0x65F); (0x670, 0x670);
    (0x6D6, 0x6DD); (0x6DF, 0x6E8); (0x6EA, 0x6ED); (0x70F, 0x70F);
    (0x711, 0x711); (0x730, 0x74A); (0x7A6, 0x7B0); (0x7EB, 0x7F5);
    (0x7FA, 0x7FA); (0x7FD, 0x7FD); (0x816, 0x82D); (0x859, 0x85B);
    (0x888, 0x888); (0x890, 0x891); (0x898, 0x89F); (0x8C9, 0x902);
    (0x93A, 0x93A); (0x93C, 0x93C); (0x941, 0x948); (0x94D, 0x94D);
    (0x951, 0x957); (0x962, 0x963); (0x971, 0x971); (0x981, 0x981);
    (0x9BC, 0x9BC); (0x9C1, 0x9C4); (0x9CD, 0x9CD); (0x9E2, 0x9E3);
    (0x9FE, 0x9FE); (0xA01, 0xA02); (0xA3C, 0xA3C); (0xA41, 0xA42);
    (0xA47, 0xA48); (0xA4B, 0xA4D); (0xA51, 0xA51); (0xA70, 0xA71);
    (0xA75, 0xA75); (0xA81, 0xA82); (0xABC, 0xABC); (0xAC1, 0xAC5);
    (0xAC7, 0xAC8); (0xACD, 0xACD); (0xAE2, 0xAE3); (0xAFA, 0xAFF);
    (0xB01, 0xB01); (0xB3C, 0xB3C); (0xB3F, 0xB3F); (0xB41, 0xB44);
    (0xB4D, 0xB4D); (0xB55, 0xB56); (0xB62, 0xB63); (0xB82, 0xB82);
    (0xBC0, 0xBC0); (0xBCD, 0xBCD); (0xC00, 0xC00); (0xC04, 0xC04);
    (0xC3C, 0xC3C); (0xC3E, 0xC40); (0xC46, 0xC48); (0xC4A, 0xC4D);
    (0xC55, 0xC56); (0xC62, 0xC63); (0xC81, 0xC81); (0xCBC, 0xCBC);
    (0xCBF, 0xCBF); (0xCC6, 0xCC6); (0xCCC, 0xCCD); (0xCE2, 0xCE3);
    (0xD00, 0xD01); (0xD3B, 0xD3C); (0xD41, 0xD44); (0xD4D, 0xD4D);
    (0xD62, 0xD63); (0xD81, 0xD81); (0xDCA, 0xDCA); (0xDD2, 0xDD4);
    (0xDD6, 0xDD6); (0xE31, 0xE31); (0xE34, 0xE3A); (0xE46, 0xE4E);
    (0xEB1, 0xEB1); (0xEB4, 0xEBC); (0xEC6, 0xEC6); (0xEC8, 0xECD);
    (0xF18, 0xF19); (0xF35, 0xF35); (0xF37, 0xF37); (0xF39, 0xF39);
    (0xF71, 0xF7E); (0xF80, 0xF84); (0xF86, 0xF87); (0xF8D, 0xF97);
    (0xF99, 0xFBC); (0xFC6, 0xFC6); (0x102D, 0x1030); (0x1032, 0x1037);
    (0x1039, 0x103A); (0x103D, 0x103E); (0x1058, 0x1059); (0x105E, 0x1060);
    (0x1071, 0x1074); (0x1082, 0x1082); (0x1085, 0x1086); (0x108D, 0x108D);
    (0x109D, 0x109D); (0x10FC, 0x10FC); (0x135D, 0x135F); (0x1712, 0x1714);
    (0x1732, 0x1733); (0x1752, 0x1753); (0x1772, 0x1773); (0x17B4, 0x17B5);
    (0x17B7, 0x17BD); (0x17C6, 0x17C6); (0x17C9, 0x17D3); (0x17D7, 0x17D7);
    (0x17DD, 0x17DD); (0x180B, 0x180F); (0x1843, 0x1843); (0x1885, 0x1886);
    (0x18A9, 0x18A9); (0x1920, 0x1922); (0x1927, 0x1928); (0x1932, 0x1932);
    (0x1939, 0x193B); (0x1A17, 0x1A18); (0x1A1B, 0x1A1B); (0x1A56, 0x1A56);
    (0x1A58, 0x1A5E); (0x1A60, 0x1A60); (0x1A62, 0x1A62); (0x1A65, 0x1A6C);
    (0x1A73, 0x1A7C); (0x1A7F, 0x1A7F); (0x1AA7, 0x1AA7); (0x1AB0, 0x1ACE);
    (0x1B00, 0x1B03); (0x1B34, 0x1B34); (0x1B36, 0x1B3A); (0x1B3C, 0x1B3C);
    (0x1B42, 0x1B42); (0x1B6B, 0x1B73); (0x1B80, 0x1B81); (0x1BA2, 0x1BA5);
    (0x1BA8, 0x1BA9); (0x1BAB, 0x1BAD); (0x1BE6, 0x1BE6); (0x1BE8, 0x1BE9);
    (0x1BED, 0x1BED); (0x1BEF, 0x1BF1); (0x1C2C, 0x1C33); (0x1C36, 0x1C37);
    (0x1C78, 0x1C7D); (0x1CD0, 0x1CD2); (0x1CD4, 0x1CE0); (0x1CE2, 0x1CE8);
    (0x1CED, 0x1CED); (0x1CF4, 0x1CF4); (0x1CF8, 0x1CF9); (0x1D2C, 0x1D6A);
    (0x1D78, 0x1D78); (0x1D9B, 0x1DFF); (0x1FBD, 0x1FBD); (0x1FBF, 0x1FC1);
    (0x1FCD, 0x1FCF); (0x1FDD, 0x1FDF); (0x1FED, 0x1FEF); (0x1FFD, 0x1FFE);
    (0x200B, 0x200F); (0x2018, 0x2019); (0x2024, 0x2024); (0x2027, 0x2027);
    (0x202A, 0x202E); (0x2060, 0x2064); (0x2066, 0x206F); (0x2071, 0x2071);
    (0x207F, 0x207F); (0x2090, 0x209C); (0x20D0, 0x20F0); (0x2C7C, 0x2C7D);
    (0x2CEF, 0x2CF1); (0x2D6F, 0x2D6F); (0x2D7F, 0x2D7F); (0x2DE0, 0x2DFF);
    (0x2E2F, 0x2E2F); (0x3005, 0x3005); (0x302A, 0x302D); (0x3031, 0x3035);
    (0x303B, 0x303B); (0x3099, 0x309E); (0x30FC, 0x30FE); (0xA015, 0xA015);
    (0xA4F8, 0xA4FD); (0xA60C, 0xA60C); (0xA66F, 0xA672); (0xA674, 0xA67D);
    (0xA67F, 0xA67F); (0xA69C, 0xA69F); (0xA6F0, 0xA6F1); (0xA700, 0xA721);
    (0xA770, 0xA770); (0xA788, 0xA78A); (0xA7F2, 0xA7F4); (0xA7F8, 0xA7F9);
    (0xA802, 0xA802); (0xA806, 0xA806); (0xA80B, 0xA80B); (0xA825, 0xA826);
    (0xA82C, 0xA82C); (0xA8C4, 0xA8C5); (0xA8E0, 0xA8F1); (0xA8FF, 0xA8FF);
    (0xA926, 0xA92D); (0xA947, 0xA951); (0xA980, 0xA982); (0xA9B3, 0xA9B3);
    (0xA9B6, 0xA9B9); (0xA9BC, 0xA9BD); (0xA9CF, 0xA9CF); (0xA9E5, 0xA9E6);
    (0xAA29, 0xAA2E); (0xAA31, 0xAA32); (0xAA35, 0xAA36); (0xAA43, 0xAA43);
    (0xAA4C, 0xAA4C); (0xAA70, 0xAA70); (0xAA7C, 0xAA7C); (0xAAB0, 0xAAB0);
    (0xAAB2, 0xAAB4); (0xAAB7, 0xAAB8); (0xAABE, 0xAABF); (0xAAC1, 0xAAC1);
    (0xAADD, 0xAADD); (0xAAEC, 0xAAED); (0xAAF3, 0xAAF4); (0xAAF6, 0xAAF6);
    (0xAB5B, 0xAB5F); (0xAB69, 0xAB6B); (0xABE5, 0xABE5); (0xABE8, 0xABE8);
    (0xABED, 0xABED); (0xFB1E, 0xFB1E); (0xFBB2, 0xFBC2); (0xFE00, 0xFE0F);
    (0xFE13, 0xFE13); (0xFE20, 0xFE2F); (0xFE52, 0xFE52); (0xFE55, 0xFE55);
    (0xFEFF, 0xFEFF); (0xFF07, 0xFF07); (0xFF0E, 0xFF0E); (0xFF1A, 0xFF1A);
    (0xFF3E, 0xFF3E); (0xFF40, 0xFF40); (0xFF70, 0xFF70); (0xFF9E, 0xFF9F);
    (0xFFE3, 0xFFE3); (0xFFF9, 0xFFFB); (0x101FD, 0x101FD);
    (0x102E0, 0x102E0); (0x10376, 0x1037A); (0x10780, 0x10785);
    (0x10787, 0x107B0); (0x107B2, 0x107BA); (0x10A01, 0x10A03);
    (0x10A05, 0x10A06); (0x10A0C, 0x10A0F); (0x10A38, 0x10A3A);
    (0x10A3F, 0x10A3F); (0x10AE5, 0x10AE6); (0x10D24, 0x10D27);
    (0x10EAB, 0x10EAC); (0x10F46, 0x10F50); (0x10F82, 0x10F85);
    (0x11001, 0x11001); (0x11038, 0x11046); (0x11070, 0x11070);
    (0x11073, 0x11074); (0x1107F, 0x11081); (0x110B3, 0x110B6);
    (0x110B9, 0x110BA); (0x110BD, 0x110BD); (0x110C2, 0x110C2);
    (0x110CD, 0x110CD); (0x11100, 0x11102); (0x11127, 0x1112B);
    (0x1112D, 0x11134); (0x11173, 0x11173); (0x11180, 0x11181);
    (0x111B6, 0x111BE); (0x111C9, 0x111CC); (0x111CF, 0x111CF);
    (0x1122F, 0x11231); (0x11234, 0x11234); (0x11236, 0x11237);
    (0x1123E, 0x1123E); (0x112DF, 0x112DF); (0x112E3, 0x112EA);
    (0x11300, 0x11301); (0x1133B, 0x1133C); (0x11340, 0x11340);
    (0x11366, 0x1136C); (0x11370, 0x11374); (0x11438, 0x1143F);
    (0x11442, 0x11444); (0x11446, 0x11446); (0x1145E, 0x1145E);
    (0x114B3, 0x114B8); (0x114BA, 0x114BA); (0x114BF, 0x114C0);
    (0x114C2, 0x114C3); (0x115B2, 0x115B5); (0x115BC, 0x115BD);
    (0x115BF, 0x115C0); (0x115DC, 0x115DD); (0x11633, 0x1163A);
    (0x1163D, 0x1163D); (0x1163F, 0x11640); (0x116AB, 0x116AB);
    (0x116AD, 0x116AD); (0x116B0, 0x116B5); (0x116B7, 0x116B7);
    (0x1171D, 0x1171F); (0x11722, 0x11725); (0x11727, 0x1172B);
    (0x1182F, 0x11837); (0x11839, 0x1183A); (0x1193B, 0x1193C);
    (0x1193E, 0x1193E); (0x11943, 0x11943); (0x119D4, 0x119D7);
    (0x119DA, 0x119DB); (0x119E0, 0x119E0); (0x11A01, 0x11A0A);
    (0x11A33, 0x11A38); (0x11A3B, 0x11A3E); (0x11A47, 0x11A47);
    (0x11A51, 0x11A56); (0x11A59, 0x11A5B); (0x11A8A, 0x11A96);
    (0x11A98, 0x11A99); (0x11C30, 0x11C36); (0x11C38, 0x11C3D);
    (0x11C3F, 0x11C3F); (0x11C92, 0x11CA7); (0x11CAA, 0x11CB0);
    (0x11CB2, 0x11CB3); (0x11CB5, 0x11CB6); (0x11D31, 0x11D36);
    (0x11D3A, 0x11D3A); (0x11D3C, 0x11D3D); (0x11D3F, 0x11D45);
    (0x11D47, 0x11D47); (0x11D90, 0x11D91); (0x11D95, 0x11D95);
    (0x11D97, 0x11D97); (0x11EF3, 0x11EF4); (0x13430, 0x13438);
    (0x16AF0, 0x16AF4); (0x16B30, 0x16B36); (0x16B40, 0x16B43);
    (0x16F4F, 0x16F4F); (0x16F8F, 0x16F9F); (0x16FE0, 0x16FE1);
    (0x16FE3, 0x16FE4); (0x1AFF0, 0x1AFF3); (0x1AFF5, 0x1AFFB);
    (0x1AFFD, 0x1AFFE); (0x1BC9D, 0x1BC9E); (0x1BCA0, 0x1BCA3);
    (0x1CF00, 0x1CF2D); (0x1CF30, 0x1CF46); (0x1D167, 0x1D169);
    (0x1D173, 0x1D182); (0x1D185, 0x1D18B); (0x1D1AA, 0x1D1AD);
    (0x1D242, 0x1D244); (0x1DA00, 0x1DA36); (0x1DA3B, 0x1DA6C);
    (0x1DA75, 0x1DA75); (0x1DA84, 0x1DA84); (0x1DA9B, 0x1DA9F);
    (0x1DAA1, 0x1DAAF); (0x1E000, 0x1E006); (0x1E008, 0x1E018);
    (0x1E01B, 0x1E021); (0x1E023, 0x1E024); (0x1E026, 0x1E02A);
    (0x1E130, 0x1E13D); (0x1E2AE, 0x1E2AE); (0x1E2EC, 0x1E2EF);
    (0x1E8D0, 0x1E8D6); (0x1E944, 0x1E94B); (0x1F3FB, 0x1F3FF);
    (0xE0001, 0xE0001); (0xE0020, 0xE007F); (0xE0100, 0xE01EF)
  ].

Definition in_ranges (ranges : list (N * N)) (cp : N) : bool :=
  existsb (fun r => (fst r <=? cp) && (cp <=? snd r)) ranges.

Definition cased (cp : N) : bool := in_ranges cased_ranges cp.
Definition case_ignorable (cp : N) : bool := in_ranges case_ignorable_ranges cp.

(** Final_Sigma, after the sigma: whether what follows is a run of
    case-ignorable code points and then a cased one. *)
Fixpoint followed_by_cased (s : JsString) : bool :=
  match s with
  | [] => false
  | c :: r =>
    if is_high c then
      match r with
      | d :: r' =>
        if is_low d then
          if case_ignorable (code_point c d) then followed_by_cased r'
          else cased (code_point c d)
        else false
      | [] => false
      end
    else if case_ignorable c then followed_by_cased r
    else cased c
  end.

(** Final_Sigma, before the sigma: [before] tells whether what precedes is
    a cased code point and then a run of case-ignorable ones. *)
Definition next_before (before : bool) (cp : N) : bool :=
  if case_ignorable cp then before else cased cp.

Fixpoint lower_from (before : bool) (s : JsString) : JsString :=
  match s with
  | [] => []
  | c :: r =>
    if is_high c then
      match r with
      | d :: r' =>
        if is_low d then
          units_of_code_point (lower_code_point (code_point c d))
            ++ lower_from (next_before before (code_point c d)) r'
        else c :: lower_from false r
      | [] => [c]
      end
    else if c =? 0x3A3 then
      (if before && negb (followed_by_cased r) then 0x3C2 else 0x3C3)
        :: lower_from (next_before before c) r
    else if c =? 0x130 then
      0x69 :: 0x307 :: lower_from (next_before before c) r
    else lower_code_point c :: lower_from (next_before before c) r
  end.

Definition toLowerCase (s : JsString) : JsString := lower_from false s.

(** White space and line terminators, as [String.prototype.trim] sees them. *)
Definition is_space (c : N) : bool :=
  ((9 <=? c) && (c <=? 13)) || (c =? 32) || (c =? 160) || (c =? 5760)
  || ((8192 <=? c) && (c <=? 8202)) || (c =? 8232) || (c =? 8233)
  || (c =? 8239) || (c =? 8287) || (c =? 12288) || (c =? 65279).

Fixpoint trimStart (s : JsString) : JsString :=
  match s with
  | c :: r => if is_space c then trimStart r else s
  | [] => []
  end.

Definition trimEnd (s : JsString) : JsString := rev (trimStart (rev s)).

Definition trim (s : JsString) : JsString := trimEnd (trimStart s).

(** [s.replace(/p/g, '')] for a pattern [p] without metacharacters: every
    occurrence found scanning left to right is dropped. [skip] counts the code
    units of the current occurrence still to drop. *)
Fixpoint remove_from (p s : JsString) (skip : nat) : JsString :=
  match s with
  | [] => []
  | c :: r =>
    match skip with
    | S k => remove_from p r k
    | O =>
      match p with
      | [] => c :: remove_from p r O
      | _ :: p' =>
        if startsWith s p then remove_from p r (List.length p')
        else c :: remove_from p r O
      end
    end
  end.

Definition remove_all (p s : JsString) : JsString := remove_from p s O.

(** Decimal digits of a natural number, as code units. *)
Fixpoint units_of_uint (u : Decimal.uint) : JsString :=
  match u with
  | Decimal.Nil => []
  | Decimal.D0 r => 48 :: units_of_uint r
  | Decimal.D1 r => 49 :: units_of_uint r
  | Decimal.D2 r => 50 :: units_of_uint r
  | Decimal.D3 r => 51 :: units_of_uint r
  | Decimal.D4 r => 52 :: units_of_uint r
  | Decimal.D5 r => 53 :: units_of_uint r
  | Decimal.D6 r => 54 :: units_of_uint r
  | Decimal.D7 r => 55 :: units_of_uint r
  | Decimal.D8 r => 56 :: units_of_uint r
  | Decimal.D9 r => 57 :: units_of_uint r
  end.

Definition digits_of_N (n : N) : JsString := units_of_uint (N.to_uint n).

(** ** Values

    The values that reach this code: [undefined] and what [JSON.parse]
    builds. A number is kept as the exact decimal [mantissa * 10 ^ exponent]
    of its literal; rounding to binary64, overflow and underflow are outside
    the model. An object is its list of own properties in property order. *)

#[warnings="-register-all"]
Inductive JsValue : Type :=
| JUndefined
| JNull
| JBool (b : bool)
| JNumber (mantissa exponent : Z)
| JString (s : JsString)
| JArray (items : list JsValue)
| JObject (props : list (JsString * JsValue)).

Definition Props : Type := list (JsString * JsValue).

(** Exceptions, and computations that may throw. *)
Inductive Exn : Type :=
| TypeError
| SyntaxError
| Error (message : string)
| ProviderError.

Inductive Result (A : Type) : Type :=
| Ok (a : A)
| Throw (e : Exn).
Arguments Ok {A} a.
Arguments Throw {A} e.

Definition bind {A B} (c : Result A) (k : A -> Result B) : Result B :=
  match c with
  | Ok a => k a
  | Throw e => Throw e
  end.

(** [try { c } catch (e) { h e }]. *)
Definition try_catch {A} (c : Result A) (h : Exn -> Result A) : Result A :=
  match c with
  | Ok a => Ok a
  | Throw e => h e
  end.

Declare Scope js_scope.
Delimit Scope js_scope with js.
Notation "x <- c ;; k" := (bind c (fun x => k))
  (at level 61, c at next level, right associativity) : js_scope.

(** ToBoolean. *)
Definition truthy (v : JsValue) : bool :=
  match v with
  | JUndefined | JNull => false
  | JBool b => b
  | JNumber m _ => negb (m =? 0)%Z
  | JString s => match s with [] => false | _ => true end
  | JArray _ | JObject _ => true
  end.

(** ** Own properties

    A property list holds each key once when it is built by [obj_set]; lookup
    takes the last binding of a key, so that the equations of [obj_set] and of
    spread hold for every list. *)

Fixpoint obj_get (k : JsString) (o : Props) : option JsValue :=
  match o with
  | [] => None
  | (k', v) :: r =>
    match obj_get k r with
    | Some x => Some x
    | None => if str_eqb k k' then Some v else None
    end
  end.

Definition has_key (k : JsString) (o : Props) : bool :=
  existsb (fun p => str_eqb k (fst p)) o.

Fixpoint obj_replace (k : JsString) (v : JsValue) (o : Props) : Props :=
  match o with
  | [] => []
  | (k', v') :: r =>
    (k', if str_eqb k k' then v else v') :: obj_replace k v r
  end.

(** An array index is a canonical decimal numeral below 2^32 - 1; such keys
    come first in property order, in ascending numeric order. *)
Definition is_digit (c : N) : bool := (48 <=? c) && (c <=? 57).

Definition digits_value (ds : JsString) : N :=
  fold_left (fun a d => 10 * a + (d - 48)) ds 0.

Definition array_index (k : JsString) : option N :=
  match k with
  | [] => None
  | c :: r =>
    if forallb is_digit k && (negb (c =? 48) || match r with [] => true | _ => false end)
       && (List.length k <=? 10)%nat && (digits_value k <? 4294967295)
    then Some (digits_value k)
    else None
  end.

Fixpoint insert_index (i : N) (k : JsString) (v : JsValue) (o : Props) : Props :=
  match o with
  | [] => [(k, v)]
  | (k', v') :: r =>
    match array_index k' with
    | Some j => if j <? i then (k', v') :: insert_index i k v r
                else (k, v) :: o
    | None => (k, v) :: o
    end
  end.

(** CreateDataProperty: an existing property keeps its place and takes the
    new value; a new one is added in property order. *)
Definition obj_set (k : JsString) (v : JsValue) (o : Props) : Props :=
  if has_key k o then obj_replace k v o
  else match array_index k with
       | Some i => insert_index i k v o
       | None => o ++ [(k, v)]
       end.

Definition index_props {A} (f : A -> JsValue) (l : list A) : Props :=
  map (fun p => (digits_of_N (N.of_nat (fst p)), f (snd p)))
      (combine (seq 0 (List.length l)) l).

(** The own enumerable properties that a spread [...v] copies. *)
Definition own_props (v : JsValue) : Props :=
  match v with
  | JObject o => o
  | JArray items => index_props (fun x => x) items
  | JString s => index_props (fun c => JString [c]) s
  | _ => []
  end.

Definition assign (o src : Props) : Props :=
  fold_left (fun acc p => obj_set (fst p) (snd p) acc) src o.

(** The object literal [{ ...v1, ...v2, ... }]. *)
Definition spread (vs : list JsValue) : JsValue :=
  JObject (fold_left (fun acc v => assign acc (own_props v)) vs []).

(** Whether [k] is an own enumerable property of [v]. *)
Definition has_own (v : JsValue) (k : JsString) : bool :=
  has_key k (own_props v).

Definition number_of_nat (n : nat) : JsValue := JNumber (Z.of_nat n) 0.

(** The property read [v.k] on a value that is neither [null] nor
    [undefined], for the keys this code reads; the only inherited property
    among them is [length] of strings and arrays. *)
Definition get_field (v : JsValue) (k : JsString) : JsValue :=
  match v with
  | JObject o => match obj_get k o with Some x => x | None => JUndefined end
  | JArray items =>
    if str_eqb k (js "length") then number_of_nat (List.length items)
    else match obj_get k (own_props v) with Some x => x | None => JUndefined end
  | JString s =>
    if str_eqb k (js "length") then number_of_nat (List.length s)
    else match obj_get k (own_props v) with Some x => x | None => JUndefined end
  | _ => JUndefined
  end.

(** The property read [v.k] on any value: reading from [null] or [undefined]
    throws a TypeError. *)
Definition member (v : JsValue) (k : JsString) : Result JsValue :=
  match v with
  | JUndefined | JNull => Throw TypeError
  | _ => Ok (get_field v k)
  end.

(** Strict equality [===], which the code applies to names. Two objects are
    equal only when they are the same reference; the value model has no
    references, and object operands give [false]. *)
Definition strict_eq (a b : JsValue) : bool :=
  match a, b with
  | JUndefined, JUndefined => true
  | JNull, JNull => true
  | JBool x, JBool y => Bool.eqb x y
  | JNumber m e, JNumber m' e' =>
    (m * 10 ^ (e - Z.min e e') =? m' * 10 ^ (e' - Z.min e e'))%Z
  | JString s, JString t => str_eqb s t
  | _, _ => false
  end.

(** ** JSON.parse

    A recursive-descent reader of the JSON grammar. [fuel] bounds the nesting
    depth and the number of elements; the length of the text is enough for
    both, since each level and each element consumes a code unit. *)

Definition is_json_ws (c : N) : bool :=
  (c =? 32) || (c =? 9) || (c =? 10) || (c =? 13).

Fixpoint skip_ws (s : JsString) : JsString :=
  match s with
  | c :: r => if is_json_ws c then skip_ws r else s
  | [] => []
  end.

Fixpoint take_digits (s : JsString) : JsString * JsString :=
  match s with
  | c :: r =>
    if is_digit c then let '(ds, rest) := take_digits r in (c :: ds, rest)
    else ([], s)
  | [] => ([], [])
  end.

Definition hex_value (c : N) : option N :=
  if is_digit c then Some (c - 48)
  else if (97 <=? c) && (c <=? 102) then Some (c - 87)
  else if (65 <=? c) && (c <=? 70) then Some (c - 55)
  else None.

Definition hex4 (a b c d : N) : option N :=
  match hex_value a, hex_value b, hex_value c, hex_value d with
  | Some x, Some y, Some z, Some w => Some (4096 * x + 256 * y + 16 * z + w)
  | _, _, _, _ => None
  end.

Definition simple_escape (c : N) : option N :=
  if c =? 34 then Some 34         (* quote *)
  else if c =? 92 then Some 92    (* backslash *)
  else if c =? 47 then Some 47    (* slash *)
  else if c =? 98 then Some 8     (* b *)
  else if c =? 102 then Some 12   (* f *)
  else if c =? 110 then Some 10   (* n *)
  else if c =? 114 then Some 13   (* r *)
  else if c =? 116 then Some 9    (* t *)
  else None.

(** The characters of a string literal, after its opening quote. *)
Fixpoint parse_chars (s : JsString) : option (JsString * JsString) :=
  match s with
  | [] => None
  | c :: r =>
    if c =? 34 then Some ([], r)
    else if c =? 92 then
      match r with
      | [] => None
      | e :: r2 =>
        if e =? 117 then
          match r2 with
          | h1 :: h2 :: h3 :: h4 :: r3 =>
            match hex4 h1 h2 h3 h4, parse_chars r3 with
            | Some u, Some (str, rest) => Some (u :: str, rest)
            | _, _ => None
            end
          | _ => None
          end
        else
          match simple_escape e, parse_chars r2 with
          | Some u, Some (str, rest) => Some (u :: str, rest)
          | _, _ => None
          end
      end
    else if c <? 32 then None
    else match parse_chars r with
         | Some (str, rest) => Some (c :: str, rest)
         | None => None
         end
  end.

Definition well_formed_int (ds : JsString) : bool :=
  match ds with
  | [] => false
  | c :: r => negb (c =? 48) || match r with [] => true | _ => false end
  end.

Definition parse_number (s : JsString) : option (JsValue * JsString) :=
  let '(neg, s1) := match s with
                    | c :: r => if c =? 45 then (true, r) else (false, s)
                    | [] => (false, s)
                    end in
  let '(ints, s2) := take_digits s1 in
  if negb (well_formed_int ints) then None else
  let frac := match s2 with
              | c :: r =>
                if c =? 46 then
                  let '(fs, s3) := take_digits r in
                  match fs with [] => None | _ => Some (fs, s3) end
                else Some ([], s2)
              | [] => Some ([], s2)
              end in
  match frac with
  | None => None
  | Some (fs, s3) =>
    let expo := match s3 with
                | c :: r =>
                  if (c =? 101) || (c =? 69) then
                    let '(eneg, r') :=
                      match r with
                      | d :: r2 => if d =? 45 then (true, r2)
                                   else if d =? 43 then (false, r2)
                                   else (false, r)
                      | [] => (false, r)
                      end in
                    let '(es, s4) := take_digits r' in
                    match es with
                    | [] => None
                    | _ => let e := Z.of_N (digits_value es) in
                           Some (if eneg then (- e)%Z else e, s4)
                    end
                  else Some (0%Z, s3)
                | [] => Some (0%Z, s3)
                end in
    match expo with
    | None => None
    | Some (e, s4) =>
      let m := Z.of_N (digits_value (ints ++ fs)) in
      Some (JNumber (if neg then (- m)%Z else m)
                    (e - Z.of_nat (List.length fs))%Z, s4)
    end
  end.

Definition expect (lit : JsString) (v : JsValue) (s : JsString)
  : option (JsValue * JsString) :=
  if startsWith s lit then Some (v, skipn (List.length lit) s) else None.

Section Composite.
(** The reader of a nested value. *)
Variable parse_inner : JsString -> option (JsValue * JsString).

(** The elements of an array after its first bracket, when it is not
    empty. *)
Fixpoint parse_elements (n : nat) (s : JsString)
  : option (list JsValue * JsString) :=
  match n with
  | O => None
  | S n' =>
    match parse_inner s with
    | None => None
    | Some (v, rest) =>
      match skip_ws rest with
      | c :: r =>
        if c =? 44 then
          match parse_elements n' r with
          | Some (vs, rest') => Some (v :: vs, rest')
          | None => None
          end
        else if c =? 93 then Some ([v], r)
        else None
      | [] => None
      end
    end
  end.

(** The members of an object after its brace, when it is not empty. *)
Fixpoint parse_members (n : nat) (s : JsString) (acc : Props)
  : option (Props * JsString) :=
  match n with
  | O => None
  | S n' =>
    match skip_ws s with
    | q :: r0 =>
      if q =? 34 then
        match parse_chars r0 with
        | None => None
        | Some (k, r1) =>
          match skip_ws r1 with
          | c :: r2 =>
            if c =? 58 then
              match parse_inner r2 with
              | None => None
              | Some (v, r3) =>
                let acc' := obj_set k v acc in
                match skip_ws r3 with
                | d :: r4 =>
                  if d =? 44 then parse_members n' r4 acc'
                  else if d =? 125 then Some (acc', r4)
                  else None
                | [] => None
                end
              end
            else None
          | [] => None
          end
        end
      else None
    | [] => None
    end
  end.
End Composite.

Fixpoint parse_value (fuel : nat) (s : JsString) : option (JsValue * JsString) :=
  match fuel with
  | O => None
  | S fuel' =>
    match skip_ws s with
    | [] => None
    | c :: r =>
      if c =? 34 then
        match parse_chars r with
        | Some (str, rest) => Some (JString str, rest)
        | None => None
        end
      else if c =? 91 then
        match skip_ws r with
        | c' :: r' =>
          if c' =? 93 then Some (JArray [], r')
          else match parse_elements (parse_value fuel') (List.length r) r with
               | Some (vs, rest) => Some (JArray vs, rest)
               | None => None
               end
        | [] => None
        end
      else if c =? 123 then
        match skip_ws r with
        | c' :: r' =>
          if c' =? 125 then Some (JObject [], r')
          else match parse_members (parse_value fuel') (List.length r) r [] with
               | Some (o, rest) => Some (JObject o, rest)
               | None => None
               end
        | [] => None
        end
      else if c =? 110 then expect (js "null") JNull (c :: r)
      else if c =? 116 then expect (js "true") (JBool true) (c :: r)
      else if c =? 102 then expect (js "false") (JBool false) (c :: r)
      else parse_number (c :: r)
    end
  end.

(** [JSON.parse(text)]. *)
Definition JSON_parse (text : JsString) : Result JsValue :=
  match parse_value (S (List.length text)) text with
  | Some (v, rest) =>
    match skip_ws rest with
    | [] => Ok v
    | _ => Throw SyntaxError
    end
  | None => Throw SyntaxError
  end.

(** ** Number to string, ToString and JSON.stringify *)

Fixpoint strip_zeros (rds : JsString) (e : Z) : JsString * Z :=
  match rds with
  | c :: r => if c =? 48 then strip_zeros r (e + 1)%Z else (rds, e)
  | [] => ([], e)
  end.

(** Number::toString in radix ten, from the decimal digits of the number. *)
Definition number_to_string (m e : Z) : JsString :=
  if (m =? 0)%Z then [48] else
  let '(rds, e') := strip_zeros (rev (digits_of_N (Z.abs_N m))) e in
  let ds := rev rds in
  let k := Z.of_nat (List.length ds) in
  let n := (k + e')%Z in
  (if (m <? 0)%Z then [45] else []) ++
  (if (k <=? n)%Z && (n <=? 21)%Z then ds ++ repeat 48 (Z.to_nat (n - k))
   else if (0 <? n)%Z && (n <=? 21)%Z then
     firstn (Z.to_nat n) ds ++ [46] ++ skipn (Z.to_nat n) ds
   else if (-6 <? n)%Z && (n <=? 0)%Z then
     [48; 46] ++ repeat 48 (Z.to_nat (- n)) ++ ds
   else
     let ex := (n - 1)%Z in
     let etxt := [101] ++ (if (ex <? 0)%Z then [45] else [43])
                       ++ digits_of_N (Z.abs_N ex) in
     match ds with
     | [] => []
     | [d] => d :: etxt
     | d :: r => d :: 46 :: r ++ etxt
     end).

Fixpoint join (sep : JsString) (l : list JsString) : JsString :=
  match l with
  | [] => []
  | [x] => x
  | x :: r => x ++ sep ++ join sep r
  end.

(** ToString, as applied by a template literal, on the values that
    [JSON.parse] builds. An object is taken to have no [toString] property of
    its own; with one, the conversion throws, which is outside the model. *)
Fixpoint to_string (v : JsValue) : JsString :=
  match v with
  | JUndefined => js "undefined"
  | JNull => js "null"
  | JBool true => js "true"
  | JBool false => js "false"
  | JNumber m e => number_to_string m e
  | JString s => s
  | JArray items =>
    join [44] (map (fun x => match x with
                             | JUndefined | JNull => []
                             | _ => to_string x
                             end) items)
  | JObject _ => js "[object Object]"
  end.

Definition hex_digit (n : N) : N := if n <? 10 then 48 + n else 87 + n.

Definition unicode_escape (c : N) : JsString :=
  [92; 117; hex_digit (c / 4096); hex_digit ((c / 256) mod 16);
   hex_digit ((c / 16) mod 16); hex_digit (c mod 16)].

Fixpoint quote_chars (s : JsString) : JsString :=
  match s with
  | [] => []
  | c :: r =>
    if c =? 8 then [92; 98] ++ quote_chars r
    else if c =? 9 then [92; 116] ++ quote_chars r
    else if c =? 10 then [92; 110] ++ quote_chars r
    else if c =? 12 then [92; 102] ++ quote_chars r
    else if c =? 13 then [92; 114] ++ quote_chars r
    else if c =? 34 then [92; 34] ++ quote_chars r
    else if c =? 92 then [92; 92] ++ quote_chars r
    else if c <? 32 then unicode_escape c ++ quote_chars r
    else if is_high c then
      match r with
      | d :: r' => if is_low d then c :: d :: quote_chars r'
                   else unicode_escape c ++ quote_chars r
      | [] => unicode_escape c
      end
    else if is_low c then unicode_escape c ++ quote_chars r
    else c :: quote_chars r
  end.

(** QuoteJSONString. *)
Definition quote (s : JsString) : JsString := [34] ++ quote_chars s ++ [34].

(** SerializeJSONProperty; [None] is [undefined], for which an object leaves
    the property out and an array writes [null]. *)
Fixpoint serialize (v : JsValue) : option JsString :=
  match v with
  | JUndefined => None
  | JNull => Some (js "null")
  | JBool true => Some (js "true")
  | JBool false => Some (js "false")
  | JNumber m e => Some (number_to_string m e)
  | JString s => Some (quote s)
  | JArray items =>
    Some ([91] ++ join [44] (map (fun x => match serialize x with
                                           | Some t => t
                                           | None => js "null"
                                           end) items) ++ [93])
  | JObject o =>
    Some ([123] ++ join [44] (flat_map (fun p => match serialize (snd p) with
                                                 | Some t => [quote (fst p) ++ [58] ++ t]
                                                 | None => []
                                                 end) o) ++ [125])
  end.

(** [JSON.stringify(v)] where a string is wanted, as in
    [localStorage.setItem(key, JSON.stringify(v))]. *)
Definition JSON_stringify (v : JsValue) : JsString :=
  match serialize v with
  | Some t => t
  | None => js "undefined"
  end.

End JS.

(* ===================================================================== *)
(** * services/geminiService.ts *)
(* ===================================================================== *)

Module GeminiService.
Import JS.

(** ** Response schemas *)

#[warnings="-register-all"]
Inductive Schema : Type :=
| STRING (description : string)
| NUMBER (description : string)
| ARRAY (items : Schema) (description : string)
| OBJECT (properties : list (string * Schema)) (required : list string)
         (description : string).

Local Open Scope string_scope.

Definition basicSchema : Schema :=
  OBJECT
    [ ("name", STRING "Official name of the trail or mountain in Chinese.");
      ("location", STRING "Specific geographic location in Chinese.");
      ("centerCoordinates",
       OBJECT
         [ ("latitude", NUMBER "Latitude of the trail head or mountain peak.");
           ("longitude", NUMBER "Longitude of the trail head or mountain peak.") ]
         ["latitude"; "longitude"]
         "The central geo-coordinates for the map view.");
      ("highlight", STRING "One engaging sentence summarizing the trail's unique appeal in Chinese.");
      ("difficulty", NUMBER "Difficulty rating from 1 (Easy) to 5 (Expert).");
      ("duration", STRING "Estimated time to complete in Chinese (e.g., '6-8 小时').");
      ("length", STRING "Total distance in Chinese (e.g., '15 公里').");
      ("elevationGain", STRING "Cumulative elevation gain in Chinese (e.g., '800 米').") ]
    ["name"; "location"; "centerCoordinates"; "highlight"; "difficulty";
     "duration"; "length"; "elevationGain"]
    "".

Definition gearItemSchema : Schema :=
  OBJECT
    [ ("item", STRING "Item name in Chinese.");
      ("reason", STRING "Reason in Chinese.") ]
    ["item"; "reason"]
    "".

Definition miscSchema : Schema :=
  OBJECT
    [ ("description", STRING "A factual overview in Chinese.");
      ("story", STRING "A concise narrative describing the experience in Chinese.");
      ("gear",
       OBJECT
         [ ("essential", ARRAY gearItemSchema "Top 3 essential items.");
           ("recommended", ARRAY gearItemSchema "Top 3 recommended items.") ]
         ["essential"; "recommended"]
         "");
      ("safetyTips", ARRAY (STRING "") "Top 3 important safety tips in Chinese.");
      ("bestSeason", STRING "Best months in Chinese.");
      ("communityTips", ARRAY (STRING "") "Top 2 brief community tips in Chinese.") ]
    ["description"; "story"; "gear"; "safetyTips"; "bestSeason"; "communityTips"]
    "".

Definition routesSchema : Schema :=
  OBJECT
    [ ("routeSegments",
       ARRAY
         (OBJECT
            [ ("name", STRING "Segment name in Chinese (e.g. '经典正穿', '西脊线').");
              ("distance", STRING "Total distance.");
              ("time", STRING "Total time.");
              ("description", STRING "Overview of this specific route option in Chinese.");
              ("landmarks", STRING "Summary string of key nodes in Chinese (e.g. 'A->B->C').");
              ("timeline",
               ARRAY
                 (OBJECT
                    [ ("name", STRING "Name of the checkpoint (e.g. '绝望坡').");
                      ("coordinates",
                       ARRAY (NUMBER "")
                             "REAL GPS [Latitude, Longitude]. Do not hallucinate.");
                      ("distance", STRING "Distance from start.");
                      ("time", STRING "Time from start.");
                      ("description", STRING "Details about terrain/view.");
                      ("highlights", STRING "Key photo spot.") ]
                    ["name"; "coordinates"; "description"]
                    "")
                 "CRITICAL: Step-by-step waypoints with REAL coordinates.") ]
            ["name"; "distance"; "time"; "description"; "landmarks"; "timeline"]
            "")
         "Generate exactly 2 distinct route options.") ]
    ["routeSegments"]
    "".

Local Close Scope string_scope.

(** What it is for a value to honour a schema, as structured output of the
    content provider: the type of every node matches, an object has every
    required property, and each declared property that is there honours its
    own schema. The schemas of this file say nothing of properties that they
    do not declare, so such a property is allowed. The descriptions are prose
    for the provider and constrain nothing. *)
Fixpoint conforms (sch : Schema) (v : JsValue) {struct sch} : bool :=
  match sch, v with
  | STRING _, JString _ => true
  | NUMBER _, JNumber _ _ => true
  | ARRAY items _, JArray vs => forallb (conforms items) vs
  | OBJECT properties required _, JObject o =>
    forallb (fun k => has_key (js k) o) required
    && (fix each (ps : list (string * Schema)) : bool :=
          match ps with
          | [] => true
          | (k, sub) :: r =>
            match obj_get (js k) o with
            | Some x => conforms sub x
            | None => true
            end && each r
          end) properties
  | _, _ => false
  end.

(** ** The provider call

    [ai.models.generateContent] is the external content provider. A call
    carries the stage's schema and a prompt; of the prompt the model keeps the
    interpolated values. The call either rejects or resolves to a response
    whose [text] is a string or [undefined]. *)

Inductive Stage : Type := Basic | Misc | Routes.

Record Request : Type := mkRequest {
  stage : Stage;
  interpolated : list JsString;
  responseSchema : Schema;
  thinkingBudget : option nat
}.

Inductive Reply : Type :=
| Rejected
| Response (text : option JsString).

Definition await (r : Reply) : Result (option JsString) :=
  match r with
  | Rejected => Throw ProviderError
  | Response text => Ok text
  end.

Local Open Scope js_scope.

(** Helper to safely parse JSON from chatty AI responses. *)
Definition safeParseJSON (text : option JsString) : Result JsValue :=
  match text with
  | None | Some [] => Throw (Error "No response from AI")
  | Some text =>
    let cleanText :=
      trim (remove_all (js "```") (remove_all (js "```json") text)) in
    try_catch (JSON_parse cleanText)
              (fun _ => Throw (Error "Invalid JSON response from AI"))
  end.

(** [basicInfo.centerCoordinates?.latitude]. *)
Definition optional_member (v : JsValue) (k : JsString) : JsValue :=
  match v with
  | JUndefined | JNull => JUndefined
  | _ => get_field v k
  end.

(** Each generator is the request it sends and what it makes of the reply. *)

Definition basic_request (query : JsString) : Request :=
  mkRequest Basic [query] basicSchema None.

Definition generateBasicTrailInfo (reply : Reply) : Result JsValue :=
  text <- await reply ;;
  safeParseJSON text.

Definition misc_request (query : JsString) (basicInfo : JsValue) : Request :=
  mkRequest Misc
    [to_string (get_field basicInfo (js "name"));
     to_string (get_field basicInfo (js "location"))]
    miscSchema None.

Definition generateTrailMisc (reply : Reply) : Result JsValue :=
  text <- await reply ;;
  safeParseJSON text.

Definition routes_request (query : JsString) (basicInfo : JsValue) : Request :=
  let center := get_field basicInfo (js "centerCoordinates") in
  mkRequest Routes
    [to_string (get_field basicInfo (js "name"));
     to_string (get_field basicInfo (js "location"));
     to_string (optional_member center (js "latitude"));
     to_string (optional_member center (js "longitude"))]
    routesSchema (Some 2048%nat).

Definition generateTrailRoutes (reply : Reply) : Result JsValue :=
  text <- await reply ;;
  safeParseJSON text.





End GeminiService.

(* ===================================================================== *)
(** * The App component *)
(* ===================================================================== *)

Module App.
Import JS GeminiService.
Local Open Scope js_scope.

(** ** localStorage

    The store is the list of its entries in key enumeration order, each key
    once. The platform leaves the order open: here a new key goes to the end,
    and no statement of this file says where a key stands after a write.
    Writes are taken to succeed. *)

Definition Storage : Type := list (JsString * JsString).

Definition key (s : Storage) (i : nat) : option JsString :=
  option_map fst (nth_error s i).

Fixpoint getItem (s : Storage) (k : JsString) : option JsString :=
  match s with
  | [] => None
  | (k', v) :: r => if str_eqb k k' then Some v else getItem r k
  end.

Fixpoint setItem (s : Storage) (k v : JsString) : Storage :=
  match s with
  | [] => [(k, v)]
  | (k', v') :: r =>
    if str_eqb k k' then (k', v) :: r else (k', v') :: setItem r k v
  end.

(** ** Component state *)

Inductive View : Type := home | guide | saved.

(** A [TrailData] object, by its properties. *)
Definition TrailData : Type := Props.

(** What the component does to the outside: provider calls, the blocking
    alert, and store writes. Console output is not kept. *)
Inductive Effect : Type :=
| Call (request : Request)
| Alert (message : JsString)
| StoreWrite (key value : JsString).

Record AppState : Type := mkState {
  view : View;
  isLoading : bool;
  currentTrail : JsValue;            (* TrailData | null *)
  savedTrails : list TrailData;
  localStorage : Storage;
  log : list Effect
}.

Definition setView (v : View) (st : AppState) : AppState :=
  mkState v (isLoading st) (currentTrail st) (savedTrails st)
          (localStorage st) (log st).

Definition setIsLoading (b : bool) (st : AppState) : AppState :=
  mkState (view st) b (currentTrail st) (savedTrails st)
          (localStorage st) (log st).

(** [setCurrentTrail(prev => f(prev))]; a plain value is the constant
    updater. *)
Definition setCurrentTrail (f : JsValue -> JsValue) (st : AppState) : AppState :=
  mkState (view st) (isLoading st) (f (currentTrail st)) (savedTrails st)
          (localStorage st) (log st).

Definition emit (e : Effect) (st : AppState) : AppState :=
  mkState (view st) (isLoading st) (currentTrail st) (savedTrails st)
          (localStorage st) (log st ++ [e]).

(** [localStorage.setItem(k, v)]. *)
Definition store_write (k v : JsString) (st : AppState) : AppState :=
  emit (StoreWrite k v)
       (mkState (view st) (isLoading st) (currentTrail st) (savedTrails st)
                (setItem (localStorage st) k v) (log st)).

Definition plans_key : JsString := js "ecotrek_my_plans".
Definition community_prefix : JsString := js "ecotrek_community_".

(** [setSavedTrails(l)], with the effect that depends on [savedTrails] and
    rewrites the whole ledger under its key. *)
Definition setSavedTrails (l : list TrailData) (st : AppState) : AppState :=
  store_write plans_key (JSON_stringify (JArray (map JObject l)))
    (mkState (view st) (isLoading st) (currentTrail st) l
             (localStorage st) (log st)).

(** ** Seed mock community data *)

Definition mockCommunityData : JsValue :=
  JObject
    [ (js "name", JString (js "武功山"));
      (js "location", JString (js "中国江西省萍乡市"));
      (js "highlight", JString (js "云中草原，户外天堂，华东朝圣之路。"));
      (js "difficulty", JNumber 3 0);
      (js "duration", JString (js "2-3天"));
      (js "length", JString (js "25-30公里"));
      (js "elevationGain", JString (js "1600米"));
      (js "description", JString (js "武功山以其广阔的高山草甸和壮观的云海日出而闻名。"));
      (js "story", JString (js "当你站在金顶之上，脚下是翻涌的云海，头顶是璀璨的星空..."));
      (js "routeSegments",
       JArray
         [ JObject
             [ (js "name", JString (js "正穿经典线 (沈子村-金顶)"));
               (js "distance", JString (js "18km"));
               (js "time", JString (js "8-10h"));
               (js "description", JString (js "最经典的登山路线，路况成熟。"));
               (js "landmarks", JString (js "沈子村 -> 九龙山 -> 铁蹄峰 -> 金顶"));
               (js "timeline", JArray []) ];
           JObject
             [ (js "name", JString (js "反穿精华线"));
               (js "distance", JString (js "22km"));
               (js "time", JString (js "2天1夜"));
               (js "description", JString (js "驴友最爱路线。"));
               (js "landmarks", JString (js "龙山村 -> 发云界 -> 绝望坡 -> 金顶"));
               (js "timeline",
                JArray [ JObject [ (js "name", JString (js "龙山村"));
                                   (js "description", JString (js "起点")) ] ]) ] ]);
      (js "gear",
       JObject
         [ (js "essential",
            JArray [ JObject [ (js "item", JString (js "登山杖"));
                               (js "reason", JString (js "保护膝盖")) ] ]);
           (js "recommended",
            JArray [ JObject [ (js "item", JString (js "防晒霜"));
                               (js "reason", JString (js "紫外线强")) ] ]) ]);
      (js "safetyTips", JArray [ JString (js "雨天路滑建议避开。") ]);
      (js "bestSeason", JString (js "5月-10月"));
      (js "communityTips", JArray [ JString (js "建议反穿！") ]) ].

Definition wugongKey : JsString := js "ecotrek_community_武功山".

Definition seed_effect (st : AppState) : AppState :=
  match getItem (localStorage st) wugongKey with
  | None | Some [] => store_write wugongKey (JSON_stringify mockCommunityData) st
  | Some _ => st
  end.

(** ** findLocalTrail *)

(** How one turn of the loop ends. *)
Inductive Completion : Type :=
| Continue
| Return (v : JsValue).

(** [name.toLowerCase()] on whatever [name] is. *)
Definition call_toLowerCase (v : JsValue) : Result JsString :=
  match v with
  | JString s => Ok (toLowerCase s)
  | _ => Throw TypeError
  end.

(** The body of the [try] block for the key [k]. *)
Definition scan_try (normalizedQuery : JsString) (store : Storage)
           (k : JsString) : Result Completion :=
  match getItem store k with
  | None | Some [] => Ok Continue
  | Some json =>
    data <- JSON_parse json ;;
    if negb (truthy data) then Ok Continue else
    name <- member data (js "name") ;;
    if negb (truthy name) then Ok Continue else
    trailName <- call_toLowerCase name ;;
    if includes trailName normalizedQuery || includes normalizedQuery trailName
    then Ok (Return data)
    else Ok Continue
  end.

(** The body of the loop at index [i]: the test on the key, then the [try]
    block, whose [catch] logs the exception and lets the loop go on. *)
Definition scan_key (normalizedQuery : JsString) (store : Storage) (i : nat)
  : Result Completion :=
  match key store i with
  | Some (c :: k') =>
    if startsWith (c :: k') community_prefix
    then try_catch (scan_try normalizedQuery store (c :: k'))
                   (fun e => Ok Continue)
    else Ok Continue
  | _ => Ok Continue
  end.

(** The loop from index [i], with [n] turns left. *)
Fixpoint scan_from (normalizedQuery : JsString) (store : Storage) (n i : nat)
  : Result JsValue :=
  match n with
  | O => Ok JNull
  | S n' =>
    c <- scan_key normalizedQuery store i ;;
    match c with
    | Return data => Ok data
    | Continue => scan_from normalizedQuery store n' (S i)
    end
  end.

Definition findLocalTrail (query : JsString) (store : Storage) : Result JsValue :=
  let normalizedQuery := trim (toLowerCase query) in
  scan_from normalizedQuery store (List.length store) 0.

(** ** handleSearch

    The handler runs to its first [await]; what is left of the request is
    resumed by the provider's replies, in the order they come. The machine
    follows one request, with no other handler run in between. A state update
    takes effect where the handler asks for it. *)

Inductive Phase : Type :=
| Idle
| AwaitBasic (query : JsString)
| AwaitStages (partialTrail : JsValue) (miscPromise routesPromise : option JsValue).

Definition alert_message : JsString :=
  js "哎呀！向导似乎找不到这条路。请尝试输入更清晰的名称。".

(** The [catch] of [handleSearch]. *)
Definition on_error (st : AppState) : AppState * Phase :=
  (setIsLoading false (emit (Alert alert_message) st), Idle).

Definition handleSearch (query : JsString) (st : AppState)
  : Result (AppState * Phase) :=
  let st := setIsLoading true st in
  try_catch
    (cachedData <- findLocalTrail query (localStorage st) ;;
     if truthy cachedData then
       Ok (setIsLoading false
             (setView guide (setCurrentTrail (fun _ => cachedData) st)), Idle)
     else
       Ok (emit (Call (basic_request query)) st, AwaitBasic query))
    (fun error => Ok (on_error st)).

Definition make_partialTrail (basicInfo : JsValue) : Result JsValue :=
  name <- member basicInfo (js "name") ;;
  location <- member basicInfo (js "location") ;;
  highlight <- member basicInfo (js "highlight") ;;
  difficulty <- member basicInfo (js "difficulty") ;;
  duration <- member basicInfo (js "duration") ;;
  length <- member basicInfo (js "length") ;;
  elevationGain <- member basicInfo (js "elevationGain") ;;
  centerCoordinates <- member basicInfo (js "centerCoordinates") ;;
  Ok (JObject
        [ (js "name", name);
          (js "location", location);
          (js "highlight", highlight);
          (js "difficulty", difficulty);
          (js "duration", duration);
          (js "length", length);
          (js "elevationGain", elevationGain);
          (js "centerCoordinates", centerCoordinates);
          (js "description", JUndefined);
          (js "story", JUndefined);
          (js "routeSegments", JUndefined);
          (js "gear", JUndefined);
          (js "safetyTips", JUndefined);
          (js "bestSeason", JUndefined);
          (js "communityTips", JUndefined) ]).

(** After [await generateBasicTrailInfo(query)]. *)
Definition resume_basic (query : JsString) (reply : Reply) (st : AppState)
  : Result (AppState * Phase) :=
  try_catch
    (basicInfo <- generateBasicTrailInfo reply ;;
     partialTrail <- make_partialTrail basicInfo ;;
     let st := setCurrentTrail (fun _ => partialTrail) st in
     let st := setView guide st in
     let st := setIsLoading false st in
     let st := emit (Call (misc_request query basicInfo)) st in
     let st := emit (Call (routes_request query basicInfo)) st in
     Ok (st, AwaitStages partialTrail None None))
    (fun error => Ok (on_error st)).

(** [prev => { if (!prev) return null; return { ...prev, ...fields }; }] *)
Definition merge_into (fields prev : JsValue) : JsValue :=
  if negb (truthy prev) then JNull else spread [prev; fields].

(** A stage promise with its [then] and [catch]: the state after the
    callback that runs, and the value the promise resolves to. *)
Definition settle (result : Result JsValue) (st : AppState) : AppState * JsValue :=
  match result with
  | Ok fields => (setCurrentTrail (merge_into fields) st, fields)
  | Throw err => (st, JObject [])
  end.

(** [Promise.all([miscPromise, routesPromise]).then(...)]: nothing happens
    until both have resolved. *)
Definition join_all (partialTrail : JsValue) (miscPromise routesPromise : option JsValue)
           (st : AppState) : AppState * Phase :=
  match miscPromise, routesPromise with
  | Some misc, Some routes =>
    let finalTrail := spread [partialTrail; misc; routes] in
    let storageKey :=
      community_prefix ++ to_string (get_field finalTrail (js "name")) in
    (store_write storageKey (JSON_stringify finalTrail) st, Idle)
  | _, _ => (st, AwaitStages partialTrail miscPromise routesPromise)
  end.

Inductive Event : Type :=
| BasicReplied (reply : Reply)
| MiscReplied (reply : Reply)
| RoutesReplied (reply : Reply).

(** A reply resumes the code that waits for it; a reply that nothing waits
    for does not occur and leaves everything as it is. *)
Definition step (e : Event) (c : AppState * Phase) : Result (AppState * Phase) :=
  let '(st, phase) := c in
  match phase, e with
  | AwaitBasic query, BasicReplied reply => resume_basic query reply st
  | AwaitStages partialTrail None routesPromise, MiscReplied reply =>
    let '(st', misc) := settle (generateTrailMisc reply) st in
    Ok (join_all partialTrail (Some misc) routesPromise st')
  | AwaitStages partialTrail miscPromise None, RoutesReplied reply =>
    let '(st', routes) := settle (generateTrailRoutes reply) st in
    Ok (join_all partialTrail miscPromise (Some routes) st')
  | _, _ => Ok c
  end.

Fixpoint run (events : list Event) (c : AppState * Phase)
  : Result (AppState * Phase) :=
  match events with
  | [] => Ok c
  | e :: rest => c' <- step e c ;; run rest c'
  end.

(** A whole request: the handler, then the replies. *)
Definition search (query : JsString) (events : list Event) (st : AppState)
  : Result (AppState * Phase) :=
  c <- handleSearch query st ;;
  run events c.

(** ** The saved-plans ledger *)

Definition name_of (t : TrailData) : JsValue :=
  match obj_get (js "name") t with
  | Some v => v
  | None => JUndefined
  end.

(** [t => t.name === trail.name] *)
Definition same_name (trail t : TrailData) : bool :=
  strict_eq (name_of t) (name_of trail).

(** [find] gives the entry found, an object, or [undefined]. *)
Definition handleSaveTrail (trail : TrailData) (st : AppState) : AppState :=
  match find (same_name trail) (savedTrails st) with
  | None => setSavedTrails (savedTrails st ++ [trail]) st
  | Some _ =>
    setSavedTrails
      (map (fun t => if same_name trail t then trail else t) (savedTrails st)) st
  end.

Definition handleUpdateTrail (updatedTrail : TrailData) (st : AppState) : AppState :=
  let st := setCurrentTrail (fun _ => JObject updatedTrail) st in
  let storageKey := community_prefix ++ to_string (name_of updatedTrail) in
  let st := store_write storageKey (JSON_stringify (JObject updatedTrail)) st in
  match find (same_name updatedTrail) (savedTrails st) with
  | Some _ =>
    setSavedTrails
      (map (fun t => if same_name updatedTrail t then updatedTrail else t)
           (savedTrails st)) st
  | None => setSavedTrails (updatedTrail :: savedTrails st) st
  end.

Definition initial (store : Storage) : AppState :=
  mkState home false JNull [] store [].

(** [currentTrail ? !!savedTrails.find(t => t.name === currentTrail.name) : false] *)
Definition isCurrentSaved (st : AppState) : bool :=
  if truthy (currentTrail st) then
    match find (fun t => strict_eq (name_of t) (get_field (currentTrail st) (js "name")))
               (savedTrails st) with
    | Some _ => true
    | None => false
    end
  else false.

(** [useState(() => { ... })] for the ledger: what the initializer returns
    on mount. *)
Definition initial_savedTrails (store : Storage) : JsValue :=
  match getItem store plans_key with
  | None | Some [] => JArray []
  | Some text =>
    match JSON_parse text with
    | Ok v => v
    | Throw e => JArray []
    end
  end.

End App.

(* ===================================================================== *)
(** * components/HeroSearch.tsx *)
(* ===================================================================== *)

Module HeroSearch.
Import JS GeminiService App.

(** The form of the home view: [onSearch] is the [handleSearch] of [App]. *)
Definition handleSubmit (input : JsString) (st : AppState)
  : Result (AppState * Phase) :=
  if truthy (JString (trim input)) then handleSearch input st
  else Ok (st, Idle).

End HeroSearch.

(* ===================================================================== *)
(** * components/TrailGuideView.tsx *)
(* ===================================================================== *)

Module TrailGuideView.
Import JS GeminiService App.
Local Open Scope js_scope.

(** The search form of the guide view; it hands the query on and clears
    its input. The second component is the new [searchQuery]. *)
Definition handleSearchSubmit (searchQuery : JsString) (st : AppState)
  : Result (AppState * Phase) * JsString :=
  if truthy (JString (trim searchQuery)) then (handleSearch searchQuery st, [])
  else (Ok (st, Idle), searchQuery).

(** The state of the segment editor. A toast is kept as the message shown;
    the timer that clears it is left out. *)
Record Editor : Type := mkEditor {
  isAddingSegment : bool;
  newSegment : Props;
  timelineNodes : list Props;
  toastMessage : option JsString
}.

Definition showToast (msg : JsString) (ed : Editor) : Editor :=
  mkEditor (isAddingSegment ed) (newSegment ed) (timelineNodes ed) (Some msg).

Definition blankSegment : Props :=
  [ (js "name", JString []); (js "distance", JString []); (js "time", JString []);
    (js "description", JString []); (js "landmarks", JString []);
    (js "timeline", JArray []) ].

Definition field (o : Props) (k : JsString) : JsValue := get_field (JObject o) k.

(** [timelineNodes.filter((_, i) => i !== index)] *)
Fixpoint filter_index {A} (l : list A) (i index : nat) : list A :=
  match l with
  | [] => []
  | x :: r =>
    if Nat.eqb i index then filter_index r (S i) index
    else x :: filter_index r (S i) index
  end.

Definition removeTimelineNode (index : nat) (ed : Editor) : Editor :=
  mkEditor (isAddingSegment ed) (newSegment ed)
           (filter_index (timelineNodes ed) 0 index) (toastMessage ed).

(** [Array.prototype.join]: [undefined] and [null] give the empty string. *)
Definition array_join (sep : JsString) (items : list JsValue) : JsString :=
  join sep (map (fun x => match x with
                          | JUndefined | JNull => []
                          | _ => to_string x
                          end) items).

(** [s || d] on strings. *)
Definition or_default (s d : JsString) : JsString :=
  match s with [] => d | _ => s end.

(** The string iterator walks code points: a surrogate pair is one item. *)
Fixpoint code_points (s : JsString) : list JsValue :=
  match s with
  | [] => []
  | c :: r =>
    if is_high c then
      match r with
      | d :: r' => if is_low d then JString [c; d] :: code_points r'
                   else JString [c] :: code_points r
      | [] => [JString [c]]
      end
    else JString [c] :: code_points r
  end.

(** The items that [[...v]] spreads; a value that is not iterable throws. *)
Definition iterate (v : JsValue) : Result (list JsValue) :=
  match v with
  | JArray items => Ok items
  | JString s => Ok (code_points s)
  | _ => Throw TypeError
  end.

Definition summary (parts : list JsValue) (long : JsString) : JsString :=
  let total := or_default (array_join (js "+") (filter truthy parts)) (js "详见路标") in
  if (20 <? List.length total)%nat then long else total.

Definition makeSegment (newSegment : Props) (timelineNodes : list Props) : JsValue :=
  let names := map (fun n => field n (js "name")) timelineNodes in
  let o := own_props (spread [JObject newSegment]) in
  let o := obj_set (js "distance")
             (JString (summary (map (fun n => field n (js "distance")) timelineNodes)
                               (js "多种路段"))) o in
  let o := obj_set (js "time")
             (JString (summary (map (fun n => field n (js "time")) timelineNodes)
                               (js "多段耗时"))) o in
  let o := obj_set (js "description")
             (JString (js "包含 "
                       ++ to_string (number_of_nat (List.length timelineNodes))
                       ++ js " 个路标的路线: "
                       ++ array_join (js ", ") (firstn 3 names)
                       ++ js "...")) o in
  let o := obj_set (js "landmarks") (JString (array_join (js " -> ") names)) o in
  let o := obj_set (js "timeline") (JArray (map JObject timelineNodes)) o in
  let o := obj_set (js "path") (JArray []) o in
  JObject o.

(** [data] is the trail on display and [onUpdate] the [handleUpdateTrail] of
    [App]. *)
Definition handleAddSegment (data : TrailData) (ed : Editor) (st : AppState)
  : Result (Editor * AppState) :=
  if negb (truthy (field (newSegment ed) (js "name"))) then
    Ok (showToast (js "请填写路线名称") ed, st)
  else if (List.length (timelineNodes ed) <? 2)%nat then
    Ok (showToast (js "请至少添加2个路标以生成完整的时间轴") ed, st)
  else
    let finalSegment := makeSegment (newSegment ed) (timelineNodes ed) in
    let routeSegments := field data (js "routeSegments") in
    currentSegments <- iterate (if truthy routeSegments then routeSegments
                                else JArray []) ;;
    let updatedSegments := currentSegments ++ [finalSegment] in
    let updated :=
      obj_set (js "routeSegments") (JArray updatedSegments)
              (own_props (spread [JObject data])) in
    let st := handleUpdateTrail updated st in
    Ok (mkEditor false blankSegment []
                 (Some (js "“" ++ to_string (field (newSegment ed) (js "name"))
                        ++ js "”已同步至社区云端数据库！")),
        st).

(** [onSave={(val) => onUpdate({...data, k: val})}]: the callback of an
    editable field, which [handleEditSave] runs with the edited text. *)
Definition saveField (k : JsString) (data : TrailData) (val : JsString)
           (st : AppState) : AppState :=
  handleUpdateTrail (obj_set k (JString val) (own_props (spread [JObject data]))) st.

End TrailGuideView.

(* ===================================================================== *)
(** * Vocabulary of the statements *)
(* ===================================================================== *)

Import JS GeminiService App.

(** The own property [k] of [v], if it has one. *)
Definition own_get (v : JsValue) (k : JsString) : option JsValue :=
  obj_get k (own_props v).

(** The stored record at index [i] of the store's key enumeration: the key
    is under the namespace prefix and its value parses to an object whose
    [name] is a non-empty string. Every other entry is not a record. *)
Definition record_at (store : Storage) (i : nat) : option JsValue :=
  match key store i with
  | Some k =>
    if startsWith k community_prefix then
      match getItem store k with
      | Some text =>
        match JSON_parse text with
        | Ok (JObject o) =>
          match obj_get (js "name") o with
          | Some (JString (c :: n)) => Some (JObject o)
          | _ => None
          end
        | _ => None
        end
      | None => None
      end
    else None
  | None => None
  end.

Definition record_name (d : JsValue) : JsString :=
  match get_field d (js "name") with
  | JString n => n
  | _ => []
  end.

(** The bidirectional substring match between a normalized query and a
    record. *)
Definition matches (normalizedQuery : JsString) (d : JsValue) : bool :=
  includes (toLowerCase (record_name d)) normalizedQuery
  || includes normalizedQuery (toLowerCase (record_name d)).

Definition hit (normalizedQuery : JsString) (store : Storage) (i : nat)
  : option JsValue :=
  match record_at store i with
  | Some d => if matches normalizedQuery d then Some d else None
  | None => None
  end.

(** The ways in which the value stored under a key is not a record. *)
Inductive Malformed (store : Storage) (k : JsString) : Prop :=
| value_missing :
    getItem store k = None -> Malformed store k
| value_empty :
    getItem store k = Some [] -> Malformed store k
| parse_fails text e :
    getItem store k = Some text -> JSON_parse text = Throw e ->
    Malformed store k
| name_lacking text data :
    getItem store k = Some text -> JSON_parse text = Ok data ->
    truthy (get_field data (js "name")) = false ->
    Malformed store k
| name_not_string text data :
    getItem store k = Some text -> JSON_parse text = Ok data ->
    (forall n, get_field data (js "name") <> JString n) ->
    Malformed store k.

Definition basic_fields : list JsString :=
  [js "name"; js "location"; js "highlight"; js "difficulty"; js "duration";
   js "length"; js "elevationGain"].

Definition misc_fields : list JsString :=
  [js "description"; js "story"; js "gear"; js "safetyTips"; js "bestSeason";
   js "communityTips"].


(** The store writes and the provider calls recorded in a log. *)
Definition writes (l : list Effect) : list (JsString * JsString) :=
  flat_map (fun e => match e with StoreWrite k v => [(k, v)] | _ => [] end) l.

Definition calls (l : list Effect) : list Stage :=
  flat_map (fun e => match e with Call r => [stage r] | _ => [] end) l.

Definition alerts (l : list Effect) : list JsString :=
  flat_map (fun e => match e with Alert m => [m] | _ => [] end) l.

(** The record of BASIC_READY for a basic result: its basic fields, and
    every misc and route field [undefined]. *)
Definition partial_of (basicInfo : JsValue) : JsValue :=
  JObject
    [ (js "name", get_field basicInfo (js "name"));
      (js "location", get_field basicInfo (js "location"));
      (js "highlight", get_field basicInfo (js "highlight"));
      (js "difficulty", get_field basicInfo (js "difficulty"));
      (js "duration", get_field basicInfo (js "duration"));
      (js "length", get_field basicInfo (js "length"));
      (js "elevationGain", get_field basicInfo (js "elevationGain"));
      (js "centerCoordinates", get_field basicInfo (js "centerCoordinates"));
      (js "description", JUndefined);
      (js "story", JUndefined);
      (js "routeSegments", JUndefined);
      (js "gear", JUndefined);
      (js "safetyTips", JUndefined);
      (js "bestSeason", JUndefined);
      (js "communityTips", JUndefined) ].

(** What a stage promise resolves to: the stage's result, or the empty
    object that its [catch] puts in place of a failure. *)
Definition stage_value (result : Result JsValue) : JsValue :=
  match result with
  | Ok v => v
  | Throw _ => JObject []
  end.

(** The record persisted at the end of a request. *)
Definition final_of (partialTrail : JsValue) (miscReply routesReply : Reply) : JsValue :=
  spread [partialTrail;
          stage_value (generateTrailMisc miscReply);
          stage_value (generateTrailRoutes routesReply)].

Definition key_of (finalTrail : JsValue) : JsString :=
  community_prefix ++ to_string (get_field finalTrail (js "name")).

(** The routes contract of the specification: exactly two distinct route
    segments, each with a timeline that is not empty. *)
Definition timeline_nonempty (segment : JsValue) : Prop :=
  exists w ws, get_field segment (js "timeline") = JArray (w :: ws).

Definition routes_contract (v : JsValue) : Prop :=
  exists s1 s2,
    get_field v (js "routeSegments") = JArray [s1; s2]
    /\ s1 <> s2 /\ timeline_nonempty s1 /\ timeline_nonempty s2.

(** The state at BASIC_READY: the partial record is shown, and the calls
    of the two concurrent stages have gone out. *)
Definition ready (query : JsString) (basicInfo : JsValue) (st : AppState) : AppState :=
  mkState guide false (partial_of basicInfo) (savedTrails st) (localStorage st)
          (((log st ++ [Call (basic_request query)])
              ++ [Call (misc_request query basicInfo)])
             ++ [Call (routes_request query basicInfo)]).

(** The state after a stage promise has run its callback. *)
Definition settled (result : Result JsValue) (st : AppState) : AppState :=
  fst (settle result st).

(** The effects of one request so far, by the phase it is in. *)
Definition request_trace (query : JsString) (ph : Phase) (l : list Effect) : Prop :=
  (l = [] /\ ph = Idle)
  \/ (l = [Call (basic_request query)] /\ ph = AwaitBasic query)
  \/ (l = [Call (basic_request query); Alert alert_message] /\ ph = Idle)
  \/ (exists b m r,
        l = [Call (basic_request query); Call (misc_request query b);
             Call (routes_request query b)]
        /\ ph = AwaitStages (partial_of b) m r)
  \/ (exists b k v,
        l = [Call (basic_request query); Call (misc_request query b);
             Call (routes_request query b); StoreWrite k v]
        /\ startsWith k community_prefix = true
        /\ ph = Idle).

(** What a request leaves of a store: every key that had a value has one,
    and every key outside the community namespace keeps its value. *)
Definition store_frame (s s' : Storage) : Prop :=
  (forall k v, getItem s k = Some v -> exists v', getItem s' k = Some v')
  /\ (forall k, startsWith k community_prefix = false -> getItem s' k = getItem s k).

(** A ledger as the types of the code describe it: the name of every entry
    is a string, and no two entries have the same name. *)
Definition string_named (t : TrailData) : Prop := exists n, name_of t = JString n.

Definition well_named (l : list TrailData) : Prop :=
  Forall string_named l /\ NoDup (map name_of l).

(** The text under which a ledger is persisted. *)
Definition ledger_text (l : list TrailData) : JsString :=
  JSON_stringify (JArray (map JObject l)).

(** The segments that the editor copies from the trail on display:
    [[...(data.routeSegments || [])]]. *)
Definition segments_of (data : TrailData) : Result (list JsValue) :=
  TrailGuideView.iterate
    (if truthy (TrailGuideView.field data (js "routeSegments"))
     then TrailGuideView.field data (js "routeSegments")
     else JArray []).

(** ** Reading back what was written

    The vocabulary of the round trip through [JSON.stringify] and
    [JSON.parse]. *)

(** What may follow the text of a value: nothing, a comma, or a closing
    bracket or brace. *)
Definition ends_value (rest : JsString) : Prop :=
  match rest with
  | [] => True
  | c :: _ => c = 44%N \/ c = 93%N \/ c = 125%N
  end.

(** The text of a number: sign, integer digits, fraction, exponent. *)
Definition number_text (neg : bool) (ints fs : JsString)
           (ex : option (bool * JsString)) : JsString :=
  (if neg then [45%N] else [])
    ++ ints
    ++ match fs with [] => [] | _ => 46%N :: fs end
    ++ match ex with
       | None => []
       | Some (eneg, es) => 101%N :: (if eneg then 45%N else 43%N) :: es
       end.

(** The number that the literal denotes. *)
Definition number_read (neg : bool) (ints fs : JsString)
           (ex : option (bool * JsString)) : JsValue :=
  let m := Z.of_N (digits_value (ints ++ fs)) in
  let e := match ex with
           | None => 0%Z
           | Some (eneg, es) =>
             let e := Z.of_N (digits_value es) in if eneg then (- e)%Z else e
           end in
  JNumber (if neg then (- m)%Z else m) (e - Z.of_nat (List.length fs))%Z.

(** The step by which the members of an object text are read back: a
    property whose value is [undefined] has no member. *)
Definition revive_into (f : JsValue -> JsValue) (o acc : Props) : Props :=
  fold_left (fun acc p => match snd p with
                          | JUndefined => acc
                          | _ => obj_set (fst p) (f (snd p)) acc
                          end) o acc.

(** What [JSON.parse] reads from the text that [JSON.stringify] writes for
    a value. *)
Fixpoint reparsed (v : JsValue) : JsValue :=
  match v with
  | JNumber m e =>
    match parse_number (number_to_string m e) with
    | Some (x, _) => x
    | None => v
    end
  | JArray items =>
    JArray (map (fun x => match x with JUndefined => JNull | _ => reparsed x end) items)
  | JObject o => JObject (revive_into reparsed o [])
  | _ => v
  end.

(** An item of an array text, and the value read from it. *)
Definition item_text (x : JsValue) : JsString :=
  match serialize x with Some t => t | None => js "null" end.

Definition item_value (x : JsValue) : JsValue :=
  match x with JUndefined => JNull | _ => reparsed x end.

(** The members of an object text. *)
Definition member_texts (o : Props) : list JsString :=
  flat_map (fun p => match serialize (snd p) with
                     | Some t => [quote (fst p) ++ [58%N] ++ t]
                     | None => []
                     end) o.

(** The nesting depth of a value. *)
Fixpoint height (v : JsValue) : nat :=
  match v with
  | JArray items => S (list_max (map height items))
  | JObject o => S (list_max (map (fun p => height (snd p)) o))
  | _ => O
  end.

(** ** Concrete stores, replies and records used in the examples *)

(** The state after mount on an empty store: the seed is in. *)
Definition seeded : AppState := seed_effect (initial []).

(** A store that holds the saved-plans ledger and no trail record. *)
Definition ledger_only : Storage := [(plans_key, json "[]")].

(** A store in which the value under the seed's key is damaged: the seeding
    effect finds a value there and leaves it. *)
Definition seed_damaged : Storage := [(wugongKey, json "{'name': '武功山', ")].

(** A store whose first entries under the prefix are not records. *)
Definition damaged : Storage :=
  [ (js "ecotrek_community_a", json "{'name': 'Alps");
    (js "ecotrek_community_b", json "{'location': 'nowhere'}");
    (js "ecotrek_community_c", json "{'name': 7}");
    (js "ecotrek_community_d", json "null");
    (js "ecotrek_community_e", []);
    (js "ecotrek_community_Alps", json "{'name': 'Alps', 'location': 'Europe'}") ].

(** A store with two records whose names differ only by the case of a
    Cyrillic letter. *)
Definition zhe_store : Storage :=
  [ (js "ecotrek_community_Ж", json "{'name': 'Ж', 'location': 'first'}");
    (js "ecotrek_community_ж", json "{'name': 'ж', 'location': 'second'}") ].

(** A store whose first entries under the prefix are not records, before a
    record with a Cyrillic name. *)
Definition damaged_elbrus : Storage :=
  [ (js "ecotrek_community_a", json "{'name': 'Эльбрус");
    (js "ecotrek_community_b", json "{'location': 'Кавказ'}");
    (js "ecotrek_community_Эльбрус", json "{'name': 'Эльбрус', 'location': 'Кавказ'}") ].

(** Scenario B and C: an unknown peak, with replies that honour the
    schemas. *)
Definition peak_query : JsString := js "Unknown Peak".

Definition bare_reply : Reply :=
  Response (Some (json "{'name':'Unknown Peak','location':'X','highlight':'Y','difficulty':3,'duration':'2天','length':'10km','elevationGain':'500m'}")).

Definition bare_result : JsValue := stage_value (generateBasicTrailInfo bare_reply).

Definition basic_reply : Reply :=
  Response (Some (json "{'name':'Unknown Peak','location':'X','centerCoordinates':{'latitude':27.5,'longitude':114.2},'highlight':'Y','difficulty':3,'duration':'2天','length':'10km','elevationGain':'500m'}")).

Definition misc_reply : Reply :=
  Response (Some (json "```json
{'description':'d','story':'s','gear':{'essential':[{'item':'poles','reason':'knees'}],'recommended':[]},'safetyTips':['a'],'bestSeason':'x','communityTips':[]}
```")).

Definition routes_reply : Reply :=
  Response (Some (json "{'routeSegments':[{'name':'East','distance':'4km','time':'2h','description':'e','landmarks':'A->B','timeline':[{'name':'A','coordinates':[27.5,114.2],'description':'start'}]},{'name':'West','distance':'6km','time':'3h','description':'w','landmarks':'C->B','timeline':[{'name':'C','coordinates':[27.4,114.1],'description':'start'}]}]}")).

(** Basic replies that parse and are no record. *)
Definition null_reply : Reply := Response (Some (json "null")).

Definition empty_reply : Reply := Response (Some (json "{}")).



Definition basic_result : JsValue := stage_value (generateBasicTrailInfo basic_reply).
Definition routes_result : JsValue := stage_value (generateTrailRoutes routes_reply).

(** Two saved plans, and a later edition of the first. *)
Definition alps : TrailData :=
  [(js "name", JString (js "Alps")); (js "length", JString (js "10km"))].

Definition andes : TrailData :=
  [(js "name", JString (js "Andes")); (js "length", JString (js "30km"))].

Definition alps_revised : TrailData :=
  [(js "name", JString (js "Alps")); (js "length", JString (js "12km"))].

Definition alps_lower : TrailData :=
  [(js "name", JString (js "alps")); (js "length", JString (js "1km"))].

Definition with_plans (l : list TrailData) : AppState :=
  mkState home false JNull l [] [].

(* ===================================================================== *)
(** * Properties *)
(* ===================================================================== *)

(** ** Strings *)

Lemma str_eqb_spec a b : reflect (a = b) (str_eqb a b).
Proof.
  revert b; induction a as [|x a IH]; intros [|y b]; simpl;
    try (constructor; congruence).
  destruct (N.eqb_spec x y) as [->|Hne]; simpl.
  - destruct (IH b) as [->|Hne]; constructor; congruence.
  - constructor; congruence.
Qed.

Lemma str_eqb_refl a : str_eqb a a = true.
Proof. destruct (str_eqb_spec a a); congruence. Qed.

Lemma str_eqb_eq a b : str_eqb a b = true <-> a = b.
Proof. destruct (str_eqb_spec a b); split; congruence. Qed.

Lemma str_eqb_neq a b : str_eqb a b = false <-> a <> b.
Proof. destruct (str_eqb_spec a b); split; congruence. Qed.

(** ** Property lists and spread *)

Ltac case_key a b :=
  let E := fresh "E" in
  destruct (str_eqb_spec a b) as [E|E]; [try subst | idtac].

Lemma obj_get_none k o : obj_get k o = None <-> has_key k o = false.
Proof.
  induction o as [|[k1 v1] r IH]; simpl; [tauto|].
  destruct (obj_get k r) as [x|].
  - destruct IH as [_ IH]. split; [discriminate|].
    intros H. apply orb_false_elim in H as [_ H]. apply IH in H. discriminate.
  - destruct IH as [IH _]. rewrite (IH eq_refl), orb_false_r.
    case_key k k1; split; congruence.
Qed.

Lemma has_key_get k o : has_key k o = true <-> exists v, obj_get k o = Some v.
Proof.
  destruct (obj_get k o) as [v|] eqn:G.
  - split; [eauto|]. intros _. destruct (has_key k o) eqn:H; [reflexivity|].
    apply obj_get_none in H. congruence.
  - apply obj_get_none in G. rewrite G. split; [discriminate|].
    intros [v Hv]. discriminate.
Qed.

Lemma obj_get_replace k k' v o :
  obj_get k (obj_replace k' v o) =
  if str_eqb k k' then (if has_key k' o then Some v else None) else obj_get k o.
Proof.
  induction o as [|[k1 v1] r IH]; simpl.
  - destruct (str_eqb k k'); reflexivity.
  - rewrite IH. case_key k k'.
    + destruct (has_key k' r); [rewrite orb_true_r; reflexivity|].
      rewrite orb_false_r. destruct (str_eqb k' k1); reflexivity.
    + destruct (obj_get k r); [reflexivity|].
      case_key k k1; [|reflexivity].
      case_key k' k1; [congruence|reflexivity].
Qed.

Lemma obj_get_snoc k k' v o :
  obj_get k (o ++ [(k', v)]) = if str_eqb k k' then Some v else obj_get k o.
Proof.
  induction o as [|[k1 v1] r IH]; simpl.
  - reflexivity.
  - rewrite IH. destruct (str_eqb k k'); [reflexivity|]. reflexivity.
Qed.

Lemma obj_get_cons_fresh k k' v o :
  has_key k' o = false ->
  obj_get k ((k', v) :: o) = if str_eqb k k' then Some v else obj_get k o.
Proof.
  intros F. simpl. case_key k k'.
  - apply obj_get_none in F. rewrite F. reflexivity.
  - destruct (obj_get k o); reflexivity.
Qed.

Lemma obj_get_insert_index i k k' v o :
  has_key k' o = false ->
  obj_get k (insert_index i k' v o) = if str_eqb k k' then Some v else obj_get k o.
Proof.
  induction o as [|[k1 v1] r IH]; intros F.
  - simpl. reflexivity.
  - assert (F' := F). simpl in F'. apply orb_false_elim in F' as [F1 F2].
    cbn [insert_index].
    destruct (array_index k1) as [j|]; [destruct (N.ltb j i)|];
      try (apply obj_get_cons_fresh; exact F).
    cbn [obj_get]. rewrite (IH F2).
    case_key k k'; reflexivity.
Qed.

Lemma obj_get_set k k' v o :
  obj_get k (obj_set k' v o) = if str_eqb k k' then Some v else obj_get k o.
Proof.
  unfold obj_set. destruct (has_key k' o) eqn:F.
  - rewrite obj_get_replace, F. reflexivity.
  - destruct (array_index k').
    + apply obj_get_insert_index. exact F.
    + apply obj_get_snoc.
Qed.

Lemma obj_get_assign k src : forall o,
  obj_get k (assign o src) =
  match obj_get k src with
  | Some v => Some v
  | None => obj_get k o
  end.
Proof.
  unfold assign. induction src as [|[k1 v1] r IH]; intros o; simpl.
  - reflexivity.
  - rewrite IH. destruct (obj_get k r); [reflexivity|].
    rewrite obj_get_set. destruct (str_eqb k k1); reflexivity.
Qed.


Lemma obj_get_spread3 k a b c o :
  spread [a; b; c] = JObject o ->
  obj_get k o =
  match obj_get k (own_props c) with
  | Some v => Some v
  | None =>
    match obj_get k (own_props b) with
    | Some v => Some v
    | None => obj_get k (own_props a)
    end
  end.
Proof.
  unfold spread. simpl. intros H. injection H as <-.
  rewrite !obj_get_assign. simpl.
  destruct (obj_get k (own_props c)); [reflexivity|].
  destruct (obj_get k (own_props b)); [reflexivity|].
  destruct (obj_get k (own_props a)); reflexivity.
Qed.




Lemma own_get_spread3 a b c k :
  own_get (spread [a; b; c]) k =
  match own_get c k with
  | Some v => Some v
  | None => match own_get b k with
            | Some v => Some v
            | None => own_get a k
            end
  end.
Proof. apply (obj_get_spread3 k a b c). reflexivity. Qed.

Lemma get_field_object o k :
  get_field (JObject o) k =
  match own_get (JObject o) k with Some x => x | None => JUndefined end.
Proof. reflexivity. Qed.

Lemma get_field_spread l k :
  get_field (spread l) k =
  match own_get (spread l) k with Some x => x | None => JUndefined end.
Proof. reflexivity. Qed.

(** ** The fuzzy scan *)

Lemma units_of_uint_digits u : forallb is_digit (units_of_uint u) = true.
Proof. induction u; simpl; auto. Qed.

Lemma str_eqb_nondigit c r n :
  is_digit c = false -> str_eqb (c :: r) (digits_of_N n) = false.
Proof.
  intros Hc. unfold digits_of_N.
  pose proof (units_of_uint_digits (N.to_uint n)) as D.
  destruct (units_of_uint (N.to_uint n)) as [|d ds]; [reflexivity|].
  simpl in D. apply andb_prop in D as [D _]. simpl.
  destruct (N.eqb_spec c d) as [->|_]; [congruence|reflexivity].
Qed.

Lemma obj_get_index_props {A} (f : A -> JsValue) l c r :
  is_digit c = false -> obj_get (c :: r) (index_props f l) = None.
Proof.
  intros Hc. unfold index_props.
  induction (combine (seq 0 (List.length l)) l) as [|[i x] ps IH]; [reflexivity|].
  cbn [map obj_get fst snd]. rewrite IH.
  rewrite (str_eqb_nondigit c r _ Hc). reflexivity.
Qed.

Lemma name_units : js "name" = [110; 97; 109; 101]%N.
Proof. reflexivity. Qed.

(** Only an object has a [name]. *)
Lemma get_field_name_object d n :
  get_field d (js "name") = JString n ->
  exists o, d = JObject o /\ obj_get (js "name") o = Some (JString n).
Proof.
  destruct d as [| |b|m e|s|items|o]; simpl; try discriminate.
  - change (str_eqb (js "name") (js "length")) with false. cbv iota.
    rewrite name_units, obj_get_index_props by reflexivity. discriminate.
  - change (str_eqb (js "name") (js "length")) with false. cbv iota.
    rewrite name_units, obj_get_index_props by reflexivity. discriminate.
  - destruct (obj_get (js "name") o) as [x|] eqn:E; [|discriminate].
    intros ->. eauto.
Qed.

Lemma record_of_data data :
  match data with
  | JObject o =>
    match obj_get (js "name") o with
    | Some (JString (c :: n)) => Some (JObject o)
    | _ => None
    end
  | _ => None
  end =
  match get_field data (js "name") with
  | JString (c :: n) => Some data
  | _ => None
  end.
Proof.
  destruct (get_field data (js "name")) as [| |b|m e|n|items|o'] eqn:G.
  5:{ destruct (get_field_name_object _ _ G) as (o & -> & Ho).
      rewrite Ho. reflexivity. }
  all: destruct data as [| |b'|m' e'|s'|items'|o'']; try reflexivity.
  all: simpl in G; destruct (obj_get (js "name") o''); subst; reflexivity.
Qed.

Lemma member_truthy d k : truthy d = true -> member d k = Ok (get_field d k).
Proof. destruct d; simpl; intros; try reflexivity; discriminate. Qed.

(** One turn of the loop returns the record at that index when it matches,
    and goes on to the next index in every other case. *)
Lemma scan_key_spec nq store i :
  scan_key nq store i =
  Ok (match hit nq store i with Some d => Return d | None => Continue end).
Proof.
  unfold scan_key, hit, record_at.
  destruct (key store i) as [[|c k]|]; [reflexivity| |reflexivity].
  destruct (startsWith (c :: k) community_prefix); [|reflexivity].
  unfold scan_try.
  destruct (getItem store (c :: k)) as [[|t text]|]; [reflexivity| |reflexivity].
  destruct (JSON_parse (t :: text)) as [data|e]; [|reflexivity].
  cbn [bind try_catch]. rewrite record_of_data.
  destruct (truthy data) eqn:T; cbn [negb].
  - rewrite (member_truthy _ _ T). cbn [bind].
    destruct (get_field data (js "name")) as [| |b|m e|n|items|o'] eqn:G;
      try reflexivity.
    + destruct b; reflexivity.
    + simpl. destruct (m =? 0)%Z; reflexivity.
    + destruct n as [|c' n']; [reflexivity|].
      cbn [truthy negb call_toLowerCase bind try_catch].
      unfold matches, record_name. rewrite G.
      destruct (includes (toLowerCase (c' :: n')) nq
                || includes nq (toLowerCase (c' :: n'))); reflexivity.
  - destruct (get_field data (js "name")) as [| |b|m e|n|items|o'] eqn:G;
      try reflexivity.
    destruct (get_field_name_object _ _ G) as (o & -> & Ho). discriminate.
Qed.

(** The loop returns the first hit of its range. *)
Lemma scan_from_first nq store d : forall n i j,
  i <= j < i + n ->
  hit nq store j = Some d ->
  (forall j', i <= j' < j -> hit nq store j' = None) ->
  scan_from nq store n i = Ok d.
Proof.
  induction n as [|n IH]; intros i j Hj Hd Hbefore; [lia|].
  cbn [scan_from]. rewrite scan_key_spec. cbn [bind].
  destruct (Nat.eq_dec i j) as [->|Hne].
  - rewrite Hd. reflexivity.
  - rewrite (Hbefore i) by lia.
    apply (IH (S i) j); [lia|exact Hd|].
    intros j' Hj'. apply Hbefore. lia.
Qed.

Lemma scan_from_none nq store : forall n i,
  (forall j, i <= j < i + n -> hit nq store j = None) ->
  scan_from nq store n i = Ok JNull.
Proof.
  induction n as [|n IH]; intros i Hnone; [reflexivity|].
  cbn [scan_from]. rewrite scan_key_spec. cbn [bind].
  rewrite (Hnone i) by lia. apply IH. intros j Hj. apply Hnone. lia.
Qed.

(** What the loop returns is a hit, or [null]. *)
Lemma scan_from_result nq store : forall n i,
  exists v, scan_from nq store n i = Ok v /\
            (v = JNull \/ exists j, i <= j < i + n /\ hit nq store j = Some v).
Proof.
  induction n as [|n IH]; intros i.
  - exists JNull. split; [reflexivity|left; reflexivity].
  - cbn [scan_from]. rewrite scan_key_spec. cbn [bind].
    destruct (hit nq store i) as [d|] eqn:H.
    + exists d. split; [reflexivity|]. right. exists i. split; [lia|exact H].
    + destruct (IH (S i)) as (v & Hv & Hcase). exists v. split; [exact Hv|].
      destruct Hcase as [->|(j & Hj & Hh)]; [left; reflexivity|].
      right. exists j. split; [lia|exact Hh].
Qed.

(** Among the indices up to a hit there is a first one. *)
Lemma first_hit_exists nq store : forall j d,
  hit nq store j = Some d ->
  exists j0 d0, j0 <= j /\ hit nq store j0 = Some d0 /\
                forall j', j' < j0 -> hit nq store j' = None.
Proof.
  induction j as [j IH] using (well_founded_induction Wf_nat.lt_wf).
  intros d Hd.
  assert (D : (forall j', j' < j -> hit nq store j' = None) \/
              (exists j', j' < j /\ hit nq store j' <> None)).
  { clear IH Hd. induction j as [|j IHj].
    - left. intros j' Hj'. lia.
    - destruct IHj as [Hall|(j' & Hlt & Hsome)].
      + destruct (hit nq store j) as [x|] eqn:Hx.
        * right. exists j. split; [lia|congruence].
        * left. intros j' Hj'. destruct (Nat.eq_dec j' j) as [->|]; [exact Hx|].
          apply Hall. lia.
      + right. exists j'. split; [lia|exact Hsome]. }
  destruct D as [Hall|(j' & Hlt & Hsome)].
  - exists j, d. split; [lia|]. split; [exact Hd|exact Hall].
  - destruct (hit nq store j') as [d'|] eqn:Hd'; [|congruence].
    destruct (IH j' Hlt d' Hd') as (j0 & d0 & Hle & Hh & Hfirst).
    exists j0, d0. split; [lia|]. split; [exact Hh|exact Hfirst].
Qed.

Lemma key_in_range store i k : key store i = Some k -> i < List.length store.
Proof.
  unfold key. intros H. apply nth_error_Some. destruct (nth_error store i); discriminate.
Qed.

Lemma hit_in_range nq store i d : hit nq store i = Some d -> i < List.length store.
Proof.
  unfold hit, record_at. destruct (key store i) as [k|] eqn:K; [|discriminate].
  intros _. exact (key_in_range _ _ _ K).
Qed.

Lemma hit_record nq store i d :
  hit nq store i = Some d <-> record_at store i = Some d /\ matches nq d = true.
Proof.
  unfold hit. destruct (record_at store i) as [d'|]; [|split; [discriminate|intros [? _]; discriminate]].
  destruct (matches nq d') eqn:M.
  - split; [intros [= <-]; auto|intros [[= <-] _]; reflexivity].
  - split; [discriminate|intros [[= <-] ?]; congruence].
Qed.

Lemma findLocalTrail_first query store j d :
  hit (trim (toLowerCase query)) store j = Some d ->
  (forall j', j' < j -> hit (trim (toLowerCase query)) store j' = None) ->
  findLocalTrail query store = Ok d.
Proof.
  intros Hd Hfirst. unfold findLocalTrail.
  apply (scan_from_first _ _ d _ 0 j).
  - pose proof (hit_in_range _ _ _ _ Hd). lia.
  - exact Hd.
  - intros j' Hj'. apply Hfirst. lia.
Qed.

Lemma record_truthy store i d : record_at store i = Some d -> truthy d = true.
Proof.
  unfold record_at.
  destruct (key store i); [|discriminate].
  destruct (startsWith _ _); [|discriminate].
  destruct (getItem _ _); [|discriminate].
  destruct (JSON_parse _) as [[ | | | | | |o]|]; try discriminate.
  destruct (obj_get _ _) as [[ | | | |[|c n]| | ]|]; try discriminate.
  intros [= <-]. reflexivity.
Qed.

(** ** The request machine *)

Lemma run_idle events st : run events (st, Idle) = Ok (st, Idle).
Proof. induction events as [|e r IH]; [reflexivity|]. destruct e; exact IH. Qed.

Lemma handleSearch_hit query st d :
  findLocalTrail query (localStorage st) = Ok d ->
  truthy d = true ->
  handleSearch query st =
  Ok (mkState guide false d (savedTrails st) (localStorage st) (log st), Idle).
Proof.
  intros F T. unfold handleSearch. cbn [localStorage setIsLoading].
  rewrite F. cbn [bind try_catch]. rewrite T. reflexivity.
Qed.

Lemma handleSearch_miss query st :
  findLocalTrail query (localStorage st) = Ok JNull ->
  handleSearch query st =
  Ok (mkState (view st) true (currentTrail st) (savedTrails st) (localStorage st)
              (log st ++ [Call (basic_request query)]), AwaitBasic query).
Proof.
  intros F. unfold handleSearch. cbn [localStorage setIsLoading].
  rewrite F. reflexivity.
Qed.

Lemma search_hit query st d events :
  findLocalTrail query (localStorage st) = Ok d ->
  truthy d = true ->
  search query events st =
  Ok (mkState guide false d (savedTrails st) (localStorage st) (log st), Idle).
Proof.
  intros F T. unfold search. rewrite (handleSearch_hit _ _ _ F T).
  cbn [bind]. apply run_idle.
Qed.

(** ** Cache precedence *)

(** C3. When the normalized query is contained in the lower-cased name of
    some stored record, or contains it, the lookup returns the first matching
    record in the store's key enumeration order, the handler shows it, and
    whatever comes after, the request has made no provider call: the log of
    effects is what it was. *)
Theorem cache_precedence (query : JsString) (st : AppState) (i : nat) (d : JsValue) :
  record_at (localStorage st) i = Some d ->
  includes (toLowerCase (record_name d)) (trim (toLowerCase query)) = true
  \/ includes (trim (toLowerCase query)) (toLowerCase (record_name d)) = true ->
  exists j d0,
    j <= i
    /\ record_at (localStorage st) j = Some d0
    /\ matches (trim (toLowerCase query)) d0 = true
    /\ (forall j', j' < j -> hit (trim (toLowerCase query)) (localStorage st) j' = None)
    /\ findLocalTrail query (localStorage st) = Ok d0
    /\ forall events, exists st',
         search query events st = Ok (st', Idle)
         /\ currentTrail st' = d0 /\ view st' = guide /\ isLoading st' = false
         /\ log st' = log st /\ localStorage st' = localStorage st.
Proof.
  intros R M.
  assert (H : hit (trim (toLowerCase query)) (localStorage st) i = Some d).
  { apply hit_record. split; [exact R|]. unfold matches.
    destruct M as [-> | ->]; [reflexivity|apply orb_true_r]. }
  destruct (first_hit_exists _ _ _ _ H) as (j & d0 & Hle & Hj & Hfirst).
  apply hit_record in Hj as Hj'. destruct Hj' as [Rj Mj].
  pose proof (findLocalTrail_first _ _ _ _ Hj Hfirst) as F.
  exists j, d0. repeat split; try assumption.
  intros events. eexists. split.
  - apply (search_hit _ _ d0); [exact F|exact (record_truthy _ _ _ Rj)].
  - repeat split.
Qed.

Lemma cache_precedence_witness :
  exists j d0,
    j <= 1
    /\ record_at zhe_store j = Some d0
    /\ matches (trim (toLowerCase (js " ж "))) d0 = true
    /\ (forall j', j' < j ->
        hit (trim (toLowerCase (js " ж "))) zhe_store j' = None)
    /\ findLocalTrail (js " ж ") zhe_store = Ok d0
    /\ d0 = JObject [(js "name", JString (js "Ж")); (js "location", JString (js "first"))]
    /\ forall events, exists st',
         search (js " ж ") events (initial zhe_store) = Ok (st', Idle)
         /\ currentTrail st' = d0 /\ view st' = guide /\ isLoading st' = false
         /\ log st' = [] /\ localStorage st' = zhe_store.
Proof.
  destruct (cache_precedence (js " ж ") (initial zhe_store) 1
              (JObject [(js "name", JString (js "ж"));
                        (js "location", JString (js "second"))]))
    as (j & d0 & Hle & R & M & Hfirst & F & S).
  - vm_compute. reflexivity.
  - left. vm_compute. reflexivity.
  - exists j, d0. split; [exact Hle|]. split; [exact R|]. split; [exact M|].
    split; [exact Hfirst|]. split; [exact F|]. split; [|exact S].
    assert (F' : findLocalTrail (js " ж ") zhe_store
                 = Ok (JObject [(js "name", JString (js "Ж"));
                                (js "location", JString (js "first"))]))
      by (vm_compute; reflexivity).
    cbn [localStorage initial] in F. rewrite F' in F. injection F as <-. reflexivity.
Defined.

(** Scenario A: the query for the seeded name returns the seeded record as
    it is, with no provider call. *)
Example scenario_seeded_hit :
  search (js "武功山") [] seeded =
  Ok (mkState guide false mockCommunityData [] (localStorage seeded) (log seeded), Idle)
  /\ calls (log seeded) = [].
Proof. split; vm_compute; reflexivity. Qed.

(** ** The empty query *)

Section WhiteSpace.
Local Open Scope N_scope.

(** Lowering is by the Unicode tables, beyond the Latin letters. *)
Example toLowerCase_examples :
  toLowerCase (js "Ж") = js "ж"
  /\ toLowerCase (js "ЭЛЬБРУС Peak") = js "эльбрус peak"
  /\ toLowerCase (js "ΟΔΟΣ ΣΑΣ") = js "οδος σας"
  /\ toLowerCase (js "İstanbul ÀÉ") = js "i̇stanbul àé"
  /\ toLowerCase (js "ＡＢＣ 武功山 𐐀") = js "ａｂｃ 武功山 𐐨".
Proof. vm_compute. repeat split. Qed.

Lemma is_space_cases c :
  is_space c = true ->
  In c [9; 10; 11; 12; 13; 32; 160; 5760; 8192; 8193; 8194; 8195; 8196; 8197;
        8198; 8199; 8200; 8201; 8202; 8232; 8233; 8239; 8287; 12288; 65279].
Proof.
  unfold is_space. intros H.
  repeat (apply orb_prop in H as [H|H]);
    try (apply N.eqb_eq in H; subst c; cbn; tauto);
    apply andb_prop in H as [A B]; apply N.leb_le in A, B.
  - assert (C : c = 9 \/ c = 10 \/ c = 11 \/ c = 12 \/ c = 13) by lia.
    destruct C as [->|[->|[->|[->| ->]]]]; cbn; tauto.
  - assert (C : c = 8192 \/ c = 8193 \/ c = 8194 \/ c = 8195 \/ c = 8196 \/ c = 8197
                \/ c = 8198 \/ c = 8199 \/ c = 8200 \/ c = 8201 \/ c = 8202) by lia.
    destruct C as [->|[->|[->|[->|[->|[->|[->|[->|[->|[->| ->]]]]]]]]]]; cbn; tauto.
Qed.

Lemma is_space_false c :
  33 <= c <= 159 \/ 161 <= c <= 5759 \/ 12289 <= c <= 65278 \/ 65280 <= c ->
  is_space c = false.
Proof.
  intros H. unfold is_space.
  destruct H as [H|[H|[H|H]]];
  repeat (apply orb_false_intro);
    try (apply N.eqb_neq; lia);
    apply andb_false_iff;
    first [left; apply N.leb_gt; lia | right; apply N.leb_gt; lia].
Qed.

(** White space has no case: it is lowered to itself. *)
Lemma lower_from_space c :
  is_space c = true ->
  forall before r, exists before',
    lower_from before (c :: r) = c :: lower_from before' r.
Proof.
  intros H before r.
  assert (F : is_high c = false /\ (c =? 0x3A3) = false /\ (c =? 0x130) = false
              /\ lower_code_point c = c).
  { apply is_space_cases in H. cbn [In] in H.
    repeat (destruct H as [<-|H]; [vm_compute; repeat split|]). destruct H. }
  destruct F as (F1 & F2 & F3 & F4).
  cbn [lower_from]. rewrite F1, F2, F3, F4. eexists. reflexivity.
Qed.

(** No image of the lowercase mappings is white space, and none is beyond
    the last code point. *)
Lemma lower_images :
  forallb (fun r : N * N * N * N =>
             let '(first, last, step, image) := r in
             (image + (last - first) <=? 0x10FFFF)
             && forallb (fun s => (s <? image) || (image + (last - first) <? s))
                        [9; 10; 11; 12; 13; 32; 160; 5760; 8192; 8193; 8194; 8195;
                         8196; 8197; 8198; 8199; 8200; 8201; 8202; 8232; 8233;
                         8239; 8287; 12288; 65279])
          lower_ranges = true.
Proof. vm_compute. reflexivity. Qed.

Lemma lower_code_point_image cp :
  lower_code_point cp = cp
  \/ (lower_code_point cp <= 0x10FFFF /\ is_space (lower_code_point cp) = false).
Proof.
  unfold lower_code_point.
  destruct (find (in_run cp) lower_ranges) as [[[[first last] step] image]|] eqn:F;
    [|left; reflexivity].
  right. apply find_some in F as [Hin Hrun].
  pose proof lower_images as L. rewrite forallb_forall in L.
  specialize (L _ Hin). cbv beta iota in L.
  apply andb_prop in L as [L1 L2]. apply N.leb_le in L1.
  unfold in_run in Hrun. apply andb_prop in Hrun as [Hrun _].
  apply andb_prop in Hrun as [A B]. apply N.leb_le in A, B.
  split; [lia|].
  destruct (is_space (image + (cp - first))) eqn:S; [|reflexivity].
  apply is_space_cases in S. rewrite forallb_forall in L2.
  specialize (L2 _ S). apply orb_prop in L2 as [L2|L2]; apply N.ltb_lt in L2; lia.
Qed.

(** What is not white space is lowered to something that does not begin
    with white space. *)
Lemma lower_from_nonspace c :
  is_space c = false ->
  forall before r, exists h t,
    lower_from before (c :: r) = h :: t /\ is_space h = false.
Proof.
  intros H before r. cbn [lower_from].
  destruct (is_high c) eqn:Hi.
  - destruct r as [|d r']; [exists c, []; split; [reflexivity|exact H]|].
    destruct (is_low d) eqn:Lo; [|eexists _, _; split; [reflexivity|exact H]].
    unfold is_high in Hi. unfold is_low in Lo.
    apply andb_prop in Hi as [H1 H2]. apply andb_prop in Lo as [L1 L2].
    apply N.leb_le in H1, H2, L1, L2.
    assert (B : 65536 <= code_point c d <= 0x10FFFF) by (unfold code_point; lia).
    assert (X : lower_code_point (code_point c d) <= 0x10FFFF
                /\ (lower_code_point (code_point c d) < 65536 ->
                    is_space (lower_code_point (code_point c d)) = false)).
    { destruct (lower_code_point_image (code_point c d)) as [E|[E1 E2]].
      - rewrite E. split; [lia|]. intros. lia.
      - split; [exact E1|intros _; exact E2]. }
    destruct X as [X1 X2]. unfold units_of_code_point.
    destruct (N.ltb_spec (lower_code_point (code_point c d)) 65536) as [Lt|Ge].
    + eexists _, _. split; [reflexivity|]. apply X2. exact Lt.
    + eexists _, _. split; [reflexivity|]. apply is_space_false.
      right. right. left.
      assert ((lower_code_point (code_point c d) - 65536) / 1024 < 1024)
        by (apply N.Div0.div_lt_upper_bound; lia).
      generalize dependent ((lower_code_point (code_point c d) - 65536) / 1024).
      intros q Q. lia.
  - destruct (N.eqb_spec c 0x3A3) as [->|_].
    { eexists _, _. split; [reflexivity|]. destruct (_ && _); reflexivity. }
    destruct (N.eqb_spec c 0x130) as [->|_].
    { eexists _, _. split; [reflexivity|]. reflexivity. }
    eexists _, _. split; [reflexivity|].
    destruct (lower_code_point_image c) as [E|[_ E]]; [rewrite E; exact H|exact E].
Qed.

Lemma spaces_lower_from s : forall before,
  forallb is_space (lower_from before s) = forallb is_space s.
Proof.
  induction s as [|c r IH]; intros before; [reflexivity|].
  destruct (is_space c) eqn:H.
  - destruct (lower_from_space c H before r) as [before' ->].
    cbn [forallb]. rewrite IH. reflexivity.
  - destruct (lower_from_nonspace c H before r) as (h & t & -> & Hh).
    cbn [forallb]. rewrite H, Hh. reflexivity.
Qed.

Lemma spaces_lower s : forallb is_space (toLowerCase s) = forallb is_space s.
Proof. apply spaces_lower_from. Qed.

Lemma forallb_rev {A} (f : A -> bool) l : forallb f (rev l) = forallb f l.
Proof.
  induction l as [|x l IH]; [reflexivity|]. cbn [rev forallb].
  rewrite forallb_app, IH. cbn [forallb]. rewrite andb_true_r. apply andb_comm.
Qed.

Lemma trimStart_nil s : trimStart s = [] <-> forallb is_space s = true.
Proof.
  induction s as [|c r IH]; [split; reflexivity|]. cbn [trimStart forallb].
  destruct (is_space c); cbn [andb]; [exact IH|split; discriminate].
Qed.

Lemma trimStart_head s : forallb is_space (trimStart s) = true -> trimStart s = [].
Proof.
  induction s as [|c r IH]; [reflexivity|]. cbn [trimStart].
  destruct (is_space c) eqn:E; [exact IH|].
  cbn [forallb]. rewrite E. discriminate.
Qed.

Lemma trim_nil s : trim s = [] <-> forallb is_space s = true.
Proof.
  unfold trim, trimEnd. split.
  - intros H. apply trimStart_nil, trimStart_head.
    rewrite <- forallb_rev. apply trimStart_nil.
    destruct (trimStart (rev (trimStart s))); [reflexivity|].
    apply (f_equal (@List.length _)) in H. rewrite length_rev in H. discriminate.
  - intros H. apply trimStart_nil in H. rewrite H. reflexivity.
Qed.

Lemma trimStart_spaces s : forallb is_space s = true -> trimStart s = [].
Proof.
  induction s as [|c r IH]; [reflexivity|]. simpl.
  intros H. apply andb_prop in H as [Hc Hr]. rewrite Hc. exact (IH Hr).
Qed.

Lemma normalize_spaces query :
  forallb is_space query = true -> trim (toLowerCase query) = [].
Proof. intros H. apply trim_nil. rewrite spaces_lower. exact H. Qed.

End WhiteSpace.

Lemma includes_empty s : includes s [] = true.
Proof. destruct s; reflexivity. Qed.

Lemma hit_empty store j : hit [] store j = record_at store j.
Proof.
  unfold hit. destruct (record_at store j); [|reflexivity].
  unfold matches. rewrite includes_empty. reflexivity.
Qed.

(** C10, as it fails: a store that is not empty need not hold a record. With
    only the saved-plans ledger in the store, the blank query finds nothing
    and the handler calls the provider; and so it is after mount on a store
    whose seed entry is damaged. *)
Lemma blank_query_counterexample :
  (ledger_only <> []
   /\ forallb is_space (js "   ") = true
   /\ findLocalTrail (js "   ") ledger_only = Ok JNull
   /\ exists st', handleSearch (js "   ") (initial ledger_only)
                  = Ok (st', AwaitBasic (js "   "))
                  /\ calls (log st') = [Basic])
  /\
  (localStorage (seed_effect (initial seed_damaged)) = seed_damaged
   /\ seed_damaged <> []
   /\ findLocalTrail [] seed_damaged = Ok JNull
   /\ exists st', handleSearch [] (seed_effect (initial seed_damaged))
                  = Ok (st', AwaitBasic [])
                  /\ calls (log st') = [Basic]).
Proof.
  split.
  - split; [discriminate|].
    split; [reflexivity|].
    split; [vm_compute; reflexivity|].
    eexists. split; [vm_compute; reflexivity|reflexivity].
  - split; [vm_compute; reflexivity|].
    split; [discriminate|].
    split; [vm_compute; reflexivity|].
    eexists. split; [vm_compute; reflexivity|reflexivity].
Qed.

(** C10, amended. For a store that holds at least one record (an entry under
    the namespace prefix whose value parses to an object with a non-empty
    string name) and a query of white space only, or empty, the normalized
    query is the empty string, the lookup returns the first record of the
    enumeration, and the request makes no provider call. *)
Theorem blank_query_hits_first_record
        (query : JsString) (st : AppState) (i : nat) (d : JsValue) :
  forallb is_space query = true ->
  record_at (localStorage st) i = Some d ->
  trim (toLowerCase query) = []
  /\ exists j d0,
       j <= i
       /\ record_at (localStorage st) j = Some d0
       /\ (forall j', j' < j -> record_at (localStorage st) j' = None)
       /\ findLocalTrail query (localStorage st) = Ok d0
       /\ forall events, exists st',
            search query events st = Ok (st', Idle)
            /\ currentTrail st' = d0 /\ log st' = log st.
Proof.
  intros W R. pose proof (normalize_spaces _ W) as N.
  split; [exact N|].
  assert (H : hit [] (localStorage st) i = Some d) by (rewrite hit_empty; exact R).
  destruct (first_hit_exists _ _ _ _ H) as (j & d0 & Hle & Hj & Hfirst).
  exists j, d0. split; [exact Hle|].
  split; [rewrite <- hit_empty; exact Hj|].
  split; [intros j' Hj'; rewrite <- hit_empty; exact (Hfirst j' Hj')|].
  assert (F : findLocalTrail query (localStorage st) = Ok d0).
  { apply (findLocalTrail_first _ _ j); rewrite N; assumption. }
  split; [exact F|].
  intros events. eexists. split.
  - apply (search_hit _ _ d0); [exact F|].
    rewrite hit_empty in Hj. exact (record_truthy _ _ _ Hj).
  - split; reflexivity.
Qed.

Lemma blank_query_hits_first_record_witness :
  trim (toLowerCase (js "  ")) = []
  /\ exists j d0,
       j <= 5
       /\ record_at damaged j = Some d0
       /\ (forall j', j' < j -> record_at damaged j' = None)
       /\ findLocalTrail (js "  ") damaged = Ok d0
       /\ forall events, exists st',
            search (js "  ") events (initial damaged) = Ok (st', Idle)
            /\ currentTrail st' = d0 /\ log st' = [].
Proof.
  apply (blank_query_hits_first_record (js "  ") (initial damaged) 5
           (JObject [(js "name", JString (js "Alps"));
                     (js "location", JString (js "Europe"))])).
  - reflexivity.
  - vm_compute. reflexivity.
Defined.

(** ** Fault tolerance of the scan *)

Lemma malformed_not_record store i k :
  key store i = Some k -> Malformed store k -> record_at store i = None.
Proof.
  intros K M. unfold record_at. rewrite K.
  destruct (startsWith k community_prefix); [|reflexivity].
  destruct M as [G|G|text e G P|text data G P T|text data G P T]; rewrite G;
    try reflexivity.
  - rewrite P. reflexivity.
  - rewrite P. rewrite record_of_data.
    destruct (get_field data (js "name")) as [| |b|m e|[|c n]|items|o];
      try reflexivity; discriminate.
  - rewrite P. rewrite record_of_data.
    destruct (get_field data (js "name")) as [| |b|m e|[|c n]|items|o] eqn:G';
      try reflexivity. exfalso. exact (T _ eq_refl).
Qed.

(** C8. Whatever the store holds: the lookup ends without an exception, and
    what it returns is [null] or a record of the store that matches; a turn
    of the loop at an entry whose value is missing, empty, not parseable,
    without a name, or with a name that is not a string goes on with the next
    index; and such an entry is not a record, so it is never what the lookup
    returns. *)
Theorem fuzzy_scan_fault_tolerance (query : JsString) (store : Storage) :
  (exists v, findLocalTrail query store = Ok v
             /\ (v = JNull
                 \/ exists i, record_at store i = Some v
                              /\ matches (trim (toLowerCase query)) v = true))
  /\ (forall n i k,
        key store i = Some k -> Malformed store k ->
        scan_key (trim (toLowerCase query)) store i = Ok Continue
        /\ scan_from (trim (toLowerCase query)) store (S n) i
           = scan_from (trim (toLowerCase query)) store n (S i))
  /\ (forall i k,
        key store i = Some k -> Malformed store k -> record_at store i = None).
Proof.
  split; [|split].
  - unfold findLocalTrail.
    destruct (scan_from_result (trim (toLowerCase query)) store (List.length store) 0)
      as (v & Hv & Hcase).
    exists v. split; [exact Hv|].
    destruct Hcase as [->|(j & _ & Hh)]; [left; reflexivity|].
    right. exists j. apply hit_record. exact Hh.
  - intros n i k K M.
    assert (S : scan_key (trim (toLowerCase query)) store i = Ok Continue).
    { rewrite scan_key_spec. unfold hit.
      rewrite (malformed_not_record _ _ _ K M). reflexivity. }
    split; [exact S|]. cbn [scan_from]. rewrite S. reflexivity.
  - intros i k K M. exact (malformed_not_record _ _ _ K M).
Qed.

Lemma fuzzy_scan_fault_tolerance_witness :
  scan_from (trim (toLowerCase (js "ЭЛЬБРУС"))) damaged_elbrus 3 0
  = scan_from (trim (toLowerCase (js "ЭЛЬБРУС"))) damaged_elbrus 2 1
  /\ record_at damaged_elbrus 1 = None
  /\ exists v,
       findLocalTrail (js "ЭЛЬБРУС") damaged_elbrus = Ok v
       /\ v = JObject [(js "name", JString (js "Эльбрус"));
                       (js "location", JString (js "Кавказ"))]
       /\ matches (trim (toLowerCase (js "ЭЛЬБРУС"))) v = true.
Proof.
  destruct (fuzzy_scan_fault_tolerance (js "ЭЛЬБРУС") damaged_elbrus)
    as ((v & F & C) & Skip & Not).
  split; [|split].
  - apply (Skip 2 0 (js "ecotrek_community_a")); [reflexivity|].
    apply (parse_fails _ _ (json "{'name': 'Эльбрус") SyntaxError); reflexivity.
  - apply (Not 1 (js "ecotrek_community_b")); [reflexivity|].
    apply (name_lacking _ _ (json "{'location': 'Кавказ'}")
                        (JObject [(js "location", JString (js "Кавказ"))]));
      reflexivity.
  - exists v. split; [exact F|].
    assert (F' : findLocalTrail (js "ЭЛЬБРУС") damaged_elbrus
                 = Ok (JObject [(js "name", JString (js "Эльбрус"));
                                (js "location", JString (js "Кавказ"))]))
      by (vm_compute; reflexivity).
    rewrite F' in F. injection F as <-. split; [reflexivity|].
    destruct C as [C|(i & _ & M)]; [discriminate C|exact M].
Defined.

(** ** Schemas *)

Lemma conforms_defined sch v : conforms sch v = true -> v <> JUndefined.
Proof. destruct sch, v; simpl; congruence. Qed.

Lemma conforms_object_inv props req d v :
  conforms (OBJECT props req d) v = true ->
  exists o, v = JObject o
    /\ (forall k, In k req -> has_key (js k) o = true)
    /\ (forall k sub x, In (k, sub) props -> obj_get (js k) o = Some x ->
                        conforms sub x = true).
Proof.
  destruct v as [| | | | | |o]; try discriminate.
  cbn [conforms]. intros H.
  apply andb_prop in H as [Hreq Heach].
  exists o. split; [reflexivity|]. split.
  - intros k Hk. rewrite forallb_forall in Hreq. exact (Hreq k Hk).
  - clear Hreq. induction props as [|[k1 s1] ps IH]; intros k sub x Hin G.
    + destruct Hin.
    + apply andb_prop in Heach as [H1 H2]. destruct Hin as [[= -> ->]|Hin].
      * rewrite G in H1. exact H1.
      * exact (IH H2 k sub x Hin G).
Qed.

Lemma conforms_required props req d o k sub :
  conforms (OBJECT props req d) (JObject o) = true ->
  In k req -> In (k, sub) props ->
  exists x, obj_get (js k) o = Some x /\ x <> JUndefined.
Proof.
  intros C Hreq Hprop.
  destruct (conforms_object_inv _ _ _ _ C) as (o' & [= <-] & R & E).
  apply R, has_key_get in Hreq as [x Hx].
  exists x. split; [exact Hx|].
  exact (conforms_defined _ _ (E _ _ _ Hprop Hx)).
Qed.

Ltac in_list := simpl; repeat (first [left; reflexivity | right]).

(** A basic result that honours its schema is an object that has each basic
    field, and the center coordinates. *)
Lemma conforms_basic b :
  conforms basicSchema b = true ->
  exists o, b = JObject o /\
    forall k, In k (basic_fields ++ [js "centerCoordinates"]) ->
    exists x, obj_get k o = Some x /\ x <> JUndefined.
Proof.
  intros C. destruct (conforms_object_inv _ _ _ _ C) as (o & -> & _).
  exists o. split; [reflexivity|]. intros k Hk.
  unfold basicSchema in C.
  simpl in Hk.
  repeat (destruct Hk as [<-|Hk];
          [eapply (conforms_required _ _ _ _ _ _ C); in_list|]).
  destruct Hk.
Qed.

(** ** The stages of a request *)

Lemma make_partialTrail_ok b :
  b <> JNull -> b <> JUndefined -> make_partialTrail b = Ok (partial_of b).
Proof. destruct b; try congruence; reflexivity. Qed.

Lemma make_partialTrail_inv b p :
  make_partialTrail b = Ok p -> p = partial_of b /\ b <> JNull /\ b <> JUndefined.
Proof.
  destruct b; try discriminate; intros [= <-];
    (split; [reflexivity|split; discriminate]).
Qed.

Lemma search_cons query st e events :
  search query (e :: events) st =
  bind (search query [e] st) (run events).
Proof.
  unfold search. destruct (handleSearch query st) as [c|x]; [|reflexivity].
  cbn [bind run]. destruct (step e c); reflexivity.
Qed.

Lemma search_basic_ok query st br b :
  findLocalTrail query (localStorage st) = Ok JNull ->
  generateBasicTrailInfo br = Ok b ->
  make_partialTrail b = Ok (partial_of b) ->
  search query [BasicReplied br] st
  = Ok (ready query b st, AwaitStages (partial_of b) None None).
Proof.
  intros F B P. unfold search. rewrite (handleSearch_miss _ _ F).
  cbn [bind run step]. unfold resume_basic. rewrite B. cbn [bind].
  rewrite P. reflexivity.
Qed.


Lemma settled_log r st : log (settled r st) = log st.
Proof. destruct r; reflexivity. Qed.

Lemma settled_store r st : localStorage (settled r st) = localStorage st.
Proof. destruct r; reflexivity. Qed.



Lemma step_misc_first st p mr :
  step (MiscReplied mr) (st, AwaitStages p None None)
  = Ok (settled (generateTrailMisc mr) st,
        AwaitStages p (Some (stage_value (generateTrailMisc mr))) None).
Proof. cbn [step]. unfold settled. destruct (generateTrailMisc mr); reflexivity. Qed.

Lemma step_routes_first st p rr :
  step (RoutesReplied rr) (st, AwaitStages p None None)
  = Ok (settled (generateTrailRoutes rr) st,
        AwaitStages p None (Some (stage_value (generateTrailRoutes rr)))).
Proof. cbn [step]. unfold settled. destruct (generateTrailRoutes rr); reflexivity. Qed.

Lemma step_routes_second st p vm rr :
  step (RoutesReplied rr) (st, AwaitStages p (Some vm) None)
  = Ok (let final := spread [p; vm; stage_value (generateTrailRoutes rr)] in
        store_write (key_of final) (JSON_stringify final)
                    (settled (generateTrailRoutes rr) st), Idle).
Proof. cbn [step]. unfold settled. destruct (generateTrailRoutes rr); reflexivity. Qed.

Lemma step_misc_second st p vr mr :
  step (MiscReplied mr) (st, AwaitStages p None (Some vr))
  = Ok (let final := spread [p; stage_value (generateTrailMisc mr); vr] in
        store_write (key_of final) (JSON_stringify final)
                    (settled (generateTrailMisc mr) st), Idle).
Proof. cbn [step]. unfold settled. destruct (generateTrailMisc mr); reflexivity. Qed.

(** The concurrent stage in closed form, misc first. *)
Lemma run_misc_routes st p mr rr :
  run [MiscReplied mr; RoutesReplied rr] (st, AwaitStages p None None)
  = Ok (store_write (key_of (final_of p mr rr)) (JSON_stringify (final_of p mr rr))
          (settled (generateTrailRoutes rr) (settled (generateTrailMisc mr) st)),
        Idle).
Proof.
  cbn [run]. rewrite step_misc_first. cbn [bind].
  rewrite step_routes_second. reflexivity.
Qed.

(** The concurrent stage in closed form, routes first. *)
Lemma run_routes_misc st p mr rr :
  run [RoutesReplied rr; MiscReplied mr] (st, AwaitStages p None None)
  = Ok (store_write (key_of (final_of p mr rr)) (JSON_stringify (final_of p mr rr))
          (settled (generateTrailMisc mr) (settled (generateTrailRoutes rr) st)),
        Idle).
Proof.
  cbn [run]. rewrite step_routes_first. cbn [bind].
  rewrite step_misc_second. reflexivity.
Qed.

Lemma writes_app l l' : writes (l ++ l') = writes l ++ writes l'.
Proof. apply flat_map_app. Qed.

Lemma alerts_app l l' : alerts (l ++ l') = alerts l ++ alerts l'.
Proof. apply flat_map_app. Qed.


Lemma getItem_setItem s k v : getItem (setItem s k v) k = Some v.
Proof.
  induction s as [|[k' v'] r IH]; simpl.
  - rewrite str_eqb_refl. reflexivity.
  - case_key k k'.
    + simpl. rewrite str_eqb_refl. reflexivity.
    + simpl. apply str_eqb_neq in E. rewrite E. exact IH.
Qed.

(** ** Merge non-destructiveness *)




(** ** The partial record and the final record *)

Lemma partial_get_basic b k :
  In k (basic_fields ++ [js "centerCoordinates"]) ->
  get_field (partial_of b) k = get_field b k.
Proof.
  intros H. simpl in H.
  repeat (destruct H as [<-|H]; [reflexivity|]). destruct H.
Qed.

Lemma partial_get_rest b k :
  In k (misc_fields ++ [js "routeSegments"]) ->
  get_field (partial_of b) k = JUndefined.
Proof.
  intros H. simpl in H.
  repeat (destruct H as [<-|H]; [reflexivity|]). destruct H.
Qed.

(** A field of the final record comes from the routes result, else from the
    misc result, else from the partial record. *)
Lemma final_get b mr rr k :
  get_field (final_of (partial_of b) mr rr) k =
  match own_get (stage_value (generateTrailRoutes rr)) k with
  | Some x => x
  | None =>
    match own_get (stage_value (generateTrailMisc mr)) k with
    | Some x => x
    | None => get_field (partial_of b) k
    end
  end.
Proof.
  unfold final_of. rewrite get_field_spread, own_get_spread3.
  destruct (own_get (stage_value (generateTrailRoutes rr)) k); [reflexivity|].
  destruct (own_get (stage_value (generateTrailMisc mr)) k); reflexivity.
Qed.

Lemma writes_store_write k v st :
  writes (log (store_write k v st)) = writes (log st) ++ [(k, v)].
Proof. cbn [store_write emit log]. rewrite writes_app. reflexivity. Qed.

Lemma writes_ready query b st : writes (log (ready query b st)) = writes (log st).
Proof.
  cbn [ready log]. rewrite !writes_app. cbn [writes flat_map].
  rewrite !app_nil_r. reflexivity.
Qed.

Lemma alerts_ready query b st : alerts (log (ready query b st)) = alerts (log st).
Proof.
  cbn [ready log]. rewrite !alerts_app. cbn [alerts flat_map].
  rewrite !app_nil_r. reflexivity.
Qed.

(** ** Failure of the basic stage *)

Lemma basic_failure_cases br :
  br = Rejected \/ br = Response None \/ br = Response (Some [])
  \/ (exists text e,
        br = Response (Some text)
        /\ JSON_parse (trim (remove_all (js "```") (remove_all (js "```json") text)))
           = Throw e) ->
  exists e, generateBasicTrailInfo br = Throw e.
Proof.
  intros [->|[->|[->|(text & e & -> & P)]]]; try (eexists; reflexivity).
  unfold generateBasicTrailInfo. cbn [await bind]. unfold safeParseJSON.
  destruct text; [eexists; reflexivity|]. rewrite P. eexists. reflexivity.
Qed.



(** ** Failure of the routes stage *)

(** Scenario C: routes resolve before misc. The record first gains the two
    segments and no story, then the misc fields; the persisted record has
    both. *)
Example scenario_routes_then_misc :
  exists s1 s2 text v,
    search peak_query [BasicReplied basic_reply; RoutesReplied routes_reply] (initial [])
    = Ok (s1, AwaitStages (partial_of basic_result) None (Some routes_result))
    /\ get_field (currentTrail s1) (js "routeSegments")
       = get_field routes_result (js "routeSegments")
    /\ get_field (currentTrail s1) (js "story") = JUndefined
    /\ localStorage s1 = []
    /\ search peak_query
         [BasicReplied basic_reply; RoutesReplied routes_reply; MiscReplied misc_reply]
         (initial [])
       = Ok (s2, Idle)
    /\ get_field (currentTrail s2) (js "routeSegments")
       = get_field routes_result (js "routeSegments")
    /\ get_field (currentTrail s2) (js "story") = JString (js "s")
    /\ localStorage s2 = [(js "ecotrek_community_Unknown Peak", text)]
    /\ JSON_parse text = Ok v
    /\ get_field v (js "routeSegments") = get_field routes_result (js "routeSegments")
    /\ get_field v (js "story") = JString (js "s").
Proof.
  eexists _, _, _, _.
  repeat (split; [vm_compute; reflexivity|]).
  vm_compute. reflexivity.
Qed.

(** Scenario D, down to the stored text: read back, the persisted record
    has no [routeSegments] property at all. *)
Example scenario_routes_fail_stored :
  exists st' text v,
    search peak_query
      [BasicReplied basic_reply; RoutesReplied Rejected; MiscReplied misc_reply]
      (initial [])
    = Ok (st', Idle)
    /\ getItem (localStorage st') (js "ecotrek_community_Unknown Peak") = Some text
    /\ JSON_parse text = Ok v
    /\ has_own v (js "routeSegments") = false
    /\ get_field v (js "story") = JString (js "s")
    /\ get_field v (js "name") = JString (js "Unknown Peak").
Proof.
  eexists _, _, _.
  split; [vm_compute; reflexivity|].
  split; [vm_compute; reflexivity|].
  split; [vm_compute; reflexivity|].
  split; [|split]; vm_compute; reflexivity.
Qed.

(** ** What the routes stage accepts *)

(** C7, as it fails: a response that honours the routes schema and has no
    segment at all is a successful result of the stage, and so is a response
    with one segment whose timeline is empty; a response that does not honour
    the schema is a successful result too, not a parse failure. *)
Lemma routes_contract_counterexample :
  (generateTrailRoutes (Response (Some (json "{'routeSegments': []}")))
     = Ok (JObject [(js "routeSegments", JArray [])])
   /\ conforms routesSchema (JObject [(js "routeSegments", JArray [])]) = true
   /\ ~ routes_contract (JObject [(js "routeSegments", JArray [])]))
  /\
  (generateTrailRoutes (Response (Some (json "{'segments': 3}")))
     = Ok (JObject [(js "segments", JNumber 3 0)])
   /\ conforms routesSchema (JObject [(js "segments", JNumber 3 0)]) = false
   /\ ~ routes_contract (JObject [(js "segments", JNumber 3 0)])).
Proof.
  split; (split; [vm_compute; reflexivity|split; [vm_compute; reflexivity|]]).
  - intros (s1 & s2 & H & _). vm_compute in H. discriminate H.
  - intros (s1 & s2 & H & _). vm_compute in H. discriminate H.
Qed.

(** C7, amended. A result of the routes stage is the value that the text of
    the response parses to, once the code fences are removed and the text is
    trimmed: the stage succeeds exactly when the provider responds with a
    text that is not empty and that parses as JSON. The number of segments
    and their timelines are asked of the provider, in the prompt and in the
    description of the schema, and are not checked. *)
Theorem routes_stage_result (reply : Reply) (v : JsValue) :
  generateTrailRoutes reply = Ok v <->
  exists text,
    reply = Response (Some text) /\ text <> []
    /\ JSON_parse (trim (remove_all (js "```") (remove_all (js "```json") text)))
       = Ok v.
Proof.
  unfold generateTrailRoutes, safeParseJSON. split.
  - destruct reply as [|[[|c text]|]]; cbn [await bind]; try discriminate.
    intros H. exists (c :: text). split; [reflexivity|]. split; [discriminate|].
    destruct (JSON_parse _) as [x|e]; [exact H|discriminate H].
  - intros (text & -> & Hne & P). cbn [await bind].
    destruct text as [|c text]; [congruence|]. rewrite P. reflexivity.
Qed.

(** ** The saved-plans ledger *)

Lemma find_none_iff {A} (f : A -> bool) l :
  find f l = None <-> forall x, In x l -> f x = false.
Proof.
  split; [apply find_none|].
  intros H. destruct (find f l) as [x|] eqn:E; [|reflexivity].
  apply find_some in E as [Hin Hx]. rewrite (H x Hin) in Hx. discriminate.
Qed.

Lemma save_new trail st :
  (forall t, In t (savedTrails st) -> same_name trail t = false) ->
  savedTrails (handleSaveTrail trail st) = savedTrails st ++ [trail].
Proof.
  intros H. apply find_none_iff in H. unfold handleSaveTrail. rewrite H. reflexivity.
Qed.

Lemma save_known trail st :
  (exists t, In t (savedTrails st) /\ same_name trail t = true) ->
  savedTrails (handleSaveTrail trail st)
  = map (fun t => if same_name trail t then trail else t) (savedTrails st).
Proof.
  intros (t & Hin & Ht). unfold handleSaveTrail.
  destruct (find (same_name trail) (savedTrails st)) eqn:E; [reflexivity|].
  rewrite (find_none _ _ E t Hin) in Ht. discriminate.
Qed.

Lemma saved_after_save trail st : In trail (savedTrails (handleSaveTrail trail st)).
Proof.
  unfold handleSaveTrail.
  destruct (find (same_name trail) (savedTrails st)) as [t|] eqn:E.
  - apply find_some in E as [Hin Ht]. cbn [setSavedTrails store_write emit savedTrails].
    apply in_map_iff. exists t. rewrite Ht. split; [reflexivity|exact Hin].
  - cbn [setSavedTrails store_write emit savedTrails]. apply in_or_app. right. left. reflexivity.
Qed.

(** C9. Saving a record whose name no entry of the ledger has (compared with
    [===]) puts it at the end. Saving a record whose name an entry has leaves
    the length of the ledger as it is and puts the record at the place of
    that entry, every other entry staying where it is. Hence saving a record
    and then a record of the same name leaves the length unchanged by the
    second save, and the entry of that name is the record saved last. *)
Theorem ledger_upsert (trail : TrailData) (st : AppState) :
  ((forall t, In t (savedTrails st) -> same_name trail t = false) ->
   savedTrails (handleSaveTrail trail st) = savedTrails st ++ [trail])
  /\
  ((exists t, In t (savedTrails st) /\ same_name trail t = true) ->
   List.length (savedTrails (handleSaveTrail trail st)) = List.length (savedTrails st)
   /\ forall i t,
        nth_error (savedTrails st) i = Some t ->
        nth_error (savedTrails (handleSaveTrail trail st)) i
        = Some (if same_name trail t then trail else t))
  /\
  (forall again,
     strict_eq (name_of trail) (name_of again) = true ->
     List.length (savedTrails (handleSaveTrail again (handleSaveTrail trail st)))
     = List.length (savedTrails (handleSaveTrail trail st))
     /\ In again (savedTrails (handleSaveTrail again (handleSaveTrail trail st)))
     /\ forall t,
          In t (savedTrails (handleSaveTrail again (handleSaveTrail trail st))) ->
          same_name again t = true -> t = again).
Proof.
  split; [apply save_new|]. split.
  - intros H. rewrite (save_known _ _ H). split; [apply length_map|].
    intros i t Hi. rewrite nth_error_map, Hi. reflexivity.
  - intros again E.
    assert (K : exists t, In t (savedTrails (handleSaveTrail trail st))
                          /\ same_name again t = true).
    { exists trail. split; [apply saved_after_save|exact E]. }
    rewrite (save_known _ _ K). split; [apply length_map|]. split.
    + apply in_map_iff. exists trail. unfold same_name at 1. rewrite E.
      split; [reflexivity|apply saved_after_save].
    + intros t Hin Ht. apply in_map_iff in Hin as (t0 & <- & _).
      destruct (same_name again t0) eqn:E0; [reflexivity|congruence].
Qed.

Lemma ledger_upsert_witness :
  savedTrails (handleSaveTrail alps_lower (with_plans [alps; andes]))
    = [alps; andes; alps_lower]
  /\ savedTrails (handleSaveTrail alps_revised (with_plans [alps; andes]))
     = [alps_revised; andes]
  /\ List.length (savedTrails (handleSaveTrail alps_revised
                                 (handleSaveTrail alps (with_plans [andes]))))
     = List.length (savedTrails (handleSaveTrail alps (with_plans [andes])))
  /\ In alps_revised (savedTrails (handleSaveTrail alps_revised
                                     (handleSaveTrail alps (with_plans [andes])))).
Proof.
  destruct (ledger_upsert alps_lower (with_plans [alps; andes])) as (New & _ & _).
  destruct (ledger_upsert alps_revised (with_plans [alps; andes])) as (_ & Known & _).
  destruct (ledger_upsert alps (with_plans [andes])) as (_ & _ & Twice).
  split; [|split].
  - apply New. intros t [<-|[<-|[]]]; reflexivity.
  - destruct Known as [Len Place].
    + exists alps. split; [left; reflexivity|reflexivity].
    + pose proof (Place 0 alps eq_refl) as P0. pose proof (Place 1 andes eq_refl) as P1.
      destruct (savedTrails (handleSaveTrail alps_revised (with_plans [alps; andes])))
        as [|x [|y [|z r]]]; try discriminate.
      injection P0 as <-. injection P1 as <-. reflexivity.
  - destruct (Twice alps_revised eq_refl) as (L & I & _). split; [exact L|exact I].
Defined.

(* ===================================================================== *)
(** * Further properties of the code *)
(* ===================================================================== *)

(** ** safeParseJSON *)

Lemma parse_number_defined s v r : parse_number s = Some (v, r) -> v <> JUndefined.
Proof.
  unfold parse_number.
  destruct (match s with
            | c :: r0 => if (c =? 45)%N then (true, r0) else (false, s)
            | [] => (false, s)
            end) as [neg s1].
  destruct (take_digits s1) as [ints s2].
  destruct (negb (well_formed_int ints)); [discriminate|].
  destruct (match s2 with
            | c :: r0 =>
              if (c =? 46)%N then
                let '(fs, s3) := take_digits r0 in
                match fs with [] => None | _ => Some (fs, s3) end
              else Some ([], s2)
            | [] => Some ([], s2)
            end) as [[fs s3]|]; [|discriminate].
  match goal with
  | |- match ?x with _ => _ end = _ -> _ => destruct x as [[e s4]|]
  end; [|discriminate].
  intros [= <- _]. discriminate.
Qed.

Lemma parse_value_defined fuel s v r :
  parse_value fuel s = Some (v, r) -> v <> JUndefined.
Proof.
  destruct fuel as [|fuel]; [discriminate|]. cbn [parse_value].
  destruct (skip_ws s) as [|c t]; [discriminate|].
  destruct (c =? 34)%N.
  { destruct (parse_chars t) as [[str rest]|]; [|discriminate].
    intros [= <- _]. discriminate. }
  destruct (c =? 91)%N.
  { destruct (skip_ws t) as [|c' t']; [discriminate|].
    destruct (c' =? 93)%N; [intros [= <- _]; discriminate|].
    destruct (parse_elements _ _ _) as [[vs rest]|]; [|discriminate].
    intros [= <- _]. discriminate. }
  destruct (c =? 123)%N.
  { destruct (skip_ws t) as [|c' t']; [discriminate|].
    destruct (c' =? 125)%N; [intros [= <- _]; discriminate|].
    destruct (parse_members _ _ _ _) as [[o rest]|]; [|discriminate].
    intros [= <- _]. discriminate. }
  unfold expect.
  destruct (c =? 110)%N.
  { destruct (startsWith _ _); [|discriminate]. intros [= <- _]. discriminate. }
  destruct (c =? 116)%N.
  { destruct (startsWith _ _); [|discriminate]. intros [= <- _]. discriminate. }
  destruct (c =? 102)%N.
  { destruct (startsWith _ _); [|discriminate]. intros [= <- _]. discriminate. }
  apply parse_number_defined.
Qed.

Lemma JSON_parse_defined text v : JSON_parse text = Ok v -> v <> JUndefined.
Proof.
  unfold JSON_parse.
  destruct (parse_value _ text) as [[v' rest]|] eqn:P; [|discriminate].
  destruct (skip_ws rest); [|discriminate].
  intros [= <-]. exact (parse_value_defined _ _ _ _ P).
Qed.

(** X1. [safeParseJSON] throws nothing but its own two errors: "No
    response" exactly when the text is missing or empty, "Invalid JSON" for
    every other failure, so that no SyntaxError of the parser comes through;
    and a value it returns is never [undefined]. *)
Theorem safeParseJSON_outcomes (text : option JsString) :
  (forall e, safeParseJSON text = Throw e ->
             e = Error "No response from AI"
             \/ e = Error "Invalid JSON response from AI")
  /\ (safeParseJSON text = Throw (Error "No response from AI")
      <-> text = None \/ text = Some [])
  /\ (forall v, safeParseJSON text = Ok v -> v <> JUndefined).
Proof.
  unfold safeParseJSON. destruct text as [[|c t]|].
  - split; [intros e [= <-]; left; reflexivity|].
    split; [split; auto|discriminate].
  - destruct (JSON_parse _) as [v|e] eqn:P; cbn [try_catch].
    + split; [discriminate|]. split.
      * split; [discriminate|intros [H|H]; discriminate H].
      * intros v' [= <-]. exact (JSON_parse_defined _ _ P).
    + split; [intros e' [= <-]; right; reflexivity|]. split.
      * split; [discriminate|intros [H|H]; discriminate H].
      * discriminate.
  - split; [intros e [= <-]; left; reflexivity|].
    split; [split; auto|discriminate].
Qed.




Lemma startsWith_app p s : startsWith (p ++ s) p = true.
Proof.
  induction p as [|c p IH]; [destruct s; reflexivity|].
  cbn [app startsWith]. rewrite N.eqb_refl. exact IH.
Qed.









(** ** The one-shot generator *)

Lemma safeParseJSON_defined text v : safeParseJSON text = Ok v -> v <> JUndefined.
Proof.
  unfold safeParseJSON. destruct text as [[|c t]|]; try discriminate.
  destruct (JSON_parse _) as [x|e] eqn:P; cbn [try_catch]; [|discriminate].
  intros [= <-]. exact (JSON_parse_defined _ _ P).
Qed.

Lemma stage_defined br b : generateBasicTrailInfo br = Ok b -> b <> JUndefined.
Proof.
  unfold generateBasicTrailInfo. destruct br as [|text]; [discriminate|].
  cbn [await bind]. apply safeParseJSON_defined.
Qed.







(** ** The lookup and the first provider call *)

Lemma hit_not_null nq store j : hit nq store j <> Some JNull.
Proof.
  intros H. apply hit_record in H as [R _]. apply record_truthy in R. discriminate.
Qed.

Lemma scan_from_null nq store : forall n i,
  scan_from nq store n i = Ok JNull ->
  forall j, i <= j < i + n -> hit nq store j = None.
Proof.
  induction n as [|n IH]; intros i H j Hj; [lia|].
  cbn [scan_from] in H. rewrite scan_key_spec in H. cbn [bind] in H.
  destruct (hit nq store i) as [d|] eqn:Hi.
  - injection H as ->. destruct (hit_not_null _ _ _ Hi).
  - destruct (Nat.eq_dec j i) as [->|Hne]; [exact Hi|].
    apply (IH (S i) H). lia.
Qed.

Lemma findLocalTrail_null query store :
  findLocalTrail query store = Ok JNull
  <-> forall j, hit (trim (toLowerCase query)) store j = None.
Proof.
  unfold findLocalTrail. split.
  - intros H j. destruct (hit _ store j) as [d|] eqn:Hj; [|reflexivity].
    pose proof (hit_in_range _ _ _ _ Hj) as R.
    rewrite (scan_from_null _ _ _ _ H j) in Hj by lia. discriminate.
  - intros H. apply scan_from_none. intros j _. apply H.
Qed.

Lemma findLocalTrail_cases query store :
  findLocalTrail query store = Ok JNull
  \/ exists j d, hit (trim (toLowerCase query)) store j = Some d
                 /\ findLocalTrail query store = Ok d /\ truthy d = true.
Proof.
  unfold findLocalTrail.
  destruct (scan_from_result (trim (toLowerCase query)) store (List.length store) 0)
    as (v & Hv & [->|(j & _ & Hj)]); [left; exact Hv|].
  right. exists j, v. split; [exact Hj|]. split; [exact Hv|].
  apply hit_record in Hj as [R _]. exact (record_truthy _ _ _ R).
Qed.

(** X5. The handler calls the provider exactly when no stored record
    matches the normalized query: with no match anywhere in the store it
    sends the basic request, stays loading and leaves the view and the record
    on display as they were; with a match at some index it ends at once with
    no call, showing a matching record. The lookup itself never raises. *)
Theorem provider_called_iff_no_match (query : JsString) (st : AppState) :
  exists st' ph,
    handleSearch query st = Ok (st', ph)
    /\ ((forall j, hit (trim (toLowerCase query)) (localStorage st) j = None)
        <-> ph = AwaitBasic query)
    /\ ((exists j d, hit (trim (toLowerCase query)) (localStorage st) j = Some d)
        <-> ph = Idle)
    /\ (ph = AwaitBasic query ->
        log st' = log st ++ [Call (basic_request query)]
        /\ isLoading st' = true /\ view st' = view st
        /\ currentTrail st' = currentTrail st)
    /\ (ph = Idle ->
        log st' = log st /\ isLoading st' = false /\ view st' = guide
        /\ exists j, hit (trim (toLowerCase query)) (localStorage st) j
                     = Some (currentTrail st')).
Proof.
  destruct (findLocalTrail_cases query (localStorage st)) as [F|(j & d & Hj & F & T)].
  - pose proof (proj1 (findLocalTrail_null _ _) F) as None_.
    rewrite (handleSearch_miss _ _ F). eexists _, _. split; [reflexivity|].
    split; [split; [reflexivity|intros _; exact None_]|].
    split; [split; [intros (j & d & Hj); rewrite None_ in Hj; discriminate|discriminate]|].
    split; [intros _; repeat split|discriminate].
  - rewrite (handleSearch_hit _ _ _ F T). eexists _, _. split; [reflexivity|].
    split; [split; [intros N; rewrite N in Hj; discriminate|discriminate]|].
    split; [split; [reflexivity|intros _; exists j, d; exact Hj]|].
    split; [discriminate|]. intros _. cbn [log isLoading view currentTrail].
    repeat split. exists j. exact Hj.
Qed.

(** A stored name is matched whatever the case of the query, outside the
    Latin letters too: the query is answered from the store, and no provider
    call is made. *)
Example scenario_cyrillic_query :
  handleSearch (js "эльбрус") (initial damaged_elbrus)
  = Ok (mkState guide false
                (JObject [(js "name", JString (js "Эльбрус"));
                          (js "location", JString (js "Кавказ"))])
                [] damaged_elbrus [], Idle)
  /\ handleSearch (js "Ж") (initial zhe_store)
     = Ok (mkState guide false
                   (JObject [(js "name", JString (js "Ж"));
                             (js "location", JString (js "first"))])
                   [] zhe_store [], Idle)
  /\ handleSearch (js "Ω") (initial zhe_store)
     = Ok (mkState home true JNull [] zhe_store [Call (basic_request (js "Ω"))],
           AwaitBasic (js "Ω")).
Proof. repeat split; vm_compute; reflexivity. Qed.

(** ** A request under any replies *)

Lemma getItem_setItem_other s k v k0 :
  k0 <> k -> getItem (setItem s k v) k0 = getItem s k0.
Proof.
  intros Hne. induction s as [|[k1 v1] r IH]; simpl.
  - apply str_eqb_neq in Hne. rewrite Hne. reflexivity.
  - case_key k k1; simpl.
    + apply str_eqb_neq in Hne. rewrite Hne. reflexivity.
    + rewrite IH. reflexivity.
Qed.

Lemma store_frame_refl s : store_frame s s.
Proof. split; eauto. Qed.

Lemma store_frame_write s0 s k v :
  store_frame s0 s -> startsWith k community_prefix = true ->
  store_frame s0 (setItem s k v).
Proof.
  intros [K G] P. split.
  - intros k0 v0 H. destruct (K _ _ H) as [v' Hv'].
    destruct (str_eqb_spec k0 k) as [->|Hne].
    + rewrite getItem_setItem. eauto.
    + rewrite getItem_setItem_other by exact Hne. eauto.
  - intros k0 H. rewrite getItem_setItem_other; [apply G, H|].
    intros ->. congruence.
Qed.

Lemma settled_saved r st : savedTrails (settled r st) = savedTrails st.
Proof. destruct r; reflexivity. Qed.

Lemma settle_settled r st : settle r st = (settled r st, stage_value r).
Proof. destruct r; reflexivity. Qed.

Lemma step_keeps query st0 e st ph l :
  log st = log st0 ++ l ->
  request_trace query ph l ->
  savedTrails st = savedTrails st0 ->
  store_frame (localStorage st0) (localStorage st) ->
  exists st' ph' l',
    step e (st, ph) = Ok (st', ph')
    /\ log st' = log st0 ++ l'
    /\ request_trace query ph' l'
    /\ savedTrails st' = savedTrails st0
    /\ store_frame (localStorage st0) (localStorage st').
Proof.
  intros L T S F.
  assert (Same : step e (st, ph) = Ok (st, ph) ->
                 exists st' ph' l',
                   step e (st, ph) = Ok (st', ph')
                   /\ log st' = log st0 ++ l'
                   /\ request_trace query ph' l'
                   /\ savedTrails st' = savedTrails st0
                   /\ store_frame (localStorage st0) (localStorage st')).
  { intros E. exists st, ph, l. repeat split; try assumption; apply F. }
  destruct T as [[-> ->]|[[-> ->]|[[-> ->]|[(b & m & r & -> & ->)|(b & k & v & -> & P & ->)]]]].
  - apply Same. destruct e; reflexivity.
  - destruct e as [reply| |]; try (apply Same; reflexivity).
    cbn [step]. unfold resume_basic.
    destruct (generateBasicTrailInfo reply) as [b|x]; cbn [bind try_catch].
    + destruct (make_partialTrail b) as [p|x] eqn:MP; cbn [bind try_catch].
      * destruct (make_partialTrail_inv _ _ MP) as (-> & _ & _).
        eexists _, _, _. split; [reflexivity|].
        cbn [log emit setIsLoading setView setCurrentTrail savedTrails localStorage].
        rewrite L, <- !app_assoc. split; [reflexivity|].
        split; [|split; assumption].
        right. right. right. left. exists b, None, None. split; reflexivity.
      * eexists _, _, _. split; [reflexivity|].
        cbn [on_error log emit setIsLoading savedTrails localStorage].
        rewrite L, <- !app_assoc. split; [reflexivity|].
        split; [|split; assumption].
        right. right. left. split; reflexivity.
    + eexists _, _, _. split; [reflexivity|].
      cbn [on_error log emit setIsLoading savedTrails localStorage].
      rewrite L, <- !app_assoc. split; [reflexivity|].
      split; [|split; assumption].
      right. right. left. split; reflexivity.
  - apply Same. destruct e; reflexivity.
  - destruct e as [reply|reply|reply].
    + apply Same. destruct m, r; reflexivity.
    + destruct m as [vm|]; [apply Same; destruct r; reflexivity|].
      cbn [step]. rewrite settle_settled.
      destruct r as [vr|]; cbn [join_all].
      * eexists _, _, _. split; [reflexivity|].
        cbn [store_write emit log savedTrails localStorage].
        rewrite settled_log, settled_saved, settled_store, L, <- !app_assoc.
        split; [reflexivity|]. split; [|split; [exact S|]].
        -- right. right. right. right. exists b. eexists _, _.
           split; [reflexivity|]. split; [apply startsWith_app|reflexivity].
        -- apply store_frame_write; [exact F|apply startsWith_app].
      * eexists _, _, _. split; [reflexivity|].
        rewrite settled_log, settled_saved, settled_store.
        split; [exact L|]. split; [|split; assumption].
        right. right. right. left. exists b. eexists _, _. split; reflexivity.
    + destruct r as [vr|]; [apply Same; destruct m; reflexivity|].
      assert (E : step (RoutesReplied reply) (st, AwaitStages (partial_of b) m None)
                  = Ok (join_all (partial_of b) m
                                 (Some (stage_value (generateTrailRoutes reply)))
                                 (settled (generateTrailRoutes reply) st))).
      { cbn [step]. destruct m; rewrite settle_settled; reflexivity. }
      rewrite E. destruct m as [vm|]; cbn [join_all].
      * eexists _, _, _. split; [reflexivity|].
        cbn [store_write emit log savedTrails localStorage].
        rewrite settled_log, settled_saved, settled_store, L, <- !app_assoc.
        split; [reflexivity|]. split; [|split; [exact S|]].
        -- right. right. right. right. exists b. eexists _, _.
           split; [reflexivity|]. split; [apply startsWith_app|reflexivity].
        -- apply store_frame_write; [exact F|apply startsWith_app].
      * eexists _, _, _. split; [reflexivity|].
        rewrite settled_log, settled_saved, settled_store.
        split; [exact L|]. split; [|split; assumption].
        right. right. right. left. exists b. eexists _, _. split; reflexivity.
  - apply Same. destruct e; reflexivity.
Qed.

Lemma run_keeps query st0 : forall events st ph l,
  log st = log st0 ++ l ->
  request_trace query ph l ->
  savedTrails st = savedTrails st0 ->
  store_frame (localStorage st0) (localStorage st) ->
  exists st' ph' l',
    run events (st, ph) = Ok (st', ph')
    /\ log st' = log st0 ++ l'
    /\ request_trace query ph' l'
    /\ savedTrails st' = savedTrails st0
    /\ store_frame (localStorage st0) (localStorage st').
Proof.
  induction events as [|e rest IH]; intros st ph l L T S F.
  - exists st, ph, l. repeat split; try assumption; apply F.
  - destruct (step_keeps query st0 e st ph l L T S F) as (st1 & ph1 & l1 & E & L1 & T1 & S1 & F1).
    cbn [run]. rewrite E. cbn [bind]. exact (IH st1 ph1 l1 L1 T1 S1 F1).
Qed.

Lemma search_keeps query events st :
  exists st' ph l,
    search query events st = Ok (st', ph)
    /\ log st' = log st ++ l
    /\ request_trace query ph l
    /\ savedTrails st' = savedTrails st
    /\ store_frame (localStorage st) (localStorage st').
Proof.
  unfold search.
  destruct (findLocalTrail_cases query (localStorage st)) as [F|(j & d & _ & F & T)].
  - rewrite (handleSearch_miss _ _ F). cbn [bind].
    apply (run_keeps query st events _ _ [Call (basic_request query)]).
    + reflexivity.
    + right. left. split; reflexivity.
    + reflexivity.
    + apply store_frame_refl.
  - rewrite (handleSearch_hit _ _ _ F T). cbn [bind].
    apply (run_keeps query st events _ _ []).
    + cbn [log]. symmetry. apply app_nil_r.
    + left. split; reflexivity.
    + reflexivity.
    + apply store_frame_refl.
Qed.


(** X7. Whatever replies come, a request leaves the saved-plans ledger as
    it is, removes no key of the store, and keeps the value of every key
    outside the community namespace, the ledger's key among them. *)
Theorem request_frame (query : JsString) (events : list Event) (st : AppState) :
  exists st' ph,
    search query events st = Ok (st', ph)
    /\ savedTrails st' = savedTrails st
    /\ store_frame (localStorage st) (localStorage st')
    /\ getItem (localStorage st') plans_key = getItem (localStorage st) plans_key.
Proof.
  destruct (search_keeps query events st) as (st' & ph & l & E & _ & _ & S & F).
  exists st', ph. split; [exact E|]. split; [exact S|]. split; [exact F|].
  apply F. reflexivity.
Qed.

(** ** The record on display and the record stored *)




(** ** Basic results that are not records *)

Lemma resume_basic_null query br st :
  generateBasicTrailInfo br = Ok JNull ->
  resume_basic query br st = Ok (on_error st).
Proof. intros B. unfold resume_basic. rewrite B. reflexivity. Qed.

(** X9. After a cache miss, a basic reply whose text is the JSON [null] is
    handled as a failure: reading its name throws, the alert is shown and
    nothing else happens. Any other basic result goes on; when neither it nor
    the two later results have a name, the record is stored under the prefix
    followed by the word undefined. *)
Theorem basic_result_without_name (query : JsString) (st : AppState) :
  findLocalTrail query (localStorage st) = Ok JNull ->
  (forall br events,
     generateBasicTrailInfo br = Ok JNull ->
     exists st',
       search query (BasicReplied br :: events) st = Ok (st', Idle)
       /\ log st' = log st ++ [Call (basic_request query); Alert alert_message]
       /\ currentTrail st' = currentTrail st /\ view st' = view st
       /\ localStorage st' = localStorage st)
  /\
  (forall br b mr rr,
     generateBasicTrailInfo br = Ok b ->
     b <> JNull ->
     get_field b (js "name") = JUndefined ->
     own_get (stage_value (generateTrailMisc mr)) (js "name") = None ->
     own_get (stage_value (generateTrailRoutes rr)) (js "name") = None ->
     exists st',
       search query [BasicReplied br; MiscReplied mr; RoutesReplied rr] st
       = Ok (st', Idle)
       /\ alerts (log st') = alerts (log st)
       /\ writes (log st')
          = writes (log st) ++ [(js "ecotrek_community_undefined",
                                 JSON_stringify (final_of (partial_of b) mr rr))]).
Proof.
  intros F. split.
  - intros br events B. eexists. split.
    + unfold search. rewrite (handleSearch_miss _ _ F). cbn [bind run step].
      rewrite (resume_basic_null _ _ _ B). cbn [bind on_error]. apply run_idle.
    + cbn [log emit setIsLoading currentTrail view localStorage].
      rewrite <- app_assoc. repeat split.
  - intros br b mr rr B N G Gm Gr.
    pose proof (make_partialTrail_ok b N (stage_defined _ _ B)) as P.
    eexists. split; [|split].
    + rewrite search_cons, (search_basic_ok _ _ _ _ F B P). cbn [bind].
      apply run_misc_routes.
    + cbn [store_write emit log]. rewrite alerts_app, !settled_log, alerts_ready.
      cbn [alerts flat_map]. apply app_nil_r.
    + rewrite writes_store_write, !settled_log, writes_ready.
      unfold key_of. rewrite final_get, Gr, Gm.
      rewrite (partial_get_basic b (js "name")) by in_list. rewrite G. reflexivity.
Qed.

Lemma basic_result_without_name_witness :
  (exists st',
     search peak_query [BasicReplied (Response (Some (json "null")));
                        MiscReplied misc_reply] (initial []) = Ok (st', Idle)
     /\ log st' = log (initial []) ++ [Call (basic_request peak_query); Alert alert_message]
     /\ currentTrail st' = currentTrail (initial []) /\ view st' = view (initial [])
     /\ localStorage st' = localStorage (initial []))
  /\
  (exists st',
     search peak_query [BasicReplied (Response (Some (json "[7]")));
                        MiscReplied misc_reply; RoutesReplied routes_reply] (initial [])
     = Ok (st', Idle)
     /\ alerts (log st') = alerts (log (initial []))
     /\ writes (log st')
        = writes (log (initial []))
          ++ [(js "ecotrek_community_undefined",
               JSON_stringify (final_of (partial_of (JArray [JNumber 7 0]))
                                        misc_reply routes_reply))]).
Proof.
  destruct (basic_result_without_name peak_query (initial []) eq_refl) as [Null Nameless].
  split.
  - apply (Null (Response (Some (json "null"))) [MiscReplied misc_reply]).
    vm_compute. reflexivity.
  - apply (Nameless (Response (Some (json "[7]"))) (JArray [JNumber 7 0])
                    misc_reply routes_reply).
    + vm_compute. reflexivity.
    + discriminate.
    + vm_compute. reflexivity.
    + vm_compute. reflexivity.
    + vm_compute. reflexivity.
Defined.

(** ** The seeding effect *)

Lemma key_of_setItem s k v : exists i, key (setItem s k v) i = Some k.
Proof.
  induction s as [|[k1 v1] r IH]; simpl.
  - exists 0. reflexivity.
  - case_key k k1.
    + exists 0. reflexivity.
    + destruct IH as [i Hi]. exists (S i). exact Hi.
Qed.

(** X10. The seeding effect writes only when the seed's key has no value or
    the empty one. After it the key holds a value that is not empty; a value
    that was not empty is left as it is, with no write; running the effect
    again changes nothing; and no other key changes its value. *)
Theorem seed_effect_once (st : AppState) :
  (exists c t, getItem (localStorage (seed_effect st)) wugongKey = Some (c :: t))
  /\ (forall c t, getItem (localStorage st) wugongKey = Some (c :: t) ->
                  seed_effect st = st)
  /\ seed_effect (seed_effect st) = seed_effect st
  /\ (forall k, k <> wugongKey ->
                getItem (localStorage (seed_effect st)) k = getItem (localStorage st) k)
  /\ savedTrails (seed_effect st) = savedTrails st
  /\ currentTrail (seed_effect st) = currentTrail st.
Proof.
  assert (W : exists c t, JSON_stringify mockCommunityData = c :: t).
  { vm_compute. eexists _, _. reflexivity. }
  destruct W as (c0 & t0 & W).
  assert (After : getItem (localStorage
                             (store_write wugongKey (JSON_stringify mockCommunityData) st))
                          wugongKey = Some (c0 :: t0)).
  { cbn [store_write emit localStorage]. rewrite getItem_setItem, W. reflexivity. }
  assert (Again : seed_effect (store_write wugongKey (JSON_stringify mockCommunityData) st)
                  = store_write wugongKey (JSON_stringify mockCommunityData) st).
  { unfold seed_effect at 1. rewrite After. reflexivity. }
  unfold seed_effect.
  destruct (getItem (localStorage st) wugongKey) as [[|c t]|] eqn:G.
  - split; [exists c0, t0; exact After|]. split; [discriminate|].
    split; [exact Again|]. split; [|split; reflexivity].
    intros k Hk. cbn [store_write emit localStorage].
    apply getItem_setItem_other. exact Hk.
  - split; [exists c, t; exact G|]. split; [reflexivity|].
    split; [unfold seed_effect; rewrite G; reflexivity|].
    repeat split; auto.
  - split; [exists c0, t0; exact After|]. split; [discriminate|].
    split; [exact Again|]. split; [|split; reflexivity].
    intros k Hk. cbn [store_write emit localStorage].
    apply getItem_setItem_other. exact Hk.
Qed.

Lemma seed_effect_saved st : savedTrails (seed_effect st) = savedTrails st.
Proof.
  unfold seed_effect. destruct (getItem (localStorage st) wugongKey) as [[|c t]|];
    reflexivity.
Qed.

Lemma seed_record st :
  getItem (localStorage st) wugongKey = None
  \/ getItem (localStorage st) wugongKey = Some [] ->
  exists i, record_at (localStorage (seed_effect st)) i = Some mockCommunityData.
Proof.
  intros G.
  assert (E : seed_effect st
              = store_write wugongKey (JSON_stringify mockCommunityData) st).
  { unfold seed_effect. destruct G as [-> | ->]; reflexivity. }
  rewrite E. cbn [store_write emit localStorage].
  destruct (key_of_setItem (localStorage st) wugongKey (JSON_stringify mockCommunityData))
    as [i K].
  exists i. unfold record_at. rewrite K.
  assert (P : startsWith wugongKey community_prefix = true) by (vm_compute; reflexivity).
  rewrite P, getItem_setItem.
  assert (R : JSON_parse (JSON_stringify mockCommunityData) = Ok mockCommunityData)
    by (vm_compute; reflexivity).
  rewrite R. reflexivity.
Qed.

(** X11. On a store that has no value, or the empty one, under the seed's
    key, the seeding effect leaves a record of the seed data in the store;
    from then on a query that matches the seed's name is answered from the
    store by a matching record, with no provider call, whatever else the
    store holds. *)
Theorem seeded_query_is_cached (st : AppState) (query : JsString) :
  getItem (localStorage st) wugongKey = None
  \/ getItem (localStorage st) wugongKey = Some [] ->
  matches (trim (toLowerCase query)) mockCommunityData = true ->
  (exists i, record_at (localStorage (seed_effect st)) i = Some mockCommunityData)
  /\ exists d,
       findLocalTrail query (localStorage (seed_effect st)) = Ok d
       /\ matches (trim (toLowerCase query)) d = true
       /\ forall events,
            search query events (seed_effect st)
            = Ok (mkState guide false d (savedTrails st)
                          (localStorage (seed_effect st)) (log (seed_effect st)), Idle).
Proof.
  intros G M. destruct (seed_record st G) as [i R]. split; [exists i; exact R|].
  assert (H : hit (trim (toLowerCase query)) (localStorage (seed_effect st)) i
              = Some mockCommunityData).
  { apply hit_record. split; [exact R|exact M]. }
  destruct (first_hit_exists _ _ _ _ H) as (j & d & _ & Hj & Hfirst).
  pose proof (findLocalTrail_first _ _ _ _ Hj Hfirst) as F.
  apply hit_record in Hj as [Rj Mj].
  exists d. split; [exact F|]. split; [exact Mj|].
  intros events. rewrite (search_hit _ _ d events F (record_truthy _ _ _ Rj)).
  rewrite seed_effect_saved. reflexivity.
Qed.

Lemma seeded_query_is_cached_witness :
  (exists i, record_at (localStorage (seed_effect (initial zhe_store))) i
             = Some mockCommunityData)
  /\ exists d,
       findLocalTrail (js "武功山 Ж") (localStorage (seed_effect (initial zhe_store))) = Ok d
       /\ matches (trim (toLowerCase (js "武功山 Ж"))) d = true
       /\ d = JObject [(js "name", JString (js "Ж")); (js "location", JString (js "first"))]
       /\ forall events,
            search (js "武功山 Ж") events (seed_effect (initial zhe_store))
            = Ok (mkState guide false d (savedTrails (initial zhe_store))
                          (localStorage (seed_effect (initial zhe_store)))
                          (log (seed_effect (initial zhe_store))), Idle).
Proof.
  destruct (seeded_query_is_cached (initial zhe_store) (js "武功山 Ж"))
    as (R & d & F & M & S).
  - left. reflexivity.
  - vm_compute. reflexivity.
  - split; [exact R|]. exists d. split; [exact F|]. split; [exact M|]. split; [|exact S].
    assert (F' : findLocalTrail (js "武功山 Ж")
                   (localStorage (seed_effect (initial zhe_store)))
                 = Ok (JObject [(js "name", JString (js "Ж"));
                                (js "location", JString (js "first"))]))
      by (vm_compute; reflexivity).
    rewrite F' in F. injection F as <-. reflexivity.
Defined.

(** ** Updating a trail and the ledger *)

Lemma update_saved updatedTrail st :
  savedTrails (handleUpdateTrail updatedTrail st)
  = match find (same_name updatedTrail) (savedTrails st) with
    | Some _ => map (fun t => if same_name updatedTrail t then updatedTrail else t)
                    (savedTrails st)
    | None => updatedTrail :: savedTrails st
    end.
Proof.
  unfold handleUpdateTrail. cbn [savedTrails setCurrentTrail store_write emit].
  destruct (find (same_name updatedTrail) (savedTrails st)); reflexivity.
Qed.

Lemma save_saved trail st :
  savedTrails (handleSaveTrail trail st)
  = match find (same_name trail) (savedTrails st) with
    | Some _ => map (fun t => if same_name trail t then trail else t) (savedTrails st)
    | None => savedTrails st ++ [trail]
    end.
Proof.
  unfold handleSaveTrail. destruct (find (same_name trail) (savedTrails st)); reflexivity.
Qed.

Lemma update_store updatedTrail st :
  localStorage (handleUpdateTrail updatedTrail st)
  = setItem (setItem (localStorage st)
                     (community_prefix ++ to_string (name_of updatedTrail))
                     (JSON_stringify (JObject updatedTrail)))
            plans_key (ledger_text (savedTrails (handleUpdateTrail updatedTrail st))).
Proof.
  rewrite update_saved. unfold handleUpdateTrail.
  cbn [savedTrails setCurrentTrail store_write emit].
  destruct (find (same_name updatedTrail) (savedTrails st)); reflexivity.
Qed.

Lemma save_store trail st :
  localStorage (handleSaveTrail trail st)
  = setItem (localStorage st) plans_key
            (ledger_text (savedTrails (handleSaveTrail trail st))).
Proof.
  rewrite save_saved. unfold handleSaveTrail.
  destruct (find (same_name trail) (savedTrails st)); reflexivity.
Qed.

Lemma plans_key_outside x : plans_key <> community_prefix ++ x.
Proof. intros E. vm_compute in E. discriminate E. Qed.

Lemma in_replaced (trail : TrailData) l t0 :
  In t0 l -> same_name trail t0 = true ->
  In trail (map (fun t => if same_name trail t then trail else t) l).
Proof.
  intros Hin Ht. apply in_map_iff. exists t0. rewrite Ht. split; [reflexivity|exact Hin].
Qed.

Lemma updated_is_saved updatedTrail st :
  In updatedTrail (savedTrails (handleUpdateTrail updatedTrail st)).
Proof.
  rewrite update_saved.
  destruct (find (same_name updatedTrail) (savedTrails st)) as [t|] eqn:E.
  - apply find_some in E as [Hin Ht]. exact (in_replaced _ _ _ Hin Ht).
  - left. reflexivity.
Qed.

Lemma same_name_string t : string_named t -> same_name t t = true.
Proof. intros [n Hn]. unfold same_name. rewrite Hn. apply str_eqb_refl. Qed.

(** X12. An update from the editor puts the trail on display, stores its
    text under the prefix followed by its name, and enters it in the ledger:
    at the front when no entry has its name, at the place of the entry of
    that name otherwise. Afterwards the trail is in the ledger, and when its
    name is a string the guide view shows it as saved. *)
Theorem update_trail (updatedTrail : TrailData) (st : AppState) :
  currentTrail (handleUpdateTrail updatedTrail st) = JObject updatedTrail
  /\ ((forall t, In t (savedTrails st) -> same_name updatedTrail t = false) ->
      savedTrails (handleUpdateTrail updatedTrail st) = updatedTrail :: savedTrails st)
  /\ ((exists t, In t (savedTrails st) /\ same_name updatedTrail t = true) ->
      savedTrails (handleUpdateTrail updatedTrail st)
      = map (fun t => if same_name updatedTrail t then updatedTrail else t)
            (savedTrails st))
  /\ In updatedTrail (savedTrails (handleUpdateTrail updatedTrail st))
  /\ getItem (localStorage (handleUpdateTrail updatedTrail st))
             (community_prefix ++ to_string (name_of updatedTrail))
     = Some (JSON_stringify (JObject updatedTrail))
  /\ (string_named updatedTrail ->
      isCurrentSaved (handleUpdateTrail updatedTrail st) = true).
Proof.
  assert (C : currentTrail (handleUpdateTrail updatedTrail st) = JObject updatedTrail).
  { unfold handleUpdateTrail. cbn [savedTrails setCurrentTrail store_write emit].
    destruct (find (same_name updatedTrail) (savedTrails st)); reflexivity. }
  split; [exact C|]. split; [|split; [|split; [|split]]].
  - intros H. apply find_none_iff in H. rewrite update_saved, H. reflexivity.
  - intros (t & Hin & Ht). rewrite update_saved.
    destruct (find (same_name updatedTrail) (savedTrails st)) eqn:E; [reflexivity|].
    rewrite (find_none _ _ E t Hin) in Ht. discriminate.
  - apply updated_is_saved.
  - rewrite update_store, getItem_setItem_other by (apply not_eq_sym, plans_key_outside).
    apply getItem_setItem.
  - intros Hn. unfold isCurrentSaved. rewrite C. cbn [truthy get_field].
    destruct (find _ (savedTrails (handleUpdateTrail updatedTrail st))) eqn:E;
      [reflexivity|].
    pose proof (find_none _ _ E updatedTrail (updated_is_saved _ _)) as N.
    cbn beta in N. fold (name_of updatedTrail) in N.
    change (same_name updatedTrail updatedTrail = false) in N.
    rewrite (same_name_string _ Hn) in N. discriminate.
Qed.

(** X13. The ledger in the store follows the ledger in the state: after a
    save, and after an update, the text under the ledger's key is the
    serialization of the new ledger. A save leaves every other key of the
    store alone; an update writes one more key, that of the updated name, so
    an entry stored under another name, an earlier name of the same trail
    included, stays as it is. *)
Theorem ledger_is_persisted (trail : TrailData) (st : AppState) :
  (getItem (localStorage (handleSaveTrail trail st)) plans_key
   = Some (ledger_text (savedTrails (handleSaveTrail trail st)))
   /\ (forall k, k <> plans_key ->
                 getItem (localStorage (handleSaveTrail trail st)) k
                 = getItem (localStorage st) k)
   /\ writes (log (handleSaveTrail trail st))
      = writes (log st)
        ++ [(plans_key, ledger_text (savedTrails (handleSaveTrail trail st)))])
  /\
  (getItem (localStorage (handleUpdateTrail trail st)) plans_key
   = Some (ledger_text (savedTrails (handleUpdateTrail trail st)))
   /\ (forall k, k <> plans_key ->
                 k <> community_prefix ++ to_string (name_of trail) ->
                 getItem (localStorage (handleUpdateTrail trail st)) k
                 = getItem (localStorage st) k)
   /\ writes (log (handleUpdateTrail trail st))
      = writes (log st)
        ++ [(community_prefix ++ to_string (name_of trail),
             JSON_stringify (JObject trail));
            (plans_key, ledger_text (savedTrails (handleUpdateTrail trail st)))]).
Proof.
  split; (split; [|split]).
  - rewrite save_store. apply getItem_setItem.
  - intros k Hk. rewrite save_store. apply getItem_setItem_other. exact Hk.
  - rewrite save_saved. unfold handleSaveTrail.
    destruct (find (same_name trail) (savedTrails st));
      cbn [setSavedTrails store_write emit log]; rewrite writes_app; reflexivity.
  - rewrite update_store. apply getItem_setItem.
  - intros k Hk Hk'. rewrite update_store.
    rewrite getItem_setItem_other by exact Hk.
    apply getItem_setItem_other. exact Hk'.
  - rewrite update_saved. unfold handleUpdateTrail.
    cbn [savedTrails setCurrentTrail store_write emit log].
    destruct (find (same_name trail) (savedTrails st));
      cbn [setSavedTrails store_write emit log savedTrails];
      rewrite !writes_app, <- app_assoc; reflexivity.
Qed.

Lemma same_name_eq t u :
  string_named t -> (same_name t u = true <-> name_of u = name_of t).
Proof.
  intros [n Hn]. unfold same_name. rewrite Hn.
  destruct (name_of u) as [| |b|m e|s|items|o]; cbn [strict_eq];
    try (split; [discriminate|discriminate]).
  split.
  - intros H. apply str_eqb_eq in H. congruence.
  - intros [= ->]. apply str_eqb_refl.
Qed.

Lemma replaced_names (trail : TrailData) l :
  string_named trail ->
  map name_of (map (fun t => if same_name trail t then trail else t) l)
  = map name_of l.
Proof.
  intros Hn. rewrite map_map. apply map_ext. intros t.
  destruct (same_name trail t) eqn:E; [|reflexivity].
  apply (same_name_eq _ _ Hn) in E. congruence.
Qed.

Lemma replaced_string_named (trail : TrailData) l :
  string_named trail -> Forall string_named l ->
  Forall string_named (map (fun t => if same_name trail t then trail else t) l).
Proof.
  intros Hn Hl. apply Forall_map. apply (Forall_impl _ (P := string_named)); [|exact Hl].
  intros t Ht. destruct (same_name trail t); assumption.
Qed.

Lemma name_fresh (trail : TrailData) l :
  string_named trail ->
  find (same_name trail) l = None -> ~ In (name_of trail) (map name_of l).
Proof.
  intros Hn F Hin. apply in_map_iff in Hin as (t & Ht & Hin).
  pose proof (find_none _ _ F t Hin) as N.
  apply (same_name_eq _ _ Hn) in Ht. congruence.
Qed.

(** X14. A ledger in which every name is a string and no two entries have
    the same name stays so under a save and under an update of a trail whose
    name is a string. *)
Theorem ledger_names_stay_distinct (trail : TrailData) (st : AppState) :
  well_named (savedTrails st) ->
  string_named trail ->
  well_named (savedTrails (handleSaveTrail trail st))
  /\ well_named (savedTrails (handleUpdateTrail trail st)).
Proof.
  intros [Hs Hd] Hn. rewrite save_saved, update_saved.
  destruct (find (same_name trail) (savedTrails st)) as [t|] eqn:F.
  - assert (W : well_named (map (fun t => if same_name trail t then trail else t)
                                (savedTrails st))).
    { split; [apply replaced_string_named; assumption|].
      rewrite replaced_names by exact Hn. exact Hd. }
    split; exact W.
  - pose proof (name_fresh _ _ Hn F) as Fresh. split; split.
    + apply Forall_app. split; [exact Hs|]. constructor; [exact Hn|constructor].
    + rewrite map_app. apply NoDup_app; [exact Hd| |].
      * constructor; [intros []|constructor].
      * intros a Ha [<-|[]]. exact (Fresh Ha).
    + constructor; assumption.
    + cbn [map]. constructor; assumption.
Qed.

Lemma ledger_names_stay_distinct_witness :
  well_named (savedTrails (handleSaveTrail alps_revised (with_plans [alps; andes])))
  /\ well_named (savedTrails (handleUpdateTrail alps_revised (with_plans [alps; andes]))).
Proof.
  apply (ledger_names_stay_distinct alps_revised (with_plans [alps; andes])).
  - split.
    + repeat constructor; eexists; reflexivity.
    + cbn. repeat constructor; cbn; intuition discriminate.
  - eexists. reflexivity.
Defined.

(** ** The search forms *)

Lemma normalized_nil query : trim (toLowerCase query) = [] <-> trim query = [].
Proof. rewrite !trim_nil, spaces_lower. reflexivity. Qed.

(** X15. The two search forms hand an input on exactly when it has a
    character that is not white space: a blank input is dropped, with no
    change of state and no call, and the guide view's form keeps its text. An
    input that is handed on never normalizes to the empty query, so the empty
    query, which matches every stored record, is never what a form sends. *)
Theorem forms_never_send_blank (input : JsString) (st : AppState) :
  (trim input = [] ->
   HeroSearch.handleSubmit input st = Ok (st, Idle)
   /\ TrailGuideView.handleSearchSubmit input st = (Ok (st, Idle), input))
  /\ (trim input <> [] ->
      HeroSearch.handleSubmit input st = handleSearch input st
      /\ TrailGuideView.handleSearchSubmit input st = (handleSearch input st, [])
      /\ trim (toLowerCase input) <> [])
  /\ (trim (toLowerCase input) = [] <-> forallb is_space input = true).
Proof.
  unfold HeroSearch.handleSubmit, TrailGuideView.handleSearchSubmit.
  split; [|split].
  - intros ->. split; reflexivity.
  - intros H. destruct (trim input) as [|c t] eqn:T; [congruence|].
    cbn [truthy]. repeat split. rewrite normalized_nil, T. discriminate.
  - rewrite normalized_nil. apply trim_nil.
Qed.

(** ** The segment editor *)

Lemma filter_index_spec {A} (l : list A) : forall i index,
  i <= index ->
  TrailGuideView.filter_index l i index
  = firstn (index - i) l ++ skipn (S (index - i)) l.
Proof.
  induction l as [|x r IH]; intros i index H.
  - cbn [TrailGuideView.filter_index]. rewrite firstn_nil, skipn_nil. reflexivity.
  - cbn [TrailGuideView.filter_index]. destruct (Nat.eqb_spec i index) as [->|Hne].
    + rewrite Nat.sub_diag. cbn [firstn skipn app].
      clear IH H. revert index. induction r as [|y r IHr]; intros index; [reflexivity|].
      cbn [TrailGuideView.filter_index].
      destruct (Nat.eqb_spec (S index) index) as [E|_]; [lia|].
      f_equal. 
      assert (G : forall (l : list A) i, index < i ->
                    TrailGuideView.filter_index l i index = l).
      { clear. induction l as [|z l IHl]; intros i Hi; [reflexivity|].
        cbn [TrailGuideView.filter_index].
        destruct (Nat.eqb_spec i index); [lia|]. f_equal. apply IHl. lia. }
      apply G. lia.
    + rewrite (IH (S i) index) by lia.
      replace (index - i) with (S (index - S i)) by lia. reflexivity.
Qed.

(** X16. Removing the node at an index of the editor's timeline keeps the
    nodes before it and the nodes after it, in their order; an index beyond
    the end removes nothing; the rest of the editor is as it was. *)
Theorem remove_timeline_node (index : nat) (ed : TrailGuideView.Editor) :
  TrailGuideView.timelineNodes (TrailGuideView.removeTimelineNode index ed)
  = firstn index (TrailGuideView.timelineNodes ed)
    ++ skipn (S index) (TrailGuideView.timelineNodes ed)
  /\ (index < List.length (TrailGuideView.timelineNodes ed) ->
      S (List.length (TrailGuideView.timelineNodes
                        (TrailGuideView.removeTimelineNode index ed)))
      = List.length (TrailGuideView.timelineNodes ed))
  /\ (List.length (TrailGuideView.timelineNodes ed) <= index ->
      TrailGuideView.removeTimelineNode index ed = ed).
Proof.
  assert (E : TrailGuideView.timelineNodes (TrailGuideView.removeTimelineNode index ed)
              = firstn index (TrailGuideView.timelineNodes ed)
                ++ skipn (S index) (TrailGuideView.timelineNodes ed)).
  { cbn [TrailGuideView.removeTimelineNode TrailGuideView.timelineNodes].
    rewrite filter_index_spec by lia. rewrite Nat.sub_0_r. reflexivity. }
  split; [exact E|]. split.
  - intros H. rewrite E, length_app, length_firstn, length_skipn. lia.
  - intros H. destruct ed as [a n l t]. unfold TrailGuideView.removeTimelineNode.
    cbn [TrailGuideView.isAddingSegment TrailGuideView.newSegment
         TrailGuideView.timelineNodes TrailGuideView.toastMessage] in *.
    rewrite filter_index_spec by lia. rewrite Nat.sub_0_r.
    rewrite firstn_all2 by exact H. rewrite skipn_all2 by lia.
    rewrite app_nil_r. reflexivity.
Qed.

Lemma update_current updatedTrail st :
  currentTrail (handleUpdateTrail updatedTrail st) = JObject updatedTrail.
Proof.
  unfold handleUpdateTrail. cbn [savedTrails setCurrentTrail store_write emit].
  destruct (find (same_name updatedTrail) (savedTrails st)); reflexivity.
Qed.

Lemma update_stored updatedTrail st :
  getItem (localStorage (handleUpdateTrail updatedTrail st))
          (community_prefix ++ to_string (name_of updatedTrail))
  = Some (JSON_stringify (JObject updatedTrail)).
Proof.
  rewrite update_store, getItem_setItem_other by (apply not_eq_sym, plans_key_outside).
  apply getItem_setItem.
Qed.

Lemma obj_get_spread1 k a : obj_get k (own_props (spread [a])) = obj_get k (own_props a).
Proof.
  unfold spread. cbn [fold_left own_props]. rewrite obj_get_assign.
  destruct (obj_get k (own_props a)); reflexivity.
Qed.

Lemma summary_bound parts long :
  1 <= List.length long <= 20 ->
  1 <= List.length (TrailGuideView.summary parts long) <= 20.
Proof.
  intros H. unfold TrailGuideView.summary.
  set (total := TrailGuideView.or_default _ _).
  destruct (Nat.ltb_spec 20 (List.length total)) as [L|L]; [exact H|].
  split; [|exact L]. subst total. unfold TrailGuideView.or_default.
  destruct (TrailGuideView.array_join _ _) as [|c r]; [vm_compute; lia|cbn; lia].
Qed.

(** X17. The segment that the editor generates keeps the name typed in,
    takes the editor's nodes as its timeline and an empty path, and
    summarizes distance and time in a text that is never empty and never
    longer than twenty code units. *)
Theorem generated_segment (newSegment : Props) (timelineNodes : list Props) :
  get_field (TrailGuideView.makeSegment newSegment timelineNodes) (js "name")
  = TrailGuideView.field newSegment (js "name")
  /\ get_field (TrailGuideView.makeSegment newSegment timelineNodes) (js "timeline")
     = JArray (map JObject timelineNodes)
  /\ get_field (TrailGuideView.makeSegment newSegment timelineNodes) (js "path")
     = JArray []
  /\ (exists d,
        get_field (TrailGuideView.makeSegment newSegment timelineNodes) (js "distance")
        = JString d /\ 1 <= List.length d <= 20)
  /\ (exists t,
        get_field (TrailGuideView.makeSegment newSegment timelineNodes) (js "time")
        = JString t /\ 1 <= List.length t <= 20).
Proof.
  unfold TrailGuideView.makeSegment. cbn [get_field]. rewrite !obj_get_set.
  assert (N : forall a b : JsString, str_eqb a b = false ->
                forall (x : option JsValue) y, (if str_eqb a b then x else y) = y).
  { intros a b E x y. rewrite E. reflexivity. }
  split; [|split; [|split; [|split]]].
  - rewrite !N by reflexivity. rewrite obj_get_spread1. reflexivity.
  - rewrite !N by reflexivity. rewrite str_eqb_refl. reflexivity.
  - rewrite str_eqb_refl. reflexivity.
  - rewrite !N by reflexivity. rewrite str_eqb_refl. eexists. split; [reflexivity|].
    apply summary_bound. vm_compute. lia.
  - rewrite !N by reflexivity. rewrite str_eqb_refl. eexists. split; [reflexivity|].
    apply summary_bound. vm_compute. lia.
Qed.

(** X18. The editor adds a segment only to a named draft with at least two
    nodes: otherwise it shows a message and changes nothing else, neither in
    the editor nor in the application. When it accepts, the trail on display
    gets the generated segment after the segments it had and keeps every
    other field; the trail is stored under its name and entered in the
    ledger; and the editor is reset. Route segments that cannot be iterated
    make the handler raise before anything is changed. *)
Theorem add_segment (data : TrailData) (ed : TrailGuideView.Editor) (st : AppState) :
  (truthy (TrailGuideView.field (TrailGuideView.newSegment ed) (js "name")) = false
   \/ List.length (TrailGuideView.timelineNodes ed) < 2 ->
   exists msg,
     TrailGuideView.handleAddSegment data ed st
     = Ok (TrailGuideView.showToast msg ed, st))
  /\
  (truthy (TrailGuideView.field (TrailGuideView.newSegment ed) (js "name")) = true ->
   2 <= List.length (TrailGuideView.timelineNodes ed) ->
   (forall e, segments_of data = Throw e ->
              TrailGuideView.handleAddSegment data ed st = Throw e)
   /\
   (forall segments,
      segments_of data = Ok segments ->
      exists ed' st',
        TrailGuideView.handleAddSegment data ed st = Ok (ed', st')
        /\ get_field (currentTrail st') (js "routeSegments")
           = JArray (segments
                     ++ [TrailGuideView.makeSegment (TrailGuideView.newSegment ed)
                                                    (TrailGuideView.timelineNodes ed)])
        /\ (forall k, k <> js "routeSegments" ->
                      get_field (currentTrail st') k = TrailGuideView.field data k)
        /\ In (own_props (currentTrail st')) (savedTrails st')
        /\ getItem (localStorage st')
                   (community_prefix ++ to_string (TrailGuideView.field data (js "name")))
           = Some (JSON_stringify (currentTrail st'))
        /\ TrailGuideView.isAddingSegment ed' = false
        /\ TrailGuideView.newSegment ed' = TrailGuideView.blankSegment
        /\ TrailGuideView.timelineNodes ed' = [])).
Proof.
  unfold TrailGuideView.handleAddSegment. split.
  - intros [T|L].
    + rewrite T. eexists. reflexivity.
    + destruct (truthy _); cbn [negb]; [|eexists; reflexivity].
      apply Nat.ltb_lt in L. rewrite L. eexists. reflexivity.
  - intros T L. rewrite T. cbn [negb].
    apply Nat.ltb_ge in L. rewrite L. fold (segments_of data). split.
    + intros e E. rewrite E. reflexivity.
    + intros segments E. rewrite E. cbn [bind]. eexists _, _. split; [reflexivity|].
      rewrite update_current. cbn [own_props get_field].
      split; [|split; [|split; [|split]]].
      * rewrite obj_get_set, str_eqb_refl. reflexivity.
      * intros k Hk. rewrite obj_get_set. apply str_eqb_neq in Hk. rewrite Hk.
        rewrite obj_get_spread1. reflexivity.
      * apply updated_is_saved.
      * match goal with
        | |- getItem (localStorage (handleUpdateTrail ?u _)) _ = _ =>
          rewrite <- (update_stored u st); f_equal; f_equal; f_equal
        end.
        unfold TrailGuideView.field, name_of. cbn [get_field].
        rewrite obj_get_set. 
        assert (Ne : str_eqb (js "name") (js "routeSegments") = false) by reflexivity.
        rewrite Ne, obj_get_spread1. reflexivity.
      * repeat split.
Qed.

Lemma add_segment_witness :
  (exists msg,
     TrailGuideView.handleAddSegment alps
       (TrailGuideView.mkEditor true TrailGuideView.blankSegment [] None) (with_plans [])
     = Ok (TrailGuideView.showToast msg
             (TrailGuideView.mkEditor true TrailGuideView.blankSegment [] None),
           with_plans []))
  /\ exists ed' st',
       TrailGuideView.handleAddSegment alps
         (TrailGuideView.mkEditor true [(js "name", JString (js "Ridge"))]
            [[(js "name", JString (js "A")); (js "distance", JString (js "1km"))];
             [(js "name", JString (js "B"))]] None)
         (with_plans [])
       = Ok (ed', st')
       /\ get_field (currentTrail st') (js "routeSegments")
          = JArray ([] ++ [TrailGuideView.makeSegment [(js "name", JString (js "Ridge"))]
                            [[(js "name", JString (js "A"));
                              (js "distance", JString (js "1km"))];
                             [(js "name", JString (js "B"))]]])
       /\ get_field (currentTrail st') (js "length") = JString (js "10km")
       /\ In (own_props (currentTrail st')) (savedTrails st').
Proof.
  split.
  - destruct (add_segment alps
                (TrailGuideView.mkEditor true TrailGuideView.blankSegment [] None)
                (with_plans [])) as [Reject _].
    apply Reject. left. reflexivity.
  - destruct (add_segment alps
                (TrailGuideView.mkEditor true [(js "name", JString (js "Ridge"))]
                   [[(js "name", JString (js "A")); (js "distance", JString (js "1km"))];
                    [(js "name", JString (js "B"))]] None)
                (with_plans [])) as [_ Accept].
    destruct Accept as [_ Accept]; [reflexivity|cbn; lia|].
    destruct (Accept [] eq_refl) as (ed' & st' & E & R & K & I & _).
    exists ed', st'. split; [exact E|]. split; [exact R|]. split; [|exact I].
    rewrite K by (vm_compute; discriminate). reflexivity.
Defined.

(* ===================================================================== *)
(** * What is written to the store can be read back *)
(* ===================================================================== *)

Local Open Scope N_scope.

(** ** String literals *)

Lemma hex_value_digit n : n < 16 -> hex_value (hex_digit n) = Some n.
Proof.
  intros H. unfold hex_digit, hex_value, is_digit.
  destruct (N.ltb_spec n 10) as [L|L].
  - replace ((48 <=? 48 + n) && (48 + n <=? 57))%N with true.
    + f_equal. lia.
    + symmetry. apply andb_true_intro. split; apply N.leb_le; lia.
  - replace ((48 <=? 87 + n) && (87 + n <=? 57))%N with false.
    + replace ((97 <=? 87 + n) && (87 + n <=? 102))%N with true.
      * f_equal. lia.
      * symmetry. apply andb_true_intro. split; apply N.leb_le; lia.
    + symmetry. apply andb_false_iff. right. apply N.leb_gt. lia.
Qed.

Lemma hex4_escape c :
  c < 65536 ->
  hex4 (hex_digit (c / 4096)) (hex_digit ((c / 256) mod 16))
       (hex_digit ((c / 16) mod 16)) (hex_digit (c mod 16)) = Some c.
Proof.
  intros H. unfold hex4.
  rewrite !hex_value_digit.
  - f_equal.
    pose proof (N.div_mod c 4096). pose proof (N.div_mod c 256). pose proof (N.div_mod c 16).
    pose proof (N.div_mod (c / 256) 16). pose proof (N.div_mod (c / 16) 16).
    pose proof (N.Div0.div_div c 16 16). pose proof (N.Div0.div_div c 256 16).
    pose proof (N.mod_lt c 16). pose proof (N.mod_lt (c/16) 16). pose proof (N.mod_lt (c / 256) 16).
    change (16 * 16) with 256 in *. change (256 * 16) with 4096 in *.
    lia.
  - apply N.mod_lt. discriminate.
  - apply N.mod_lt. discriminate.
  - apply N.mod_lt. discriminate.
  - apply N.Div0.div_lt_upper_bound. exact H.
Qed.

Lemma parse_chars_escape c rest :
  c < 65536 ->
  forall X s, parse_chars X = Some (s, rest) ->
  parse_chars (unicode_escape c ++ X) = Some (c :: s, rest).
Proof.
  intros H X s P. unfold unicode_escape. cbn [app parse_chars].
  change (92 =? 34) with false. change (92 =? 92) with true.
  change (117 =? 117) with true. cbv iota.
  rewrite (hex4_escape c H), P. reflexivity.
Qed.

Lemma parse_chars_plain c X s rest :
  c <> 34 -> c <> 92 -> 32 <= c ->
  parse_chars X = Some (s, rest) ->
  parse_chars (c :: X) = Some (c :: s, rest).
Proof.
  intros A B C P. cbn [parse_chars].
  apply N.eqb_neq in A, B. rewrite A, B.
  destruct (N.ltb_spec c 32); [lia|]. rewrite P. reflexivity.
Qed.

Lemma parse_chars_simple e u X s rest :
  e <> 117 -> simple_escape e = Some u ->
  parse_chars X = Some (s, rest) ->
  parse_chars (92 :: e :: X) = Some (u :: s, rest).
Proof.
  intros A B P. cbn [parse_chars].
  change (92 =? 34) with false. change (92 =? 92) with true. cbv iota.
  apply N.eqb_neq in A. rewrite A, B, P. reflexivity.
Qed.

Lemma parse_chars_quote rest : forall n s,
  (List.length s <= n)%nat ->
  parse_chars (quote_chars s ++ 34 :: rest) = Some (s, rest).
Proof.
  induction n as [|n IH]; intros s L.
  - destruct s; [|cbn in L; lia]. cbn. reflexivity.
  - destruct s as [|c r]; [cbn; reflexivity|].
    cbn [List.length] in L.
    assert (IHr : parse_chars (quote_chars r ++ 34 :: rest) = Some (r, rest))
      by (apply IH; lia).
    cbn [quote_chars].
    destruct (N.eqb_spec c 8) as [->|N8].
    { apply (parse_chars_simple 98 8); [discriminate|reflexivity|exact IHr]. }
    destruct (N.eqb_spec c 9) as [->|N9].
    { apply (parse_chars_simple 116 9); [discriminate|reflexivity|exact IHr]. }
    destruct (N.eqb_spec c 10) as [->|N10].
    { apply (parse_chars_simple 110 10); [discriminate|reflexivity|exact IHr]. }
    destruct (N.eqb_spec c 12) as [->|N12].
    { apply (parse_chars_simple 102 12); [discriminate|reflexivity|exact IHr]. }
    destruct (N.eqb_spec c 13) as [->|N13].
    { apply (parse_chars_simple 114 13); [discriminate|reflexivity|exact IHr]. }
    destruct (N.eqb_spec c 34) as [->|N34].
    { apply (parse_chars_simple 34 34); [discriminate|reflexivity|exact IHr]. }
    destruct (N.eqb_spec c 92) as [->|N92].
    { apply (parse_chars_simple 92 92); [discriminate|reflexivity|exact IHr]. }
    destruct (N.ltb_spec c 32) as [L32|G32].
    { rewrite <- app_assoc. apply parse_chars_escape; [lia|exact IHr]. }
    destruct (is_high c) eqn:Hi.
    { unfold is_high in Hi. apply andb_prop in Hi as [H1 H2]. apply N.leb_le in H1, H2.
      destruct r as [|d r'].
      - rewrite <- (app_nil_r (unicode_escape c)), <- app_assoc.
        apply parse_chars_escape; [lia|reflexivity].
      - destruct (is_low d) eqn:Lo.
        + unfold is_low in Lo. apply andb_prop in Lo as [L1 L2]. apply N.leb_le in L1, L2.
          cbn [app]. apply parse_chars_plain; try lia.
          apply parse_chars_plain; try lia.
          apply IH. cbn [List.length] in L. lia.
        + rewrite <- app_assoc. apply parse_chars_escape; [lia|exact IHr]. }
    destruct (is_low c) eqn:Lo.
    { unfold is_low in Lo. apply andb_prop in Lo as [L1 L2]. apply N.leb_le in L1, L2.
      rewrite <- app_assoc. apply parse_chars_escape; [lia|exact IHr]. }
    cbn [app]. apply parse_chars_plain; try assumption.
Qed.

Lemma parse_quote s rest : parse_chars (quote_chars s ++ 34 :: rest) = Some (s, rest).
Proof. apply (parse_chars_quote rest (List.length s)). lia. Qed.

(** ** Number literals *)


Lemma take_digits_app ds rest :
  forallb is_digit ds = true ->
  match rest with [] => True | c :: _ => is_digit c = false end ->
  take_digits (ds ++ rest) = (ds, rest).
Proof.
  intros D R. induction ds as [|d ds IH]; cbn [app].
  - destruct rest as [|c r]; [reflexivity|]. cbn [take_digits]. rewrite R. reflexivity.
  - cbn [forallb] in D. apply andb_prop in D as [Dd Dr].
    cbn [take_digits]. rewrite Dd, (IH Dr). reflexivity.
Qed.



Lemma parse_number_text neg ints fs ex rest :
  forallb is_digit ints = true -> well_formed_int ints = true ->
  forallb is_digit fs = true ->
  match ex with
  | None => True
  | Some (_, es) => forallb is_digit es = true /\ es <> []
  end ->
  ends_value rest ->
  parse_number (number_text neg ints fs ex ++ rest)
  = Some (number_read neg ints fs ex, rest).
Proof.
  intros Di Wi Df Ex R.
  assert (Rd : match rest with [] => True | c :: _ => is_digit c = false end).
  { destruct rest as [|c r]; [exact I|]. destruct R as [->|[->| ->]]; reflexivity. }
  assert (R46 : match rest with [] => True | c :: _ => (c =? 46) = false end).
  { destruct rest as [|c r]; [exact I|]. destruct R as [->|[->| ->]]; reflexivity. }
  assert (Re : match rest with [] => True | c :: _ => (c =? 101) || (c =? 69) = false end).
  { destruct rest as [|c r]; [exact I|]. destruct R as [->|[->| ->]]; reflexivity. }
  set (etxt := match ex with
               | None => []
               | Some (eneg, es) => 101 :: (if eneg then 45 else 43) :: es
               end).
  set (ftxt := match fs with [] => [] | _ => 46 :: fs end).
  (* the exponent part *)
  assert (E : forall (A : Type) (k : option (Z * JsString) -> A),
             k (match etxt ++ rest with
                | c :: r =>
                  if (c =? 101) || (c =? 69) then
                    let '(eneg, r') :=
                      match r with
                      | d :: r2 => if d =? 45 then (true, r2)
                                   else if d =? 43 then (false, r2)
                                   else (false, r)
                      | [] => (false, r)
                      end in
                    let '(es, s4) := take_digits r' in
                    match es with
                    | [] => None
                    | _ => let e := Z.of_N (digits_value es) in
                           Some (if eneg then (- e)%Z else e, s4)
                    end
                  else Some (0%Z, etxt ++ rest)
                | [] => Some (0%Z, etxt ++ rest)
                end)
             = k (Some (match ex with
                        | None => 0%Z
                        | Some (eneg, es) =>
                          let e := Z.of_N (digits_value es) in
                          if eneg then (- e)%Z else e
                        end, rest))).
  { intros A k. subst etxt. destruct ex as [[eneg es]|].
    - destruct Ex as [De Ne]. cbn [app].
      change ((101 =? 101) || (101 =? 69)) with true. cbv iota.
      destruct eneg.
      + change (45 =? 45) with true. cbv iota.
        rewrite (take_digits_app es rest De Rd).
        destruct es; [congruence|]. reflexivity.
      + change (43 =? 45) with false. change (43 =? 43) with true. cbv iota.
        rewrite (take_digits_app es rest De Rd).
        destruct es; [congruence|]. reflexivity.
    - cbn [app]. destruct rest as [|c r]; [reflexivity|]. rewrite Re. reflexivity. }
  assert (H46 : match etxt ++ rest with [] => True | c :: _ => (c =? 46) = false end).
  { subst etxt. destruct ex as [[eneg es]|]; [reflexivity|exact R46]. }
  assert (Hd : match etxt ++ rest with [] => True | c :: _ => is_digit c = false end).
  { subst etxt. destruct ex as [[eneg es]|]; [reflexivity|exact Rd]. }
  assert (Hf : match ftxt ++ etxt ++ rest with
               | [] => True | c :: _ => is_digit c = false end).
  { subst ftxt. destruct fs; [exact Hd|reflexivity]. }
  (* the sign and the integer part *)
  assert (S : forall A (k : bool * JsString -> A),
             k (match number_text neg ints fs ex ++ rest with
                | c :: r => if c =? 45 then (true, r)
                            else (false, number_text neg ints fs ex ++ rest)
                | [] => (false, number_text neg ints fs ex ++ rest)
                end)
             = k (neg, ints ++ ftxt ++ etxt ++ rest)).
  { intros A k. unfold number_text. fold ftxt. fold etxt. destruct neg.
    - cbn [app]. change (45 =? 45) with true. cbv iota.
      rewrite <- !app_assoc. reflexivity.
    - cbn [app]. rewrite <- !app_assoc.
      destruct ints as [|i0 ir]; [discriminate|].
      cbn [app]. cbn [forallb] in Di. apply andb_prop in Di as [Di0 _].
      destruct (N.eqb_spec i0 45) as [->|_]; [discriminate|]. reflexivity. }
  unfold parse_number.
  rewrite (S _ (fun p => let '(neg0, s1) := p in _)). cbv beta iota.
  rewrite (take_digits_app ints _ Di Hf). cbv beta iota.
  rewrite Wi. cbn [negb]. cbv iota.
  unfold number_read.
  subst ftxt. destruct fs as [|f0 fr].
  - cbn [app]. 
    assert (F : forall A (k : option (JsString * JsString) -> A),
               k (match etxt ++ rest with
                  | c :: r =>
                    if c =? 46 then
                      let '(fs, s3) := take_digits r in
                      match fs with [] => None | _ => Some (fs, s3) end
                    else Some ([], etxt ++ rest)
                  | [] => Some ([], etxt ++ rest)
                  end)
               = k (Some ([], etxt ++ rest))).
    { intros A k. destruct (etxt ++ rest) as [|c r]; [reflexivity|].
      rewrite H46. reflexivity. }
    rewrite (F _ (fun o => match o with None => None | Some (fs, s3) => _ end)).
    cbv beta iota.
    rewrite (E _ (fun o => match o with None => None | Some (e, s4) => _ end)).
    cbv beta iota. reflexivity.
  - change ((46 :: f0 :: fr) ++ etxt ++ rest)
      with (46 :: ((f0 :: fr) ++ etxt ++ rest)).
    cbv beta iota. change (46 =? 46) with true. cbv beta iota.
    rewrite (take_digits_app (f0 :: fr) _ Df Hd). cbv beta iota.
    rewrite (E _ (fun o => match o with None => None | Some (e, s4) => _ end)).
    cbv beta iota. reflexivity.
Qed.

Lemma fold_digits_acc u : forall acc : positive,
  fold_left (fun a d => 10 * a + (d - 48)) (units_of_uint u) (N.pos acc)
  = N.pos (Pos.of_uint_acc u acc).
Proof.
  induction u; intros acc; cbn [units_of_uint fold_left Pos.of_uint_acc];
    try reflexivity;
    match goal with
    | |- fold_left _ _ ?a = N.pos (Pos.of_uint_acc _ ?b) =>
      replace a with (N.pos b) by lia
    end; apply IHu.
Qed.

Lemma digits_value_uint u : digits_value (units_of_uint u) = N.of_uint u.
Proof.
  unfold digits_value, N.of_uint.
  induction u; cbn [units_of_uint fold_left Pos.of_uint]; try reflexivity;
    try exact IHu;
    match goal with
    | |- fold_left _ _ ?a = N.pos (Pos.of_uint_acc _ ?b) =>
      replace a with (N.pos b) by lia
    end; apply fold_digits_acc.
Qed.

Lemma digits_value_of_N n : digits_value (digits_of_N n) = n.
Proof.
  unfold digits_of_N. rewrite digits_value_uint. apply DecimalN.Unsigned.of_to.
Qed.

Lemma fold_digits l : forall acc,
  fold_left (fun a d => 10 * a + (d - 48)) l acc
  = acc * 10 ^ N.of_nat (List.length l) + fold_left (fun a d => 10 * a + (d - 48)) l 0.
Proof.
  induction l as [|c l IH]; intros acc.
  - cbn. lia.
  - cbn [fold_left List.length]. rewrite (IH (10 * acc + (c - 48))), (IH (10 * 0 + (c - 48))).
    rewrite Nat2N.inj_succ, N.pow_succ_r'. lia.
Qed.

Lemma digits_value_app a b :
  digits_value (a ++ b)
  = digits_value a * 10 ^ N.of_nat (List.length b) + digits_value b.
Proof. unfold digits_value. rewrite fold_left_app. apply fold_digits. Qed.

Lemma digits_value_zeros j : digits_value (repeat 48 j) = 0.
Proof.
  induction j as [|j IH]; [reflexivity|].
  change (repeat 48 (S j)) with ([48] ++ repeat 48 j).
  rewrite digits_value_app, IH. reflexivity.
Qed.

Lemma digits_value_lead j l : digits_value (repeat 48 j ++ l) = digits_value l.
Proof. rewrite digits_value_app, digits_value_zeros. reflexivity. Qed.

Lemma digits_value_trail l j :
  digits_value (l ++ repeat 48 j) = digits_value l * 10 ^ N.of_nat j.
Proof. rewrite digits_value_app, digits_value_zeros, repeat_length. lia. Qed.

Lemma strip_zeros_count l : forall e,
  exists z, l = repeat 48 z ++ fst (strip_zeros l e)
            /\ snd (strip_zeros l e) = (e + Z.of_nat z)%Z.
Proof.
  induction l as [|c r IH]; intros e.
  - exists 0%nat. split; [reflexivity|cbn; lia].
  - cbn [strip_zeros]. destruct (N.eqb_spec c 48) as [->|Hc].
    + destruct (IH (e + 1)%Z) as (z & E & H). exists (S z). split.
      * cbn [repeat app]. f_equal. exact E.
      * rewrite H. lia.
    + exists 0%nat. split; [reflexivity|cbn; lia].
Qed.

(** Two decimals of the same value are equal for [===]. *)
Lemma strict_eq_scaled (a m e : Z) (z : nat) :
  m = (a * 10 ^ Z.of_nat z)%Z ->
  strict_eq (JNumber a (e + Z.of_nat z)) (JNumber m e) = true.
Proof.
  intros ->. cbn [strict_eq]. apply Z.eqb_eq.
  rewrite Z.min_r by lia.
  replace (e + Z.of_nat z - e)%Z with (Z.of_nat z) by lia.
  rewrite Z.sub_diag. cbn [Z.pow]. lia.
Qed.

Lemma strict_eq_integer (a m e : Z) (z : nat) :
  (0 <= e + Z.of_nat z)%Z ->
  m = (a * 10 ^ Z.of_nat z)%Z ->
  strict_eq (JNumber (a * 10 ^ (e + Z.of_nat z)) 0) (JNumber m e) = true.
Proof.
  intros H ->. cbn [strict_eq]. apply Z.eqb_eq.
  destruct (Z.le_ge_cases 0 e) as [P|P].
  - rewrite Z.min_l by lia. rewrite !Z.sub_0_r. cbn [Z.pow].
    rewrite Z.pow_add_r by lia. lia.
  - rewrite Z.min_r by lia. rewrite Z.sub_diag. cbn [Z.pow].
    replace (0 - e)%Z with (- e)%Z by lia.
    rewrite <- Z.mul_assoc, <- Z.pow_add_r by lia.
    replace (e + Z.of_nat z + - e)%Z with (Z.of_nat z) by lia. lia.
Qed.

Lemma to_uint_head p d : Pos.to_uint p <> Decimal.D0 d.
Proof.
  intros E.
  assert (U : Decimal.unorm (Pos.to_uint p) = Pos.to_uint p).
  { rewrite <- (DecimalN.Unsigned.to_of (Pos.to_uint p)).
    change (Pos.to_uint p) with (N.to_uint (N.pos p)) at 1 2.
    rewrite DecimalN.Unsigned.of_to. reflexivity. }
  destruct (Decimal.nzhead (Pos.to_uint p)) eqn:Z;
    [apply DecimalFacts.unorm_0 in Z; rewrite U in Z;
     exact (DecimalPos.Unsigned.to_uint_nonzero p Z)|..];
    (rewrite DecimalFacts.unorm_nzhead in U by (rewrite Z; discriminate);
     rewrite E in U; exact (DecimalFacts.nzhead_nonzero _ _ U)).
Qed.

Lemma digits_head p :
  exists c r, digits_of_N (N.pos p) = c :: r /\ c <> 48.
Proof.
  unfold digits_of_N. change (N.to_uint (N.pos p)) with (Pos.to_uint p).
  pose proof (to_uint_head p) as H.
  pose proof (DecimalPos.Unsigned.to_uint_nonnil p) as Nn.
  destruct (Pos.to_uint p) as [|u|u|u|u|u|u|u|u|u|u]; cbn [units_of_uint];
    try (eexists _, _; split; [reflexivity|discriminate]).
  - congruence.
  - destruct (H u eq_refl).
Qed.

Lemma strip_zeros_spec l : forall e,
  exists z, l = repeat 48 z ++ fst (strip_zeros l e)
            /\ match fst (strip_zeros l e) with [] => True | c :: _ => c <> 48 end.
Proof.
  induction l as [|c r IH]; intros e.
  - exists 0%nat. split; [reflexivity|exact I].
  - cbn [strip_zeros]. destruct (N.eqb_spec c 48) as [->|Hc].
    + destruct (IH (e + 1)%Z) as (z & E & H). exists (S z). split; [|exact H].
      cbn [repeat app]. f_equal. exact E.
    + exists 0%nat. split; [reflexivity|exact Hc].
Qed.

Lemma rev_repeat {A} (x : A) n : rev (repeat x n) = repeat x n.
Proof.
  induction n as [|n IH]; [reflexivity|]. cbn [repeat rev]. rewrite IH.
  clear IH. induction n as [|n IH]; [reflexivity|]. cbn [repeat app]. f_equal. exact IH.
Qed.

(** The significant digits of a number that is not zero. *)
Lemma significant_digits p e :
  exists d ds z,
    strip_zeros (rev (digits_of_N (N.pos p))) e = (rev (d :: ds), (e + Z.of_nat z)%Z)
    /\ d <> 48 /\ forallb is_digit (d :: ds) = true
    /\ N.pos p = digits_value (d :: ds) * 10 ^ N.of_nat z.
Proof.
  destruct (digits_head p) as (c & r & E & Hc).
  pose proof (units_of_uint_digits (N.to_uint (N.pos p))) as D.
  fold (digits_of_N (N.pos p)) in D.
  pose proof (digits_value_of_N (N.pos p)) as V.
  destruct (strip_zeros_count (rev (digits_of_N (N.pos p))) e) as (z & S & Z).
  destruct (strip_zeros (rev (digits_of_N (N.pos p))) e) as [rds e'] eqn:St.
  cbn [fst snd] in S, Z. subst e'.
  apply (f_equal (@rev N)) in S. rewrite rev_involutive, rev_app_distr, rev_repeat in S.
  rewrite S in D, E, V. rewrite forallb_app in D. apply andb_prop in D as [D _].
  rewrite digits_value_trail in V.
  destruct (rev rds) as [|d ds'] eqn:R.
  - cbn [app] in E. destruct z; [discriminate|]. cbn in E. congruence.
  - exists d, ds', z. rewrite <- R, rev_involutive.
    split; [reflexivity|]. rewrite R. split; [|split; [exact D|symmetry; exact V]].
    cbn [app] in E. congruence.
Qed.

Lemma digits_nonempty n : digits_of_N n <> [].
Proof.
  destruct n as [|p].
  - discriminate.
  - destruct (digits_head p) as (c & r & E & _). rewrite E. discriminate.
Qed.

Lemma digits_all n : forallb is_digit (digits_of_N n) = true.
Proof. apply units_of_uint_digits. Qed.

Lemma forallb_repeat_zero n : forallb is_digit (repeat 48 n) = true.
Proof. induction n; [reflexivity|exact IHn]. Qed.

Lemma forallb_firstn {A} (f : A -> bool) n l :
  forallb f l = true -> forallb f (firstn n l) = true.
Proof.
  revert n. induction l as [|x l IH]; intros [|n] H; try reflexivity.
  cbn in *. apply andb_prop in H as [-> H]. exact (IH n H).
Qed.

Lemma forallb_skipn {A} (f : A -> bool) n l :
  forallb f l = true -> forallb f (skipn n l) = true.
Proof.
  revert n. induction l as [|x l IH]; intros [|n] H; try reflexivity; try exact H.
  cbn in *. apply andb_prop in H as [_ H]. exact (IH n H).
Qed.

(** The text of a number is a number literal of the same value. *)
Lemma number_to_string_text m e :
  exists neg ints fs ex,
    number_to_string m e = number_text neg ints fs ex
    /\ forallb is_digit ints = true /\ well_formed_int ints = true
    /\ forallb is_digit fs = true
    /\ match ex with
       | None => True
       | Some (_, es) => forallb is_digit es = true /\ es <> []
       end
    /\ strict_eq (number_read neg ints fs ex) (JNumber m e) = true.
Proof.
  unfold number_to_string. destruct (Z.eqb_spec m 0) as [->|Hm].
  { exists false, [48], [], None. repeat split. }
  assert (P : exists p, Z.abs_N m = N.pos p).
  { destruct m as [|p|p]; [congruence|exists p; reflexivity|exists p; reflexivity]. }
  destruct P as [p Pm]. rewrite Pm.
  destruct (significant_digits p e) as (d & ds & z & St & Hd & D & V).
  rewrite St. rewrite rev_involutive.
  set (k := Z.of_nat (List.length (d :: ds))).
  set (n := (k + (e + Z.of_nat z))%Z).
  set (v := Z.of_N (digits_value (d :: ds))).
  set (a := if (m <? 0)%Z then (- v)%Z else v).
  assert (Ma : m = (a * 10 ^ Z.of_nat z)%Z).
  { assert (Ab : Z.abs m = (v * 10 ^ Z.of_nat z)%Z).
    { rewrite <- N2Z.inj_abs_N, Pm, V. subst v.
      rewrite N2Z.inj_mul, N2Z.inj_pow, nat_N_Z. reflexivity. }
    subst a. destruct (Z.ltb_spec m 0); lia. }
  assert (Sg : forall x, (if (m <? 0)%Z then (- (v * x))%Z else (v * x)%Z) = (a * x)%Z).
  { intros x. subst a. destruct (m <? 0)%Z; lia. }
  assert (W : forall x, well_formed_int (d :: x) = true).
  { intros x. cbn [well_formed_int]. apply N.eqb_neq in Hd. rewrite Hd. reflexivity. }
  assert (Kp : k = (Z.of_nat (List.length ds) + 1)%Z).
  { subst k. cbn [List.length]. lia. }
  destruct ((k <=? n)%Z && (n <=? 21)%Z) eqn:C1.
  { apply andb_prop in C1 as [C1 _]. apply Z.leb_le in C1.
    exists (m <? 0)%Z, ((d :: ds) ++ repeat 48 (Z.to_nat (n - k))), [], None.
    split; [unfold number_text; rewrite !app_nil_r; reflexivity|].
    split; [rewrite forallb_app, D, forallb_repeat_zero; reflexivity|].
    split; [apply W|]. split; [reflexivity|]. split; [exact I|].
    unfold number_read. rewrite app_nil_r, digits_value_trail.
    rewrite N2Z.inj_mul, N2Z.inj_pow, nat_N_Z. fold v.
    rewrite Z2Nat.id by lia.
    replace (n - k)%Z with (e + Z.of_nat z)%Z by (subst n; lia).
    rewrite Sg. cbn [List.length]. 
    apply strict_eq_integer; [subst n; lia|exact Ma]. }
  destruct ((0 <? n)%Z && (n <=? 21)%Z) eqn:C2.
  { apply andb_prop in C2 as [N0 N21]. apply Z.ltb_lt in N0. apply Z.leb_le in N21.
    assert (Nk : (n < k)%Z).
    { apply andb_false_iff in C1 as [C|C]; apply Z.leb_gt in C; lia. }
    exists (m <? 0)%Z, (firstn (Z.to_nat n) (d :: ds)), (skipn (Z.to_nat n) (d :: ds)), None.
    assert (Sk : skipn (Z.to_nat n) (d :: ds) <> []).
    { intros Z0. apply (f_equal (@List.length N)) in Z0. rewrite length_skipn in Z0.
      unfold k in Nk. cbn [List.length] in Z0, Nk. lia. }
    split; [|split; [|split; [|split; [|split]]]].
    - unfold number_text. destruct (skipn (Z.to_nat n) (d :: ds)) eqn:Sn; [congruence|].
      rewrite app_nil_r. reflexivity.
    - apply forallb_firstn. exact D.
    - destruct (Z.to_nat n) eqn:Zn; [lia|]. cbn [firstn]. apply W.
    - apply forallb_skipn. exact D.
    - exact I.
    - unfold number_read. rewrite firstn_skipn. fold v. fold a.
      rewrite length_skipn.
      replace (0 - Z.of_nat (List.length (d :: ds) - Z.to_nat n))%Z
        with (e + Z.of_nat z)%Z by (unfold k in *; subst n; lia).
      apply strict_eq_scaled. exact Ma. }
  destruct ((-6 <? n)%Z && (n <=? 0)%Z) eqn:C3.
  { apply andb_prop in C3 as [_ N0]. apply Z.leb_le in N0.
    exists (m <? 0)%Z, [48], (repeat 48 (Z.to_nat (- n)) ++ d :: ds), None.
    split; [|split; [|split; [|split; [|split]]]]; try reflexivity; try exact I.
    - unfold number_text.
      destruct (repeat 48 (Z.to_nat (- n)) ++ d :: ds) eqn:Q.
      + destruct (repeat 48 (Z.to_nat (- n))); discriminate.
      + rewrite app_nil_r. reflexivity.
    - rewrite forallb_app, forallb_repeat_zero. exact D.
    - unfold number_read.
      change ([48] ++ repeat 48 (Z.to_nat (- n)) ++ d :: ds)
        with (repeat 48 (S (Z.to_nat (- n))) ++ d :: ds).
      rewrite digits_value_lead. fold v. fold a.
      rewrite length_app, repeat_length.
      replace (0 - Z.of_nat (Z.to_nat (- n) + List.length (d :: ds)))%Z
        with (e + Z.of_nat z)%Z by (unfold k in *; subst n; lia).
      apply strict_eq_scaled. exact Ma. }
  set (ex := (n - 1)%Z).
  exists (m <? 0)%Z, [d], ds, (Some ((ex <? 0)%Z, digits_of_N (Z.abs_N ex))).
  split; [|split; [|split; [|split; [|split]]]].
  - unfold number_text. destruct ds as [|d2 r].
    + cbn [app]. destruct (ex <? 0)%Z; reflexivity.
    + destruct (ex <? 0)%Z; reflexivity.
  - cbn [forallb] in *. apply andb_prop in D as [-> _]. reflexivity.
  - apply W.
  - cbn [forallb] in D. apply andb_prop in D as [_ D]. exact D.
  - split; [apply digits_all|apply digits_nonempty].
  - unfold number_read. change ([d] ++ ds) with (d :: ds). fold v. fold a.
    rewrite digits_value_of_N, N2Z.inj_abs_N.
    replace ((if (ex <? 0)%Z then (- Z.abs ex)%Z else Z.abs ex) - Z.of_nat (List.length ds))%Z
      with (e + Z.of_nat z)%Z
      by (destruct (Z.ltb_spec ex 0); subst ex n; lia).
    apply strict_eq_scaled. exact Ma.
Qed.

(** ** Values *)





Lemma parse_value_number fuel c r :
  c = 45 \/ is_digit c = true ->
  parse_value (S fuel) (c :: r) = parse_number (c :: r).
Proof.
  intros H. cbn [parse_value skip_ws].
  assert (E : is_json_ws c = false /\ (c =? 34) = false /\ (c =? 91) = false
              /\ (c =? 123) = false /\ (c =? 110) = false /\ (c =? 116) = false
              /\ (c =? 102) = false).
  { destruct H as [->|D]; [repeat split|].
    unfold is_digit in D. apply andb_prop in D as [A B]. apply N.leb_le in A, B.
    unfold is_json_ws. repeat split; try (apply N.eqb_neq; lia).
    repeat (apply orb_false_intro); apply N.eqb_neq; lia. }
  destruct E as (-> & -> & -> & -> & -> & -> & ->). reflexivity.
Qed.

Lemma number_text_head neg ints fs ex :
  forallb is_digit ints = true -> well_formed_int ints = true ->
  exists c r, number_text neg ints fs ex = c :: r /\ (c = 45 \/ is_digit c = true).
Proof.
  intros D W. unfold number_text. destruct neg.
  - eexists _, _. split; [reflexivity|left; reflexivity].
  - destruct ints as [|i r]; [discriminate|]. cbn [app forallb] in *.
    apply andb_prop in D as [Di _]. eexists _, _. split; [reflexivity|right; exact Di].
Qed.

Lemma number_round m e rest :
  ends_value rest ->
  exists c r,
    number_to_string m e = c :: r /\ (c = 45 \/ is_digit c = true)
    /\ parse_number (number_to_string m e ++ rest) = Some (reparsed (JNumber m e), rest).
Proof.
  intros R.
  destruct (number_to_string_text m e)
    as (neg & ints & fs & ex & T & Di & Wi & Df & Ex & _).
  destruct (number_text_head neg ints fs ex Di Wi) as (c & r & H & Hc).
  exists c, r. rewrite T. split; [exact H|]. split; [exact Hc|].
  cbn [reparsed]. rewrite T.
  pose proof (parse_number_text neg ints fs ex [] Di Wi Df Ex I) as P0.
  rewrite app_nil_r in P0. rewrite P0.
  apply parse_number_text; assumption.
Qed.

(** The first code unit of the text of a value. *)
Lemma item_text_head x :
  exists c r, item_text x = c :: r /\ is_json_ws c = false /\ c <> 93 /\ c <> 125.
Proof.
  destruct x as [| |[|]|m e|s|items|o]; unfold item_text; cbn [serialize];
    try (eexists _, _; split; [reflexivity|repeat split; discriminate]).
  destruct (number_round m e [] I) as (c & r & H & Hc & _).
  exists c, r. split; [exact H|].
  destruct Hc as [->|D]; [repeat split; discriminate|].
  unfold is_digit in D. apply andb_prop in D as [A B]. apply N.leb_le in A, B.
  unfold is_json_ws. repeat split; try lia.
  repeat (apply orb_false_intro); apply N.eqb_neq; lia.
Qed.

Lemma skip_ws_item x rest : skip_ws (item_text x ++ rest) = item_text x ++ rest.
Proof.
  destruct (item_text_head x) as (c & r & -> & W & _). cbn [app skip_ws].
  rewrite W. reflexivity.
Qed.

Lemma ends_comma r : ends_value (44 :: r).
Proof. left. reflexivity. Qed.

Lemma ends_bracket r : ends_value (93 :: r).
Proof. right. left. reflexivity. Qed.

Lemma ends_brace r : ends_value (125 :: r).
Proof. right. right. reflexivity. Qed.

Lemma parse_elements_items pv rest : forall items n,
  items <> [] ->
  (List.length items <= n)%nat ->
  (forall x r, In x items -> ends_value r ->
               pv (item_text x ++ r) = Some (item_value x, r)) ->
  parse_elements pv n (join [44] (map item_text items) ++ 93 :: rest)
  = Some (map item_value items, rest).
Proof.
  induction items as [|x items IH]; intros n Ne L PV; [congruence|].
  destruct n as [|n]; [cbn in L; lia|]. cbn [List.length] in L.
  destruct items as [|y items].
  - cbn [map join parse_elements].
    rewrite (PV x (93 :: rest) (or_introl eq_refl) (ends_bracket rest)).
    cbn [skip_ws]. change (is_json_ws 93) with false. cbv iota.
    change (93 =? 44) with false. change (93 =? 93) with true. reflexivity.
  - change (join [44] (map item_text (x :: y :: items)))
      with (item_text x ++ [44] ++ join [44] (map item_text (y :: items))).
    rewrite <- !app_assoc. cbn [parse_elements].
    change ([44] ++ join [44] (map item_text (y :: items)) ++ 93 :: rest)
      with (44 :: (join [44] (map item_text (y :: items)) ++ 93 :: rest)).
    rewrite (PV x _ (or_introl eq_refl) (ends_comma _)).
    cbn [skip_ws]. change (is_json_ws 44) with false. cbv iota.
    change (44 =? 44) with true. cbv iota.
    rewrite (IH n); [reflexivity|discriminate|cbn [List.length] in *; lia|].
    intros x0 r Hin. apply PV. right. exact Hin.
Qed.

Lemma member_texts_cons k v o :
  member_texts ((k, v) :: o)
  = match v with
    | JUndefined => member_texts o
    | _ => (quote k ++ [58] ++ item_text v) :: member_texts o
    end.
Proof.
  unfold member_texts, item_text. cbn [flat_map snd fst].
  destruct v as [| |[|]| | | | ]; reflexivity.
Qed.

Lemma revive_into_cons f k v o acc :
  revive_into f ((k, v) :: o) acc
  = match v with
    | JUndefined => revive_into f o acc
    | _ => revive_into f o (obj_set k (f v) acc)
    end.
Proof. unfold revive_into. cbn [fold_left snd fst]. destruct v; reflexivity. Qed.

Lemma revive_into_none f o acc : member_texts o = [] -> revive_into f o acc = acc.
Proof.
  induction o as [|[k v] o IH]; intros E; [reflexivity|].
  rewrite member_texts_cons in E. rewrite revive_into_cons.
  destruct v; try discriminate E. exact (IH E).
Qed.

Lemma parse_member pv k v r acc n :
  v <> JUndefined ->
  pv (item_text v ++ r) = Some (item_value v, r) ->
  parse_members pv (S n) ((quote k ++ [58] ++ item_text v) ++ r) acc
  = match skip_ws r with
    | d :: r4 =>
      if d =? 44 then parse_members pv n r4 (obj_set k (reparsed v) acc)
      else if d =? 125 then Some (obj_set k (reparsed v) acc, r4)
      else None
    | [] => None
    end.
Proof.
  intros Dv PV. unfold quote. rewrite <- !app_assoc. cbn [app parse_members skip_ws].
  change (is_json_ws 34) with false. cbv iota. change (34 =? 34) with true. cbv iota.
  rewrite parse_quote. cbn [skip_ws]. change (is_json_ws 58) with false. cbv iota.
  change (58 =? 58) with true. cbv iota. rewrite PV.
  destruct v; try congruence; reflexivity.
Qed.

Lemma parse_members_props pv rest : forall o acc n,
  member_texts o <> [] ->
  (List.length (member_texts o) <= n)%nat ->
  (forall k v r, In (k, v) o -> ends_value r ->
                 pv (item_text v ++ r) = Some (item_value v, r)) ->
  parse_members pv n (join [44] (member_texts o) ++ 125 :: rest) acc
  = Some (revive_into reparsed o acc, rest).
Proof.
  induction o as [|[k v] o IH]; intros acc n Ne L PV;
    [exfalso; apply Ne; reflexivity|].
  assert (PVo : forall k v r, In (k, v) o -> ends_value r ->
                              pv (item_text v ++ r) = Some (item_value v, r)).
  { intros k0 v0 r Hin. apply (PV k0 v0 r). right. exact Hin. }
  rewrite member_texts_cons in Ne, L |- *. rewrite revive_into_cons.
  destruct (serialize v) as [t|] eqn:Sv.
  2:{ destruct v as [| |[|]| | | | ]; try discriminate Sv. apply IH; assumption. }
  assert (Dv : v <> JUndefined) by (intros ->; discriminate Sv).
  assert (M : forall A (a b : A), match v with JUndefined => a | _ => b end = b).
  { intros A a b. destruct v; [congruence|reflexivity..]. }
  rewrite M in Ne, L |- *. rewrite M.
  destruct n as [|n]; [cbn in L; lia|]. cbn [List.length] in L.
  destruct (member_texts o) as [|m ms] eqn:Mo.
  - cbn [join].
    rewrite (parse_member pv k v (125 :: rest) acc n Dv
               (PV k v _ (or_introl eq_refl) (ends_brace rest))).
    cbn [skip_ws]. change (is_json_ws 125) with false. cbv iota.
    change (125 =? 44) with false. change (125 =? 125) with true. cbv iota.
    rewrite (revive_into_none reparsed o _ Mo). reflexivity.
  - change (join [44] ((quote k ++ [58] ++ item_text v) :: m :: ms))
      with ((quote k ++ [58] ++ item_text v) ++ [44] ++ join [44] (m :: ms)).
    rewrite <- (app_assoc (quote k ++ [58] ++ item_text v)).
    rewrite <- (app_assoc [44]).
    change ([44] ++ join [44] (m :: ms) ++ 125 :: rest)
      with (44 :: (join [44] (m :: ms) ++ 125 :: rest)).
    rewrite (parse_member pv k v _ acc n Dv
               (PV k v _ (or_introl eq_refl) (ends_comma _))).
    cbn [skip_ws]. change (is_json_ws 44) with false. cbv iota.
    change (44 =? 44) with true. cbv iota.
    apply IH; [discriminate|cbn [List.length] in *; lia|exact PVo].
Qed.

Lemma length_join sep (l : list JsString) :
  (forall t, In t l -> t <> []) ->
  (List.length l <= List.length (join sep l))%nat
  /\ forall t, In t l -> (List.length t <= List.length (join sep l))%nat.
Proof.
  induction l as [|x l IH]; intros Ne.
  - split; [cbn; lia|intros t []].
  - destruct IH as [IH1 IH2]; [intros t Ht; apply Ne; right; exact Ht|].
    assert (Hx : (1 <= List.length x)%nat).
    { pose proof (Ne x (or_introl eq_refl)). destruct x; [congruence|cbn; lia]. }
    destruct l as [|y l].
    + cbn [join List.length]. split; [lia|]. intros t [<-|[]]. lia.
    + change (join sep (x :: y :: l)) with (x ++ sep ++ join sep (y :: l)).
      rewrite !length_app. cbn [List.length] in *. split; [lia|].
      intros t [<-|Ht]; [lia|]. specialize (IH2 t Ht). lia.
Qed.

Lemma item_text_nonempty x : item_text x <> [].
Proof. destruct (item_text_head x) as (c & r & -> & _). discriminate. Qed.

Lemma member_texts_shape o t :
  In t (member_texts o) ->
  exists k v, In (k, v) o /\ v <> JUndefined /\ t = quote k ++ [58] ++ item_text v.
Proof.
  induction o as [|[k v] o IH]; [intros []|].
  rewrite member_texts_cons. intros H.
  assert (C : (v <> JUndefined /\ t = quote k ++ [58] ++ item_text v)
              \/ In t (member_texts o)).
  { destruct v; [right; exact H|..]; (destruct H as [<-|H]; [left|right; exact H]);
      (split; [discriminate|reflexivity]). }
  destruct C as [[Dv ->]|Hin].
  - exists k, v. split; [left; reflexivity|]. split; [exact Dv|reflexivity].
  - destruct (IH Hin) as (k0 & v0 & I0 & D0 & E0). exists k0, v0.
    split; [right; exact I0|]. split; assumption.
Qed.

Lemma height_in_items x items :
  In x items -> (height x <= list_max (map height items))%nat.
Proof.
  intros H. pose proof (proj1 (list_max_le (map height items) _) (le_n _)) as F.
  rewrite Forall_forall in F. apply F. apply in_map. exact H.
Qed.

Lemma height_in_props k v (o : Props) :
  In (k, v) o -> (height v <= list_max (map (fun p => height (snd p)) o))%nat.
Proof.
  intros H.
  pose proof (proj1 (list_max_le (map (fun p => height (snd p)) o) _) (le_n _)) as F.
  rewrite Forall_forall in F. apply F.
  apply (in_map (fun p => height (snd p)) o (k, v)). exact H.
Qed.

(** Reading the text of a value gives the value back, whatever follows the
    text, with fuel above the nesting depth. *)
Lemma parse_item : forall fuel x rest,
  (height x < fuel)%nat -> ends_value rest ->
  parse_value fuel (item_text x ++ rest) = Some (item_value x, rest).
Proof.
  induction fuel as [|f IH]; intros x rest H R; [lia|].
  destruct x as [| |[|]|m e|s|items|o].
  - destruct rest; reflexivity.
  - destruct rest; reflexivity.
  - destruct rest; reflexivity.
  - destruct rest; reflexivity.
  - destruct (number_round m e rest R) as (c & r & T & Hc & P).
    unfold item_text, item_value. cbn [serialize]. rewrite T. cbn [app].
    rewrite (parse_value_number f c (r ++ rest) Hc).
    change (c :: r ++ rest) with ((c :: r) ++ rest). rewrite <- T. exact P.
  - unfold item_text, item_value. cbn [serialize reparsed]. unfold quote.
    rewrite <- !app_assoc. cbn [app parse_value skip_ws].
    change (is_json_ws 34) with false. cbv iota. change (34 =? 34) with true. cbv iota.
    rewrite parse_quote. reflexivity.
  - assert (T : item_text (JArray items)
                = 91 :: join [44] (map item_text items) ++ [93]) by reflexivity.
    rewrite T. cbn [height] in H.
    destruct items as [|x items].
    + reflexivity.
    + set (r := join [44] (map item_text (x :: items)) ++ 93 :: rest).
      assert (Er : (91 :: join [44] (map item_text (x :: items)) ++ [93]) ++ rest
                   = 91 :: r).
      { subst r. cbn [app]. rewrite <- app_assoc. reflexivity. }
      rewrite Er.
      assert (Hr : exists c0 r0, r = c0 :: r0 /\ is_json_ws c0 = false /\ c0 <> 93).
      { destruct (item_text_head x) as (c0 & r0 & E0 & W0 & N0 & _).
        subst r. destruct items as [|y items].
        - cbn [map join]. rewrite E0. eexists _, _. split; [reflexivity|]. split; assumption.
        - change (join [44] (map item_text (x :: y :: items)))
            with (item_text x ++ [44] ++ join [44] (map item_text (y :: items))).
          rewrite E0. eexists _, _. split; [reflexivity|]. split; assumption. }
      destruct Hr as (c0 & r0 & Ec & W0 & N0).
      assert (PE : parse_elements (parse_value f) (List.length r) r
                   = Some (map item_value (x :: items), rest)).
      { subst r. apply parse_elements_items.
        - discriminate.
        - rewrite length_app.
          destruct (length_join [44] (map item_text (x :: items))) as [L _].
          { intros t Ht. apply in_map_iff in Ht as (y & <- & _). apply item_text_nonempty. }
          rewrite length_map in L. lia.
        - intros y r1 Hin R1. apply IH; [|exact R1].
          pose proof (height_in_items y _ Hin). lia. }
      assert (SK : skip_ws r = c0 :: r0)
        by (rewrite Ec; cbn [skip_ws]; rewrite W0; reflexivity).
      clearbody r.
      cbn [parse_value skip_ws]. change (is_json_ws 91) with false. cbv iota.
      change (91 =? 34) with false. change (91 =? 91) with true. cbv iota.
      rewrite SK. apply N.eqb_neq in N0. rewrite N0. rewrite PE. reflexivity.
  - assert (T : item_text (JObject o) = 123 :: join [44] (member_texts o) ++ [125])
      by reflexivity.
    rewrite T. cbn [height] in H. unfold item_value. cbn [reparsed].
    destruct (member_texts o) as [|m ms] eqn:Mo.
    + rewrite (revive_into_none reparsed o [] Mo). reflexivity.
    + set (r := join [44] (m :: ms) ++ 125 :: rest).
      assert (Er : (123 :: join [44] (m :: ms) ++ [125]) ++ rest = 123 :: r).
      { subst r. cbn [app]. rewrite <- app_assoc. reflexivity. }
      rewrite Er.
      assert (Hr : exists r0, r = 34 :: r0).
      { destruct (member_texts_shape o m) as (k & v & _ & _ & ->);
          [rewrite Mo; left; reflexivity|].
        subst r. destruct ms; eexists; reflexivity. }
      destruct Hr as (r0 & Ec).
      assert (PM : parse_members (parse_value f) (List.length r) r []
                   = Some (revive_into reparsed o [], rest)).
      { subst r. rewrite <- Mo. apply parse_members_props.
        - rewrite Mo. discriminate.
        - rewrite length_app.
          destruct (length_join [44] (member_texts o)) as [L _]; [|lia].
          intros t Ht. destruct (member_texts_shape o t Ht) as (k & v & _ & _ & ->).
          discriminate.
        - intros k v r1 Hin R1. apply IH; [|exact R1].
          pose proof (height_in_props k v o Hin). lia. }
      assert (SK : skip_ws r = 34 :: r0) by (rewrite Ec; reflexivity).
      clearbody r.
      cbn [parse_value skip_ws]. change (is_json_ws 123) with false. cbv iota.
      change (123 =? 34) with false. change (123 =? 91) with false.
      change (123 =? 123) with true. cbv iota.
      rewrite SK. change (34 =? 125) with false. cbv iota. rewrite PM. reflexivity.
Qed.

Lemma member_texts_in k v (o : Props) :
  In (k, v) o -> v <> JUndefined ->
  In (quote k ++ [58] ++ item_text v) (member_texts o).
Proof.
  intros H Dv. induction o as [|[k1 v1] o IH]; [destruct H|].
  rewrite member_texts_cons. destruct H as [[= -> ->]|H].
  - destruct v; [congruence|left; reflexivity..].
  - destruct v1; [exact (IH H)|right; exact (IH H)..].
Qed.

Lemma height_le_text : forall n x,
  (height x <= n)%nat -> (height x <= List.length (item_text x))%nat.
Proof.
  induction n as [|n IH]; intros x H; [lia|].
  destruct x as [| |b|m e|s|items|o]; try (cbn [height]; lia).
  - cbn [height] in H |- *.
    change (item_text (JArray items)) with (91 :: join [44] (map item_text items) ++ [93]).
    cbn [List.length]. rewrite length_app. cbn [List.length].
    assert (M : (list_max (map height items)
                 <= List.length (join [44%N] (map item_text items)))%nat).
    { apply list_max_le. apply Forall_forall. intros h Hh.
      apply in_map_iff in Hh as (y & <- & Hy).
      pose proof (height_in_items y items Hy) as Hy'.
      destruct (length_join [44] (map item_text items)) as [_ L].
      { intros t Ht. apply in_map_iff in Ht as (z & <- & _). apply item_text_nonempty. }
      specialize (L (item_text y) (in_map _ _ _ Hy)).
      specialize (IH y). lia. }
    lia.
  - cbn [height] in H |- *.
    change (item_text (JObject o)) with (123 :: join [44] (member_texts o) ++ [125]).
    cbn [List.length]. rewrite length_app. cbn [List.length].
    assert (M : (list_max (map (fun p => height (snd p)) o)
                 <= List.length (join [44%N] (member_texts o)))%nat).
    { apply list_max_le. apply Forall_forall. intros h Hh.
      apply in_map_iff in Hh as ([k v] & <- & Hy). cbn [snd].
      pose proof (height_in_props k v o Hy) as Hy'.
      destruct v as [| |b|m e|s|items|o']; try (cbn [height]; lia).
      - destruct (length_join [44] (member_texts o)) as [_ L].
        { intros t Ht. destruct (member_texts_shape o t Ht) as (k0 & v0 & _ & _ & ->).
          discriminate. }
        specialize (L _ (member_texts_in k (JArray items) o Hy ltac:(discriminate))).
        rewrite !length_app in L. specialize (IH (JArray items)). lia.
      - destruct (length_join [44] (member_texts o)) as [_ L].
        { intros t Ht. destruct (member_texts_shape o t Ht) as (k0 & v0 & _ & _ & ->).
          discriminate. }
        specialize (L _ (member_texts_in k (JObject o') o Hy ltac:(discriminate))).
        rewrite !length_app in L. specialize (IH (JObject o')). lia. }
    lia.
Qed.

Lemma JSON_parse_stringify v :
  v <> JUndefined -> JSON_parse (JSON_stringify v) = Ok (reparsed v).
Proof.
  intros Dv.
  assert (T : JSON_stringify v = item_text v).
  { unfold JSON_stringify, item_text. destruct v as [| |[|]| | | | ];
      try congruence; reflexivity. }
  assert (V : item_value v = reparsed v) by (destruct v; try congruence; reflexivity).
  unfold JSON_parse. rewrite T.
  pose proof (parse_item (S (List.length (item_text v))) v [] ) as P.
  rewrite app_nil_r in P. rewrite P.
  - rewrite V. reflexivity.
  - pose proof (height_le_text (height v) v (le_n _)). lia.
  - exact I.
Qed.

(** ** What is read back from an object *)

Lemma revive_other f k : forall o acc,
  has_key k o = false ->
  obj_get k (revive_into f o acc) = obj_get k acc.
Proof.
  induction o as [|[k1 v1] o IH]; intros acc H; [reflexivity|].
  unfold has_key in H. cbn [existsb fst] in H. apply orb_false_elim in H as [H1 H2].
  rewrite revive_into_cons. destruct v1; rewrite (IH _ H2); try reflexivity;
    rewrite obj_get_set, H1; reflexivity.
Qed.

Lemma revive_get f k v : forall o acc,
  obj_get k o = Some v -> v <> JUndefined ->
  obj_get k (revive_into f o acc) = Some (f v).
Proof.
  induction o as [|[k1 v1] o IH]; intros acc G Dv; [discriminate|].
  cbn [obj_get] in G. rewrite revive_into_cons.
  destruct (obj_get k o) as [x|] eqn:Go.
  - injection G as ->. destruct v1; apply IH; auto.
  - destruct (str_eqb k k1) eqn:E; [|discriminate]. injection G as ->.
    apply str_eqb_eq in E as ->. apply obj_get_none in Go.
    assert (M : revive_into f o (obj_set k1 (f v) acc)
                = match v with
                  | JUndefined => revive_into f o acc
                  | _ => revive_into f o (obj_set k1 (f v) acc)
                  end) by (destruct v; [congruence|reflexivity..]).
    rewrite <- M, (revive_other f k1 o _ Go), obj_get_set, str_eqb_refl. reflexivity.
Qed.


(** ** Records in the store *)


Lemma getItem_key s k v : getItem s k = Some v -> exists i, key s i = Some k.
Proof.
  induction s as [|[k1 v1] s IH]; [discriminate|]. cbn [getItem].
  destruct (str_eqb_spec k k1) as [->|Hne].
  - intros _. exists 0%nat. reflexivity.
  - intros G. destruct (IH G) as [i Hi]. exists (S i). exact Hi.
Qed.

Lemma includes_inside a t b : includes (a ++ t ++ b) t = true.
Proof.
  induction a as [|x a IH].
  - cbn [app]. destruct (t ++ b) eqn:E.
    + destruct t; [reflexivity|discriminate].
    + cbn [includes]. rewrite <- E, startsWith_app. reflexivity.
  - cbn [app includes]. rewrite IH. apply orb_true_r.
Qed.

Lemma trimStart_suffix s : exists a, s = a ++ trimStart s.
Proof.
  induction s as [|c r [a IH]]; [exists []; reflexivity|]. cbn [trimStart].
  destruct (is_space c).
  - exists (c :: a). cbn [app]. f_equal. exact IH.
  - exists []. reflexivity.
Qed.

Lemma trimEnd_prefix s : exists b, s = trimEnd s ++ b.
Proof.
  unfold trimEnd. destruct (trimStart_suffix (rev s)) as [a E].
  exists (rev a). apply (f_equal (@rev N)) in E.
  rewrite rev_involutive, rev_app_distr in E. exact E.
Qed.

Lemma includes_trim s : includes s (trim s) = true.
Proof.
  unfold trim. destruct (trimStart_suffix s) as [a Ea].
  destruct (trimEnd_prefix (trimStart s)) as [b Eb].
  rewrite Ea at 1. rewrite Eb at 1. apply includes_inside.
Qed.

Lemma reparsed_object_get o k x :
  obj_get k o = Some x -> x <> JUndefined ->
  get_field (reparsed (JObject o)) k = reparsed x.
Proof.
  intros G Dx. cbn [reparsed get_field].
  rewrite (revive_get reparsed k x o [] G Dx). reflexivity.
Qed.

Lemma stored_record store k o c n :
  startsWith k community_prefix = true ->
  getItem store k = Some (JSON_stringify (JObject o)) ->
  obj_get (js "name") o = Some (JString (c :: n)) ->
  exists i, record_at store i = Some (reparsed (JObject o))
            /\ record_name (reparsed (JObject o)) = c :: n.
Proof.
  intros P G Nm. destruct (getItem_key _ _ _ G) as [i K]. exists i.
  assert (Dn : JString (c :: n) <> JUndefined) by discriminate.
  split.
  - unfold record_at. rewrite K, P, G, JSON_parse_stringify by discriminate.
    cbn [reparsed]. rewrite (revive_get reparsed _ _ o [] Nm Dn). reflexivity.
  - unfold record_name. rewrite (reparsed_object_get o _ _ Nm Dn). reflexivity.
Qed.

(** A record in the store is found by every query that matches its
    name. *)
Lemma stored_record_found st k o c n query :
  startsWith k community_prefix = true ->
  getItem (localStorage st) k = Some (JSON_stringify (JObject o)) ->
  obj_get (js "name") o = Some (JString (c :: n)) ->
  includes (toLowerCase (c :: n)) (trim (toLowerCase query)) = true
  \/ includes (trim (toLowerCase query)) (toLowerCase (c :: n)) = true ->
  exists d,
    matches (trim (toLowerCase query)) d = true
    /\ forall later,
         search query later st
         = Ok (mkState guide false d (savedTrails st) (localStorage st) (log st), Idle).
Proof.
  intros P G Nm M. destruct (stored_record _ _ _ _ _ P G Nm) as (i & R & Rn).
  assert (H : hit (trim (toLowerCase query)) (localStorage st) i
              = Some (reparsed (JObject o))).
  { apply hit_record. split; [exact R|]. unfold matches. rewrite Rn.
    destruct M as [-> | ->]; [reflexivity|apply orb_true_r]. }
  destruct (first_hit_exists _ _ _ _ H) as (j & d & _ & Hj & Hfirst).
  pose proof (findLocalTrail_first _ _ _ _ Hj Hfirst) as F.
  apply hit_record in Hj as [Rj Mj].
  exists d. split; [exact Mj|]. intros later.
  exact (search_hit _ _ d later F (record_truthy _ _ _ Rj)).
Qed.

Lemma final_is_object p mr rr : exists o, final_of p mr rr = JObject o.
Proof. unfold final_of, spread. eexists. reflexivity. Qed.

Lemma field_is_property o k c n :
  get_field (JObject o) k = JString (c :: n) -> obj_get k o = Some (JString (c :: n)).
Proof.
  cbn [get_field]. destruct (obj_get k o) as [x|]; [intros ->; reflexivity|discriminate].
Qed.

(** X20. A request that has completed is answered from the store the next
    time: when the record it stored has a name that is a string and not
    empty, every later query whose normalized form (lower-cased, then
    trimmed) is contained in the lower-cased name, or contains the lower-cased
    name, is a cache hit that shows a matching record and calls no provider,
    whatever replies follow. The name itself is such a query: its normalized
    form is contained in its lower-cased form. *)
Theorem completed_request_is_cached
        (query : JsString) (st : AppState) (br mr rr : Reply) (b : JsValue)
        (c : N) (n : JsString) (events : list Event) :
  findLocalTrail query (localStorage st) = Ok JNull ->
  generateBasicTrailInfo br = Ok b ->
  b <> JNull ->
  get_field (final_of (partial_of b) mr rr) (js "name") = JString (c :: n) ->
  events = [BasicReplied br; MiscReplied mr; RoutesReplied rr]
  \/ events = [BasicReplied br; RoutesReplied rr; MiscReplied mr] ->
  exists st',
    search query events st = Ok (st', Idle)
    /\ (forall again,
          includes (toLowerCase (c :: n)) (trim (toLowerCase again)) = true
          \/ includes (trim (toLowerCase again)) (toLowerCase (c :: n)) = true ->
          exists d,
            matches (trim (toLowerCase again)) d = true
            /\ forall later,
                 search again later st'
                 = Ok (mkState guide false d (savedTrails st') (localStorage st')
                               (log st'), Idle))
    /\ includes (toLowerCase (c :: n)) (trim (toLowerCase (c :: n))) = true.
Proof.
  intros F B Nn G Hev.
  pose proof (make_partialTrail_ok b Nn (stage_defined _ _ B)) as P.
  pose proof (search_basic_ok _ _ _ _ F B P) as S0.
  destruct (final_is_object (partial_of b) mr rr) as [o Eo].
  assert (Found : forall st',
            getItem (localStorage st') (key_of (final_of (partial_of b) mr rr))
            = Some (JSON_stringify (final_of (partial_of b) mr rr)) ->
            forall again,
              includes (toLowerCase (c :: n)) (trim (toLowerCase again)) = true
              \/ includes (trim (toLowerCase again)) (toLowerCase (c :: n)) = true ->
              exists d,
                matches (trim (toLowerCase again)) d = true
                /\ forall later,
                     search again later st'
                     = Ok (mkState guide false d (savedTrails st') (localStorage st')
                                   (log st'), Idle)).
  { intros st' St again M. rewrite Eo in St, G.
    apply (stored_record_found st' (key_of (JObject o)) o c n again);
      [|exact St| |exact M].
    - unfold key_of. apply startsWith_app.
    - apply field_is_property. exact G. }
  destruct Hev as [-> | ->]; eexists; (split; [|split]).
  - rewrite search_cons, S0. cbn [bind]. apply run_misc_routes.
  - apply Found. cbn [store_write emit localStorage]. apply getItem_setItem.
  - apply includes_trim.
  - rewrite search_cons, S0. cbn [bind]. apply run_routes_misc.
  - apply Found. cbn [store_write emit localStorage]. apply getItem_setItem.
  - apply includes_trim.
Qed.

Lemma completed_request_is_cached_witness :
  exists st',
    search peak_query [BasicReplied basic_reply; RoutesReplied routes_reply;
                       MiscReplied misc_reply] (initial []) = Ok (st', Idle)
    /\ (forall again,
          includes (toLowerCase (js "Unknown Peak")) (trim (toLowerCase again)) = true
          \/ includes (trim (toLowerCase again)) (toLowerCase (js "Unknown Peak")) = true ->
          exists d,
            matches (trim (toLowerCase again)) d = true
            /\ forall later,
                 search again later st'
                 = Ok (mkState guide false d (savedTrails st') (localStorage st')
                               (log st'), Idle))
    /\ includes (toLowerCase (js "Unknown Peak")) (trim (toLowerCase (js "Unknown Peak")))
       = true.
Proof.
  apply (completed_request_is_cached peak_query (initial []) basic_reply misc_reply
           routes_reply basic_result 85 (js "nknown Peak")).
  - reflexivity.
  - vm_compute. reflexivity.
  - discriminate.
  - vm_compute. reflexivity.
  - right. reflexivity.
Defined.

(** X21. After an update from the editor of a trail whose name is a string
    and not empty, every query whose normalized form (lower-cased, then
    trimmed) is contained in the lower-cased name, or contains the lower-cased
    name, is answered from the store by a matching record, with no provider
    call. The name itself is such a query: its normalized form is contained
    in its lower-cased form. *)
Theorem updated_trail_is_found
        (updatedTrail : TrailData) (st : AppState) (c : N) (n : JsString) :
  name_of updatedTrail = JString (c :: n) ->
  (forall again,
     includes (toLowerCase (c :: n)) (trim (toLowerCase again)) = true
     \/ includes (trim (toLowerCase again)) (toLowerCase (c :: n)) = true ->
     exists d,
       matches (trim (toLowerCase again)) d = true
       /\ forall later,
            search again later (handleUpdateTrail updatedTrail st)
            = Ok (mkState guide false d
                          (savedTrails (handleUpdateTrail updatedTrail st))
                          (localStorage (handleUpdateTrail updatedTrail st))
                          (log (handleUpdateTrail updatedTrail st)), Idle))
  /\ includes (toLowerCase (c :: n)) (trim (toLowerCase (c :: n))) = true.
Proof.
  intros Nm. split; [|apply includes_trim].
  intros again M.
  apply (stored_record_found _ (community_prefix ++ to_string (name_of updatedTrail))
                             updatedTrail c n again).
  - apply startsWith_app.
  - apply update_stored.
  - unfold name_of in Nm.
    destruct (obj_get (js "name") updatedTrail) as [x|]; [rewrite Nm; reflexivity|discriminate].
  - exact M.
Qed.

Lemma updated_trail_is_found_witness :
  (forall again,
     includes (toLowerCase (js "Alps")) (trim (toLowerCase again)) = true
     \/ includes (trim (toLowerCase again)) (toLowerCase (js "Alps")) = true ->
     exists d,
       matches (trim (toLowerCase again)) d = true
       /\ forall later,
            search again later (handleUpdateTrail alps_revised (with_plans [alps]))
            = Ok (mkState guide false d
                          (savedTrails (handleUpdateTrail alps_revised (with_plans [alps])))
                          (localStorage (handleUpdateTrail alps_revised (with_plans [alps])))
                          (log (handleUpdateTrail alps_revised (with_plans [alps]))), Idle))
  /\ includes (toLowerCase (js "Alps")) (trim (toLowerCase (js "Alps"))) = true.
Proof.
  apply (updated_trail_is_found alps_revised (with_plans [alps]) 65 (js "lps")).
  reflexivity.
Defined.

(** A trail with a Cyrillic name, once stored by an update, answers the
    query for its name in capitals, with no provider call. *)
Example scenario_update_then_query :
  exists st',
    search (js " ЭЛЬБРУС ") []
           (handleUpdateTrail [(js "name", JString (js "Эльбрус"))] (with_plans []))
    = Ok (st', Idle)
    /\ currentTrail st' = JObject [(js "name", JString (js "Эльбрус"))]
    /\ view st' = guide
    /\ calls (log st') = [].
Proof. eexists. split; [vm_compute; reflexivity|]. repeat split. Qed.

Lemma ledger_text_read l :
  exists c t, ledger_text l = c :: t
              /\ JSON_parse (ledger_text l)
                 = Ok (JArray (map (fun t => reparsed (JObject t)) l)).
Proof.
  unfold ledger_text. exists 91, (join [44] (map item_text (map JObject l)) ++ [93]).
  split; [reflexivity|].
  rewrite JSON_parse_stringify by discriminate. cbn [reparsed].
  rewrite map_map. reflexivity.
Qed.

Lemma initial_after_write store l :
  initial_savedTrails (setItem store plans_key (ledger_text l))
  = JArray (map (fun t => reparsed (JObject t)) l).
Proof.
  unfold initial_savedTrails. rewrite getItem_setItem.
  destruct (ledger_text_read l) as (c & t & -> & P). rewrite P. reflexivity.
Qed.

(** X22. The ledger that a save or an update writes is the ledger that the
    initializer reads on the next mount, entry by entry as read back from
    its text. The initializer never raises: without a value under the
    ledger's key, with the empty one, or with a text that does not parse, it
    gives the empty ledger; any text that parses is taken as it is, an array
    or not. *)
Theorem ledger_reload (trail : TrailData) (st : AppState) :
  initial_savedTrails (localStorage (handleSaveTrail trail st))
  = JArray (map (fun t => reparsed (JObject t)) (savedTrails (handleSaveTrail trail st)))
  /\ initial_savedTrails (localStorage (handleUpdateTrail trail st))
     = JArray (map (fun t => reparsed (JObject t))
                   (savedTrails (handleUpdateTrail trail st)))
  /\ (forall store,
        getItem store plans_key = None \/ getItem store plans_key = Some [] ->
        initial_savedTrails store = JArray [])
  /\ (forall store text e,
        getItem store plans_key = Some text -> JSON_parse text = Throw e ->
        initial_savedTrails store = JArray [])
  /\ (forall store x text v,
        getItem store plans_key = Some (x :: text) -> JSON_parse (x :: text) = Ok v ->
        initial_savedTrails store = v).
Proof.
  split; [|split; [|split; [|split]]].
  - rewrite save_store. apply initial_after_write.
  - rewrite update_store. apply initial_after_write.
  - intros store [G|G]; unfold initial_savedTrails; rewrite G; reflexivity.
  - intros store text e G P. unfold initial_savedTrails. rewrite G, P.
    destruct text; reflexivity.
  - intros store x text v G P. unfold initial_savedTrails. rewrite G, P. reflexivity.
Qed.

(** A record found under another key after a write was a record before
    it, wherever the keys stand in the enumeration. *)
Lemma record_at_other s k v i k0 d :
  key (setItem s k v) i = Some k0 -> k0 <> k ->
  record_at (setItem s k v) i = Some d ->
  exists i0, record_at s i0 = Some d.
Proof.
  intros K Hne R. unfold record_at in R.
  rewrite K, (getItem_setItem_other s k v k0 Hne) in R.
  destruct (startsWith k0 community_prefix) eqn:P; [|discriminate].
  destruct (getItem s k0) as [text|] eqn:G; [|discriminate].
  destruct (getItem_key _ _ _ G) as [i0 K0]. exists i0.
  unfold record_at. rewrite K0, P, G. exact R.
Qed.

(** X23. Writing a record and looking it up: when a query matches no
    record of the store, and a record with a name that is a string, not
    empty, and matched by the query is then written under a key of the
    community namespace, the lookup returns that record, as read back from
    its text. *)
Theorem written_record_is_returned
        (store : Storage) (k : JsString) (o : Props) (c : N) (n query : JsString) :
  startsWith k community_prefix = true ->
  obj_get (js "name") o = Some (JString (c :: n)) ->
  includes (toLowerCase (c :: n)) (trim (toLowerCase query)) = true
  \/ includes (trim (toLowerCase query)) (toLowerCase (c :: n)) = true ->
  findLocalTrail query store = Ok JNull ->
  findLocalTrail query (setItem store k (JSON_stringify (JObject o)))
  = Ok (reparsed (JObject o))
  /\ get_field (reparsed (JObject o)) (js "name") = JString (c :: n).
Proof.
  intros P Nm M F.
  set (store' := setItem store k (JSON_stringify (JObject o))).
  assert (G : getItem store' k = Some (JSON_stringify (JObject o)))
    by apply getItem_setItem.
  destruct (stored_record store' k o c n P G Nm) as (i & R & Rn).
  split; [|exact (reparsed_object_get o _ _ Nm ltac:(discriminate))].
  assert (H : hit (trim (toLowerCase query)) store' i = Some (reparsed (JObject o))).
  { apply hit_record. split; [exact R|]. unfold matches. rewrite Rn.
    destruct M as [-> | ->]; [reflexivity|apply orb_true_r]. }
  destruct (first_hit_exists _ _ _ _ H) as (j & d & _ & Hj & Hfirst).
  rewrite (findLocalTrail_first _ _ _ _ Hj Hfirst). f_equal.
  apply hit_record in Hj as [Rj Mj].
  destruct (key store' j) as [kj|] eqn:Kj.
  - destruct (str_eqb_spec kj k) as [->|Hne].
    + unfold record_at in Rj, R. rewrite Kj in Rj.
      destruct (key store' i) as [ki|] eqn:Ki; [|discriminate R].
      rewrite P, G in Rj. rewrite JSON_parse_stringify in Rj by discriminate.
      cbn [reparsed] in Rj.
      rewrite (revive_get reparsed _ _ o [] Nm ltac:(discriminate)) in Rj.
      cbn [reparsed] in Rj. injection Rj as <-. reflexivity.
    + exfalso. unfold store' in Rj, Kj.
      destruct (record_at_other _ _ _ _ _ _ Kj Hne Rj) as [j0 R0].
      pose proof (proj1 (findLocalTrail_null query store) F j0) as None_.
      assert (Hs : hit (trim (toLowerCase query)) store j0 = Some d)
        by (apply hit_record; split; assumption).
      congruence.
  - unfold record_at in Rj. rewrite Kj in Rj. discriminate.
Qed.

Lemma written_record_is_returned_witness :
  findLocalTrail (js " ж") (setItem ledger_only (js "ecotrek_community_Ж")
                                    (JSON_stringify (JObject [(js "name", JString (js "Ж"))])))
  = Ok (reparsed (JObject [(js "name", JString (js "Ж"))]))
  /\ get_field (reparsed (JObject [(js "name", JString (js "Ж"))])) (js "name")
     = JString (js "Ж").
Proof.
  apply (written_record_is_returned ledger_only (js "ecotrek_community_Ж")
           [(js "name", JString (js "Ж"))] 1046 [] (js " ж")).
  - reflexivity.
  - reflexivity.
  - left. vm_compute. reflexivity.
  - reflexivity.
Defined.

(** A query that differs from a stored name by case only matches it: the
    lookup on [zhe_store] does not come back empty, so a record named in the
    other case is never written by a request for it. *)
Example scenario_other_case_is_cached :
  findLocalTrail (js "ж") [(js "ecotrek_community_Ж", json "{'name': 'Ж'}")]
  = Ok (JObject [(js "name", JString (js "Ж"))])
  /\ findLocalTrail (js "ЭЛЬБРУС") [(js "ecotrek_community_x", json "{'name': 'Эльбрус'}")]
     = Ok (JObject [(js "name", JString (js "Эльбрус"))]).
Proof. split; vm_compute; reflexivity. Qed.

(** ** Renaming a trail *)

Lemma strict_eq_string x s : strict_eq x (JString s) = true -> x = JString s.
Proof.
  destruct x as [| |b|m e|t|items|o]; cbn [strict_eq]; try discriminate.
  intros H. apply str_eqb_eq in H as ->. reflexivity.
Qed.

(** X24. Renaming a trail in the guide view does not rename anything: when
    no entry of the ledger has the new name, the renamed trail is entered at
    the front of the ledger, before the entries that were there, the entry of
    the old name among them; it is stored under the key of the new name; and
    the record under the key of the old name stays in the store as it
    was. *)
Theorem rename_keeps_old_entry
        (data : TrailData) (old val : JsString) (st : AppState) :
  name_of data = JString old ->
  val <> old ->
  (forall t, In t (savedTrails st) -> name_of t <> JString val) ->
  exists renamed,
    currentTrail (TrailGuideView.saveField (js "name") data val st) = JObject renamed
    /\ name_of renamed = JString val
    /\ (forall k, k <> js "name" ->
                  get_field (JObject renamed) k = get_field (JObject data) k)
    /\ savedTrails (TrailGuideView.saveField (js "name") data val st)
       = renamed :: savedTrails st
    /\ getItem (localStorage (TrailGuideView.saveField (js "name") data val st))
               (community_prefix ++ val)
       = Some (JSON_stringify (JObject renamed))
    /\ getItem (localStorage (TrailGuideView.saveField (js "name") data val st))
               (community_prefix ++ old)
       = getItem (localStorage st) (community_prefix ++ old).
Proof.
  intros Old Hne Fresh. unfold TrailGuideView.saveField.
  set (renamed := obj_set (js "name") (JString val) (own_props (spread [JObject data]))).
  assert (Nm : name_of renamed = JString val).
  { unfold name_of, renamed. rewrite obj_get_set, str_eqb_refl. reflexivity. }
  exists renamed. split; [apply update_current|]. split; [exact Nm|].
  split; [|split; [|split]].
  - intros k Hk. unfold renamed. cbn [get_field]. rewrite obj_get_set.
    apply str_eqb_neq in Hk. rewrite Hk, obj_get_spread1. reflexivity.
  - rewrite update_saved.
    destruct (find (same_name renamed) (savedTrails st)) as [t|] eqn:F; [|reflexivity].
    apply find_some in F as [Hin Ht]. unfold same_name in Ht. rewrite Nm in Ht.
    destruct (Fresh t Hin (strict_eq_string _ _ Ht)).
  - pose proof (update_stored renamed st) as S. rewrite Nm in S. exact S.
  - rewrite update_store, Nm. cbn [to_string].
    rewrite getItem_setItem_other by (apply not_eq_sym, plans_key_outside).
    apply getItem_setItem_other. intros E. apply app_inv_head in E. congruence.
Qed.

Lemma rename_keeps_old_entry_witness :
  exists renamed,
    currentTrail (TrailGuideView.saveField (js "name") alps (js "Alpen")
                    (handleUpdateTrail alps (with_plans [andes])))
    = JObject renamed
    /\ savedTrails (TrailGuideView.saveField (js "name") alps (js "Alpen")
                      (handleUpdateTrail alps (with_plans [andes])))
       = [renamed; alps; andes]
    /\ getItem (localStorage (TrailGuideView.saveField (js "name") alps (js "Alpen")
                                (handleUpdateTrail alps (with_plans [andes]))))
               (community_prefix ++ js "Alps")
       = Some (JSON_stringify (JObject alps)).
Proof.
  destruct (rename_keeps_old_entry alps (js "Alps") (js "Alpen")
              (handleUpdateTrail alps (with_plans [andes])))
    as (renamed & C & _ & _ & S & _ & G).
  - reflexivity.
  - vm_compute. discriminate.
  - intros t [<-|[<-|[]]]; vm_compute; discriminate.
  - exists renamed. split; [exact C|]. split; [exact S|].
    rewrite G. vm_compute. reflexivity.
Defined.

(* ===================================================================== *)
(** * The staged request, whatever the stages return *)
(* ===================================================================== *)

(** ** Keys of a record built by spread *)


Lemma has_key_in_keys k o : has_key k o = true <-> In k (map fst o).
Proof.
  unfold has_key. rewrite existsb_exists, in_map_iff. split.
  - intros (p & Hp & E). apply str_eqb_eq in E. exists p. split; [symmetry; exact E|exact Hp].
  - intros (p & E & Hp). exists p. split; [exact Hp|]. apply str_eqb_eq. symmetry. exact E.
Qed.









(** The partial record has the fifteen properties of its literal. *)
Lemma partial_own b k :
  has_own (partial_of b) k = true
  <-> In k (basic_fields ++ js "centerCoordinates" :: misc_fields ++ [js "routeSegments"]).
Proof.
  unfold has_own. rewrite has_key_in_keys. cbn. tauto.
Qed.

(** ** Partial visibility *)

(** C4, as it fails: a basic fetch succeeds with whatever JSON value the
    response text holds. With the empty object the handler still unlocks the
    guide view, on a record in which every basic field is [undefined]; with
    [null] it hands over no record at all and shows the failure message. *)
Lemma partial_visibility_counterexample :
  (generateBasicTrailInfo empty_reply = Ok (JObject [])
   /\ exists s1 p,
        search peak_query [BasicReplied empty_reply] (initial [])
        = Ok (s1, AwaitStages p None None)
        /\ currentTrail s1 = p /\ view s1 = guide /\ isLoading s1 = false
        /\ forall k, In k basic_fields -> get_field p k = JUndefined)
  /\
  (generateBasicTrailInfo null_reply = Ok JNull
   /\ exists s1,
        search peak_query [BasicReplied null_reply] (initial []) = Ok (s1, Idle)
        /\ currentTrail s1 = JNull /\ view s1 = home
        /\ alerts (log s1) = [alert_message]).
Proof.
  split.
  - split; [vm_compute; reflexivity|].
    eexists _, _. split; [vm_compute; reflexivity|].
    repeat split.
    intros k Hk. simpl in Hk.
    repeat (destruct Hk as [<-|Hk]; [vm_compute; reflexivity|]). destruct Hk.
  - split; [vm_compute; reflexivity|].
    eexists. split; [vm_compute; reflexivity|]. repeat split.
Qed.

(** C4, amended. After a cache miss and a basic result that is not [null],
    the state at BASIC_READY (the handler has returned, neither concurrent
    stage has settled) shows a record that has, at each of the seven basic
    fields and at the center coordinates, what the basic result has there,
    set or not; its misc fields and its route segments are [undefined], and
    it has no property besides these fifteen; nothing has been written to the
    store. *)
Theorem partial_visibility (query : JsString) (st : AppState) (br : Reply) (b : JsValue) :
  findLocalTrail query (localStorage st) = Ok JNull ->
  generateBasicTrailInfo br = Ok b ->
  b <> JNull ->
  exists s1 p,
    search query [BasicReplied br] st = Ok (s1, AwaitStages p None None)
    /\ currentTrail s1 = p /\ view s1 = guide /\ isLoading s1 = false
    /\ (forall k, In k basic_fields -> get_field p k = get_field b k)
    /\ get_field p (js "centerCoordinates") = get_field b (js "centerCoordinates")
    /\ (forall k, In k misc_fields -> get_field p k = JUndefined)
    /\ get_field p (js "routeSegments") = JUndefined
    /\ (forall k, has_own p k = true
                  <-> In k (basic_fields ++ js "centerCoordinates"
                                         :: misc_fields ++ [js "routeSegments"]))
    /\ localStorage s1 = localStorage st
    /\ writes (log s1) = writes (log st).
Proof.
  intros F B Nn.
  pose proof (make_partialTrail_ok b Nn (stage_defined _ _ B)) as P.
  exists (ready query b st), (partial_of b).
  split; [exact (search_basic_ok _ _ _ _ F B P)|].
  split; [reflexivity|]. split; [reflexivity|]. split; [reflexivity|].
  split; [|split; [|split; [|split; [|split; [|split]]]]].
  - intros k Hk. apply partial_get_basic. apply in_or_app. left. exact Hk.
  - reflexivity.
  - intros k Hk. apply partial_get_rest. apply in_or_app. left. exact Hk.
  - reflexivity.
  - apply partial_own.
  - reflexivity.
  - apply writes_ready.
Qed.

Lemma partial_visibility_witness :
  exists s1 p,
    search peak_query [BasicReplied bare_reply] (initial [])
      = Ok (s1, AwaitStages p None None)
    /\ currentTrail s1 = p /\ view s1 = guide /\ isLoading s1 = false
    /\ (forall k, In k basic_fields -> get_field p k = get_field bare_result k)
    /\ get_field p (js "centerCoordinates") = JUndefined
    /\ (forall k, In k misc_fields -> get_field p k = JUndefined)
    /\ get_field p (js "routeSegments") = JUndefined
    /\ (forall k, has_own p k = true
                  <-> In k (basic_fields ++ js "centerCoordinates"
                                         :: misc_fields ++ [js "routeSegments"]))
    /\ localStorage s1 = []
    /\ writes (log s1) = [].
Proof.
  apply (partial_visibility peak_query (initial []) bare_reply bare_result);
    [vm_compute; reflexivity|vm_compute; reflexivity|discriminate].
Defined.

(** ** Single persistence *)





(** ** Failure of the routes stage *)



